(** * Downloads organizer: a shallow embedding of [downloads_organizer.py]

    The seven synchronous operations of the organizer are embedded as
    functions in a state-and-exception monad over a small model of the
    file system.  The Python library calls the program relies on
    (pathlib, os, shutil, zipfile, datetime) are modelled in the first
    half of the file; the program itself follows, function by function,
    under the names it has in the source. *)

From Stdlib Require Import List String Ascii ZArith Lia Bool Arith.
From Stdlib Require Import Decimal DecimalString DecimalNat FinFun Permutation Sorted.
From Stdlib.Strings Require Import Byte.
Import ListNotations.

Local Open Scope list_scope.

(* ================================================================== *)
(** ** Pure paths (pathlib.PurePath) *)
(* ================================================================== *)

(** A path is the list of its components below the file-system root;
    [[]] is ["/"].  Only absolute paths are modelled. *)
Definition Path := list string.

Module PurePath.

Fixpoint eqb (p q : Path) : bool :=
  match p, q with
  | [], [] => true
  | a :: p', b :: q' => String.eqb a b && eqb p' q'
  | _, _ => false
  end.

(** [Path.name]: the last component, empty for the root. *)
Definition name (p : Path) : string := last p EmptyString.

(** [Path.parent]: the root is its own parent. *)
Definition parent (p : Path) : Path := removelast p.

(** [p / c] for a single component [c]. *)
Definition child (p : Path) (c : string) : Path := p ++ [c].

(** Splits a name around its last dot: [name.rfind('.')] together with
    the two slices [name[:i]] and [name[i+1:]]. *)
Fixpoint rsplit_dot (s : string) : option (string * string) :=
  match s with
  | EmptyString => None
  | String c s' =>
      match rsplit_dot s' with
      | Some (a, b) => Some (String c a, b)
      | None => if Ascii.eqb c "."%char then Some (EmptyString, s') else None
      end
  end.

Definition nonempty (s : string) : bool :=
  match s with EmptyString => false | _ => true end.

(** The guard [0 < i < len(name) - 1] of [suffix] and [stem]. *)
Definition split_ext (nm : string) : option (string * string) :=
  match rsplit_dot nm with
  | Some (a, b) => if nonempty a && nonempty b then Some (a, b) else None
  | None => None
  end.

Definition suffix_of (nm : string) : string :=
  match split_ext nm with
  | Some (_, b) => String "."%char b
  | None => EmptyString
  end.

Definition stem_of (nm : string) : string :=
  match split_ext nm with
  | Some (a, _) => a
  | None => nm
  end.

Definition suffix (p : Path) : string := suffix_of (name p).
Definition stem (p : Path) : string := stem_of (name p).

(** [str.lower] on ASCII letters. *)
Definition lower_ascii (c : ascii) : ascii :=
  let n := nat_of_ascii c in
  if (65 <=? n) && (n <=? 90) then ascii_of_nat (n + 32) else c.

Fixpoint lower (s : string) : string :=
  match s with
  | EmptyString => EmptyString
  | String c s' => String (lower_ascii c) (lower s')
  end.

(** [p.relative_to(base)]: the components of [p] below [base];
    [None] stands for the ValueError of a path outside [base]. *)
Fixpoint relative_to (p base : Path) : option Path :=
  match base with
  | [] => Some p
  | b :: base' =>
      match p with
      | a :: p' => if String.eqb a b then relative_to p' base' else None
      | [] => None
      end
  end.

End PurePath.

(** [str(n)] for a natural number. *)
Definition str_of_nat (n : nat) : string :=
  NilEmpty.string_of_uint (Nat.to_uint n).

(* ================================================================== *)
(** ** Calendar (datetime) *)
(* ================================================================== *)

(** A [datetime] is the number of microseconds since 0001-01-01T00:00:00
    (datetime.min), naive as in the program.  File modification times
    are kept as the datetime [datetime.fromtimestamp(st_mtime)]. *)
Module Calendar.

Local Open Scope Z_scope.

Definition US_PER_DAY : Z := 86400000000.

(** datetime.max = 9999-12-31T23:59:59.999999. *)
Definition DATETIME_MAX : Z := 3652059 * US_PER_DAY - 1.

(** timedelta.max.days. *)
Definition MAX_DELTA_DAYS : Z := 999999999.

(** [timedelta(days=d)]; [None] is OverflowError. *)
Definition timedelta_days (d : Z) : option Z :=
  if (Z.abs d <=? MAX_DELTA_DAYS) then Some (d * US_PER_DAY) else None.

(** [t - delta] on a datetime; [None] is OverflowError. *)
Definition datetime_sub (t delta : Z) : option Z :=
  let r := t - delta in
  if (0 <=? r) && (r <=? DATETIME_MAX) then Some r else None.

(** [(a - b).days]: timedelta normalises with a floor division. *)
Definition days_between (a b : Z) : Z := (a - b) / US_PER_DAY.

Definition DAYS_BEFORE_MONTH (m : Z) : Z :=
  match m with
  | 1 => 0 | 2 => 31 | 3 => 59 | 4 => 90 | 5 => 120 | 6 => 151
  | 7 => 181 | 8 => 212 | 9 => 243 | 10 => 273 | 11 => 304 | _ => 334
  end.

Definition DAYS_IN_MONTH (m : Z) : Z :=
  match m with
  | 2 => 28
  | 4 | 6 | 9 | 11 => 30
  | _ => 31
  end.

(** [_ord2ymd] of datetime.py, on the zero-based day number. *)
Definition ord2ymd (n0 : Z) : Z * Z * Z :=
  let n400 := n0 / 146097 in
  let n := n0 mod 146097 in
  let year := n400 * 400 + 1 in
  let n100 := n / 36524 in
  let n := n mod 36524 in
  let n4 := n / 1461 in
  let n := n mod 1461 in
  let n1 := n / 365 in
  let n := n mod 365 in
  let year := year + n100 * 100 + n4 * 4 + n1 in
  if (n1 =? 4) || (n100 =? 4) then (year - 1, 12, 31)
  else
    let leapyear := (n1 =? 3) && (negb (n4 =? 24) || (n100 =? 3)) in
    let month := Z.shiftr (n + 50) 5 in
    let preceding :=
      DAYS_BEFORE_MONTH month + (if (2 <? month) && leapyear then 1 else 0) in
    if preceding >? n then
      let month := month - 1 in
      let preceding :=
        preceding
        - (DAYS_IN_MONTH month + (if (month =? 2) && leapyear then 1 else 0)) in
      (year, month, n - preceding + 1)
    else (year, month, n - preceding + 1).

Definition ymd (t : Z) : Z * Z * Z := ord2ymd (t / US_PER_DAY).

Definition month_name (m : Z) : string :=
  match m with
  | 1 => "January" | 2 => "February" | 3 => "March" | 4 => "April"
  | 5 => "May" | 6 => "June" | 7 => "July" | 8 => "August"
  | 9 => "September" | 10 => "October" | 11 => "November"
  | _ => "December"
  end%string.

Definition dec (z : Z) : string := str_of_nat (Z.to_nat z).

(** Two-digit zero-padded field, as [%m] and [%d]. *)
Definition dec2 (z : Z) : string :=
  if z <? 10 then String "0"%char (dec z) else dec z.

(** [t.strftime("%Y/%m-%B")], already split at the separator: the
    year directory and the month directory below it. *)
Definition strftime_Y_mB (t : Z) : string * string :=
  let '(y, m, _) := ymd t in
  (dec y, (dec2 m ++ "-" ++ month_name m)%string).

(** [t.strftime('%Y-%m-%d')]. *)
Definition strftime_Ymd (t : Z) : string :=
  let '(y, m, d) := ymd t in
  (dec y ++ "-" ++ dec2 m ++ "-" ++ dec2 d)%string.

(** The DOS date range of a ZIP entry: 1980-01-01 up to, not
    including, 2108-01-01. *)
Definition DOS_MIN : Z := 722814 * US_PER_DAY.
Definition DOS_END : Z := 769565 * US_PER_DAY.

End Calendar.

(* ================================================================== *)
(** ** The file system *)
(* ================================================================== *)

(** A regular file: its bytes, its modification time and the two
    permission bits the program can trip over. *)
Record file := mkFile {
  content : list byte;
  mtime : Z;
  readable : bool;
  writable : bool
}.

(** A directory only records whether entries may be added to or removed
    from it; directories are taken to be listable and searchable. *)
Inductive node :=
| File (f : file)
| Dir (w : bool).

(** The file system maps absolute paths to nodes.  It is an association
    list because the order of the entries is the order in which a
    directory scan lists them. *)
Definition fs := list (Path * node).

Definition lookup (s : fs) (p : Path) : option node :=
  match find (fun e => PurePath.eqb (fst e) p) s with
  | Some e => Some (snd e)
  | None => None
  end.

Definition remove (p : Path) (s : fs) : fs :=
  filter (fun e => negb (PurePath.eqb (fst e) p)) s.

(** A new entry goes to the end of the listing order. *)
Definition add (p : Path) (n : node) (s : fs) : fs := s ++ [(p, n)].

(** Replaces the node at [p] where it stands. *)
Definition update (p : Path) (n : node) (s : fs) : fs :=
  map (fun e => if PurePath.eqb (fst e) p then (p, n) else e) s.

Definition is_dir_node (n : node) : bool :=
  match n with Dir _ => true | File _ => false end.

(** [p] names an entry of directory [d]. *)
Definition is_child (d p : Path) : bool :=
  match p with
  | [] => false
  | _ => PurePath.eqb (PurePath.parent p) d
  end.

(** The entries of directory [d], in listing order. *)
Definition children (s : fs) (d : Path) : list (Path * node) :=
  filter (fun e => is_child d (fst e)) s.

Definition keys (s : fs) : list Path := map fst s.

Definition max_depth (s : fs) : nat :=
  fold_right (fun e m => Nat.max (List.length (fst e)) m) 0 s.

(** An entry of a ZIP container: its name inside the container, as the
    components of a relative path, and its bytes. *)
Definition zip_entry := (Path * list byte)%type.

(** The state of the machine: the files, the wall clock and the entries
    of the ZIP container the program has open for writing.  The [n]-th
    call of [datetime.now()], and every time stamp the operating system
    puts on a file, reads [clock n]. *)
Record world := mkWorld {
  files : fs;
  clock : nat -> Z;
  ticks : nat;
  zipf : list zip_entry
}.

Definition set_files (s : fs) (w : world) : world :=
  mkWorld s (clock w) (ticks w) (zipf w).

Definition set_zipf (z : list zip_entry) (w : world) : world :=
  mkWorld (files w) (clock w) (ticks w) z.

(* ================================================================== *)
(** ** Exceptions and the monad of effects *)
(* ================================================================== *)

Inductive exn :=
| FileNotFoundError
| FileExistsError
| NotADirectoryError
| IsADirectoryError
| PermissionError
| ValueError
| OverflowError
| BadZipFile.

(** How a computation ends: with a value, with a raised exception, or
    with the recursion budget of the model used up. *)
Inductive res (A : Type) :=
| Val (a : A)
| Exc (e : exn)
| Fuel.

Arguments Val {A} a.
Arguments Exc {A} e.
Arguments Fuel {A}.

Definition M (A : Type) := world -> res A * world.

Definition ret {A} (a : A) : M A := fun w => (Val a, w).

Definition bind {A B} (m : M A) (k : A -> M B) : M B :=
  fun w =>
    match m w with
    | (Val a, w') => k a w'
    | (Exc e, w') => (Exc e, w')
    | (Fuel, w') => (Fuel, w')
    end.

Definition raise {A} (e : exn) : M A := fun w => (Exc e, w).

Definition out_of_fuel {A} : M A := fun w => (Fuel, w).

(** [try: m  except Exception as e: h e]. *)
Definition try_except {A} (m : M A) (h : exn -> M A) : M A :=
  fun w =>
    match m w with
    | (Exc e, w') => h e w'
    | r => r
    end.

Definition get_files : M fs := fun w => (Val (files w), w).

Definition put_files (s : fs) : M unit := fun w => (Val tt, set_files s w).

Declare Scope monad_scope.
Delimit Scope monad_scope with monad.
Notation "x <- m ;; k" := (bind m (fun x => k))
  (at level 61, m at next level, right associativity) : monad_scope.
Notation "' pat <- m ;; k" := (bind m (fun x => match x with pat => k end))
  (at level 61, pat pattern, m at next level, right associativity) : monad_scope.
Notation "m ;;; k" := (bind m (fun _ => k))
  (at level 61, right associativity) : monad_scope.
Local Open Scope monad_scope.

(** [for x in xs: acc = body x acc]. *)
Fixpoint for_each {A X} (body : X -> A -> M A) (xs : list X) (acc : A) : M A :=
  match xs with
  | [] => ret acc
  | x :: xs' => acc' <- body x acc ;; for_each body xs' acc'
  end.

(* ================================================================== *)
(** ** System calls (os, pathlib.Path) *)
(* ================================================================== *)

(** [datetime.now()]; also the time stamp of a write. *)
Definition now : M Z :=
  fun w => (Val (clock w (ticks w)),
            mkWorld (files w) (clock w) (S (ticks w)) (zipf w)).

Definition path_exists (p : Path) : M bool :=
  s <- get_files ;;
  ret (match lookup s p with Some _ => true | None => false end).

Definition is_file (p : Path) : M bool :=
  s <- get_files ;;
  ret (match lookup s p with Some (File _) => true | _ => false end).

Definition is_dir (p : Path) : M bool :=
  s <- get_files ;;
  ret (match lookup s p with Some (Dir _) => true | _ => false end).

Record stat_result := mkStat { st_size : Z; st_mtime : Z }.

(** [p.stat()].  The program only stats regular files; a directory
    carries neither size nor time here and reports zeros. *)
Definition stat (p : Path) : M stat_result :=
  s <- get_files ;;
  match lookup s p with
  | Some (File f) => ret (mkStat (Z.of_nat (List.length (content f))) (mtime f))
  | Some (Dir _) => ret (mkStat 0 0)
  | None => raise FileNotFoundError
  end.

(** Whether an entry may be created in or removed from directory [d]. *)
Definition dir_writable (s : fs) (d : Path) : bool :=
  match lookup s d with Some (Dir true) => true | _ => false end.

(** [os.scandir(d)]: the paths of the entries, each with the answer of
    its [is_dir()]. *)
Definition listdir (s : fs) (d : Path) : list (Path * bool) :=
  map (fun e => (fst e,
                 match lookup s (fst e) with Some (Dir _) => true | _ => false end))
    (children s d).

Definition scandir (d : Path) : M (list (Path * bool)) :=
  s <- get_files ;;
  match lookup s d with
  | Some (Dir _) => ret (listdir s d)
  | Some (File _) => raise NotADirectoryError
  | None => raise FileNotFoundError
  end.

(** [os.mkdir(p)]. *)
Definition os_mkdir (p : Path) : M unit :=
  s <- get_files ;;
  match p with
  | [] => raise FileExistsError
  | _ =>
    match lookup s (PurePath.parent p) with
    | None => raise FileNotFoundError
    | Some (File _) => raise NotADirectoryError
    | Some (Dir w) =>
        match lookup s p with
        | Some _ => raise FileExistsError
        | None => if w then put_files (add p (Dir true) s) else raise PermissionError
        end
    end
  end.

(** [p.mkdir(exist_ok=True)]: FileNotFoundError is passed on, any other
    OSError is forgiven when [p] is a directory. *)
Definition mkdir_exist_ok (p : Path) : M unit :=
  try_except (os_mkdir p)
    (fun e =>
       match e with
       | FileNotFoundError => raise e
       | _ => d <- is_dir p ;; if d then ret tt else raise e
       end).

(** [p.mkdir(parents=True, exist_ok=True)], by recursion on the number
    of components of [p]: a missing parent is created first. *)
Fixpoint mkdir_parents (n : nat) (p : Path) : M unit :=
  try_except (os_mkdir p)
    (fun e =>
       match e with
       | FileNotFoundError =>
           match n with
           | O => raise e
           | S n' =>
               mkdir_parents n' (PurePath.parent p) ;;;
               mkdir_exist_ok p
           end
       | _ => d <- is_dir p ;; if d then ret tt else raise e
       end).

Definition mkdir_parents_exist_ok (p : Path) : M unit :=
  mkdir_parents (List.length p) p.

(** [os.unlink(p)] / [p.unlink()]. *)
Definition unlink (p : Path) : M unit :=
  s <- get_files ;;
  match lookup s p with
  | None => raise FileNotFoundError
  | Some (Dir _) => raise IsADirectoryError
  | Some (File _) =>
      if dir_writable s (PurePath.parent p) then put_files (remove p s)
      else raise PermissionError
  end.

(** [open(p, 'rb').read()]. *)
Definition read_bytes (p : Path) : M (list byte) :=
  s <- get_files ;;
  match lookup s p with
  | None => raise FileNotFoundError
  | Some (Dir _) => raise IsADirectoryError
  | Some (File f) => if readable f then ret (content f) else raise PermissionError
  end.

(** [os.rename(src, dst)] for a regular file [src] and a free [dst]. *)
Definition os_rename (src dst : Path) : M unit :=
  s <- get_files ;;
  match lookup s src with
  | None => raise FileNotFoundError
  | Some n =>
      match lookup s (PurePath.parent dst) with
      | None => raise FileNotFoundError
      | Some (File _) => raise NotADirectoryError
      | Some (Dir _) =>
          if dir_writable s (PurePath.parent src) && dir_writable s (PurePath.parent dst)
          then put_files (add dst n (remove dst (remove src s)))
          else raise PermissionError
      end
  end.

(** [shutil.copy2(src, dst)] for a free [dst]: the bytes, then the
    permission bits and the times ([copystat]). *)
Definition copy2 (src dst : Path) : M unit :=
  s <- get_files ;;
  match lookup s src with
  | None => raise FileNotFoundError
  | Some (Dir _) => raise IsADirectoryError
  | Some (File f) =>
      if negb (readable f) then raise PermissionError else
      match lookup s (PurePath.parent dst) with
      | None => raise FileNotFoundError
      | Some (File _) => raise NotADirectoryError
      | Some (Dir w) =>
          if w then put_files (add dst (File f) (remove dst s))
          else raise PermissionError
      end
  end.

(** [shutil.move(src, dst)] where [dst] does not exist: a rename, and
    when the rename fails, a copy followed by the removal of [src]. *)
Definition shutil_move (src dst : Path) : M unit :=
  try_except (os_rename src dst)
    (fun _ => copy2 src dst ;;; unlink src).

(** [open(p, 'wb')] followed by the write of [data] and the close: the
    file is created in its directory or truncated where it stands. *)
Definition write_bytes (p : Path) (data : list byte) : M unit :=
  s <- get_files ;;
  match lookup s p with
  | Some (Dir _) => raise IsADirectoryError
  | Some (File f) =>
      if writable f
      then t <- now ;;
           put_files (update p (File (mkFile data t (readable f) true)) s)
      else raise PermissionError
  | None =>
      match lookup s (PurePath.parent p) with
      | None => raise FileNotFoundError
      | Some (File _) => raise NotADirectoryError
      | Some (Dir w) =>
          if w
          then t <- now ;; put_files (add p (File (mkFile data t true true)) s)
          else raise PermissionError
      end
  end.

(** [os.makedirs(p)]: missing ancestors first, then [p] itself. *)
Fixpoint makedirs (n : nat) (p : Path) : M unit :=
  match n with
  | O => os_mkdir p
  | S n' =>
      e <- path_exists (PurePath.parent p) ;;
      (if e then ret tt
       else try_except (makedirs n' (PurePath.parent p))
              (fun x => match x with FileExistsError => ret tt | _ => raise x end)) ;;;
      os_mkdir p
  end.

(* ================================================================== *)
(** ** hashlib and zipfile *)
(* ================================================================== *)

(** What the program takes from its platform and is not modelled
    further: the MD5 digest of a byte string (the hexdigest after
    [update] calls is that of the concatenated chunks, whatever the
    chunking), the byte image of a ZIP container with its inverse, and
    the home directory. *)
Class Library := {
  md5_hexdigest : list byte -> string;
  zip_encode : list zip_entry -> list byte;
  zip_decode : list byte -> option (list zip_entry);
  home : Path
}.

(** An exception the [struct] module raises, seen as a ValueError. *)
Definition StructError : exn := ValueError.

(** [zipfile.ZipFile(p, 'w')]: opens [p] with mode ['w+b'], so an
    existing file is truncated and must be readable and writable.  The
    bytes of the container reach the file when it is closed. *)
Definition ZipFile_w (p : Path) : M unit :=
  s <- get_files ;;
  match lookup s p with
  | Some (Dir _) => raise IsADirectoryError
  | Some (File f) =>
      if readable f && writable f
      then t <- now ;;
           put_files (update p (File (mkFile [] t true true)) s) ;;;
           fun w => (Val tt, set_zipf [] w)
      else raise PermissionError
  | None =>
      match lookup s (PurePath.parent p) with
      | None => raise FileNotFoundError
      | Some (File _) => raise NotADirectoryError
      | Some (Dir w) =>
          if w
          then t <- now ;;
               put_files (add p (File (mkFile [] t true true)) s) ;;;
               fun w => (Val tt, set_zipf [] w)
          else raise PermissionError
      end
  end.

(** [zipf.write(item, arcname)]: the member's time must fit a DOS date
    and its bytes must be readable; the entry then joins the open
    container. *)
Definition zip_write (item arcname : Path) : M unit :=
  s <- get_files ;;
  match lookup s item with
  | None => raise FileNotFoundError
  | Some (Dir _) => fun w => (Val tt, set_zipf (zipf w ++ [(arcname, [])]) w)
  | Some (File f) =>
      if (mtime f <? Calendar.DOS_MIN)%Z then raise ValueError
      else if negb (readable f) then raise PermissionError
      else if (Calendar.DOS_END <=? mtime f)%Z then raise StructError
      else fun w => (Val tt, set_zipf (zipf w ++ [(arcname, content f)]) w)
  end.

Section Program.

Context {L : Library}.

(** [zipf.close()]: the container's bytes are in place. *)
Definition zip_close (p : Path) : M unit :=
  s <- get_files ;;
  match lookup s p with
  | Some (File f) =>
      t <- now ;;
      fun w =>
        (Val tt,
         set_files (update p (File (mkFile (zip_encode (zipf w)) t
                                      (readable f) (writable f))) s) w)
  | _ => ret tt
  end.

(** [with zipfile.ZipFile(p, 'w') as zipf: body]: the container is
    closed on the way out, also when [body] raises. *)
Definition with_ZipFile_w {A} (p : Path) (body : M A) : M A :=
  ZipFile_w p ;;;
  fun w =>
    match body w with
    | (Val a, w') => (zip_close p ;;; ret a) w'
    | (Exc e, w') => (zip_close p ;;; raise e) w'
    | (Fuel, w') => (Fuel, w')
    end.

(** The name sanitising of [ZipFile._extract_member]. *)
Definition sanitize (arcname : Path) : Path :=
  filter (fun c => negb (String.eqb c "" || String.eqb c "." || String.eqb c ".."))
    arcname.

(** [zip_ref.extractall(extract_dir)]. *)
Definition extract_member (extract_dir : Path) (m : zip_entry) (_ : unit) : M unit :=
  let targetpath := extract_dir ++ sanitize (fst m) in
  let upperdirs := PurePath.parent targetpath in
  e <- path_exists upperdirs ;;
  (if e then ret tt else makedirs (List.length upperdirs) upperdirs) ;;;
  write_bytes targetpath (snd m).

Definition extractall (item extract_dir : Path) : M unit :=
  data <- read_bytes item ;;
  match zip_decode data with
  | None => raise BadZipFile
  | Some members => for_each (extract_member extract_dir) members tt
  end.

(* ================================================================== *)
(** ** Walking a tree: [for item in path.rglob('*')] *)
(* ================================================================== *)

(** [rglob] is a generator, so the loop body runs between two steps of
    the walk and the walk sees what the body did to the file system.
    For a directory [d] the generator lists [d] and yields its entries
    (those it has not yielded before), then lists [d] again for its
    subdirectories and walks each in turn. *)

Definition visit {A} (body : Path -> A -> M A) (p : Path)
  (st : list Path * A) : M (list Path * A) :=
  if existsb (PurePath.eqb p) (fst st) then ret st
  else acc <- body p (snd st) ;; ret (p :: fst st, acc).

Fixpoint rglob_from {A} (body : Path -> A -> M A) (fuel : nat) (d : Path)
  (st : list Path * A) : M (list Path * A) :=
  match fuel with
  | O => out_of_fuel
  | S k =>
      entries <- scandir d ;;
      st1 <- for_each (visit body) (map fst entries) st ;;
      entries' <- scandir d ;;
      for_each (rglob_from body k) (map fst (filter snd entries')) st1
  end.

(** The depth the walk is given: no directory lies deeper than the
    longest path, and the program creates directories at most three
    levels below the root of the walk. *)
Definition walk_fuel (s : fs) (root : Path) : nat :=
  Nat.max (max_depth s) (List.length root + 3) + 1 - List.length root.

Definition for_rglob {A} (body : Path -> A -> M A) (root : Path) (acc : A) : M A :=
  d <- is_dir root ;;
  if d then
    s <- get_files ;;
    st <- rglob_from body (walk_fuel s root) root ([], acc) ;;
    ret (snd st)
  else ret acc.

(* ================================================================== *)
(** ** The program: [downloads_organizer.py] *)
(* ================================================================== *)

Definition FILE_CATEGORIES : list (string * list string) :=
  [ ("Images", [".jpg"; ".jpeg"; ".png"; ".gif"; ".bmp"; ".svg"; ".webp"; ".ico"]);
    ("Documents", [".pdf"; ".doc"; ".docx"; ".txt"; ".rtf"; ".odt"; ".xls";
                   ".xlsx"; ".ppt"; ".pptx"]);
    ("Videos", [".mp4"; ".avi"; ".mkv"; ".mov"; ".wmv"; ".flv"; ".webm"]);
    ("Audio", [".mp3"; ".wav"; ".flac"; ".aac"; ".ogg"; ".m4a"]);
    ("Archives", [".zip"; ".rar"; ".7z"; ".tar"; ".gz"; ".bz2"]);
    ("Code", [".py"; ".js"; ".java"; ".cpp"; ".c"; ".html"; ".css"; ".json";
              ".xml"; ".sql"]);
    ("Programs", [".exe"; ".msi"; ".dmg"; ".deb"; ".rpm"; ".apk"]);
    ("Other", []) ]%string.

(** A Python dict with list values, in insertion order. *)
Definition dict (V : Type) := list (string * V).

(** [d[k].append(v)] on a [defaultdict(list)]. *)
Fixpoint dict_append {V} (k : string) (v : V) (d : dict (list V)) : dict (list V) :=
  match d with
  | [] => [(k, [v])]
  | (k', vs) :: d' =>
      if String.eqb k' k then (k', vs ++ [v]) :: d'
      else (k', vs) :: dict_append k v d'
  end.

(** The envelope every operation answers with. *)
Inductive error_message :=
| PathDoesNotExist (p : Path).

Inductive envelope (D : Type) :=
| Ok (data : D)
| Err (error : error_message).

Arguments Ok {D} data.
Arguments Err {D} error.

(** A size in binary megabytes: [MB b] is the float
    [round(b / (1024 * 1024), 2)]. *)
Inductive mb := MB (bytes : Z).

(** [Ratio a t] is the float [round((1 - a / t) * 100, 1)];
    [RatioZero] is the integer [0]. *)
Inductive ratio :=
| RatioZero
| Ratio (archive_size total_size : Z).

Definition get_downloads_path (downloads_path : option Path) : Path :=
  match downloads_path with
  | Some p => p
  | None => home ++ ["Downloads"%string]
  end.

Fixpoint lookup_category (ext : string) (table : list (string * list string))
  : option string :=
  match table with
  | [] => None
  | (category, extensions) :: rest =>
      if existsb (String.eqb ext) extensions then Some category
      else lookup_category ext rest
  end.

Definition get_category (file_path : Path) : string :=
  let ext := PurePath.lower (PurePath.suffix file_path) in
  match lookup_category ext FILE_CATEGORIES with
  | Some category => category
  | None => "Other"%string
  end.

Definition get_file_hash (file_path : Path) : M string :=
  data <- read_bytes file_path ;;
  ret (md5_hexdigest data).

Definition relative_to (p base : Path) : M Path :=
  match PurePath.relative_to p base with
  | Some r => ret r
  | None => raise ValueError
  end.

(** *** Moving without overwriting *)

(** [f"{item.stem}_{counter}{item.suffix}"]. *)
Definition numbered (item : Path) (counter : nat) : string :=
  (PurePath.stem item ++ "_" ++ str_of_nat counter ++ PurePath.suffix item)%string.

(** [while target_path.exists(): ...; counter += 1]. *)
Fixpoint while_exists (fuel : nat) (target_dir item target_path : Path)
  (counter : nat) : M Path :=
  match fuel with
  | O => out_of_fuel
  | S k =>
      e <- path_exists target_path ;;
      if e
      then while_exists k target_dir item
             (PurePath.child target_dir (numbered item counter)) (S counter)
      else ret target_path
  end.

(** The statements both organizers run inside their [try]: choose the
    first free target name, then move.  The budget of the loop is one
    more than the number of paths there are. *)
Definition move_into (item target_dir : Path) : M Path :=
  s <- get_files ;;
  target_path <- while_exists (S (List.length s)) target_dir item
                   (PurePath.child target_dir (PurePath.name item)) 1 ;;
  shutil_move item target_path ;;;
  ret target_path.

(** *** organize_by_type_sync *)

Record organize_report := mkOrganize {
  moved_files : dict (list string);
  total_files : nat;
  folders : nat;
  errors : list (string * exn);
  dry_run_flag : bool
}.

Definition sum_len (d : dict (list string)) : nat :=
  fold_right (fun kv n => List.length (snd kv) + n) 0 d.

Definition organize_acc := (dict (list string) * list (string * exn))%type.

Definition organize_report_of (acc : organize_acc) (dry_run : bool)
  : organize_report :=
  mkOrganize (fst acc) (sum_len (fst acc)) (List.length (fst acc)) (snd acc) dry_run.

Definition organize_by_type_body (path : Path) (dry_run : bool)
  (item : Path) (acc : organize_acc) : M organize_acc :=
  f <- is_file item ;;
  if f then
    let category := get_category item in
    let target_dir := PurePath.child path category in
    if PurePath.eqb (PurePath.parent item) target_dir then ret acc
    else if negb dry_run then
      mkdir_exist_ok target_dir ;;;
      try_except
        (move_into item target_dir ;;;
         ret (dict_append category (PurePath.name item) (fst acc), snd acc))
        (fun e => ret (fst acc, snd acc ++ [(PurePath.name item, e)]))
    else ret (dict_append category (PurePath.name item) (fst acc), snd acc)
  else ret acc.

Definition organize_by_type_sync (downloads_path : option Path) (dry_run : bool)
  : M (envelope organize_report) :=
  let path := get_downloads_path downloads_path in
  e <- path_exists path ;;
  if negb e then ret (Err (PathDoesNotExist path)) else
  acc <- for_rglob (organize_by_type_body path dry_run) path ([], []) ;;
  ret (Ok (organize_report_of acc dry_run)).

(** *** find_duplicates_sync *)

Record duplicate := mkDuplicate {
  dup_file : Path;
  dup_size : Z;
  dup_original : Path
}.

Record duplicates_report := mkDuplicates {
  duplicates : list duplicate;
  dup_count : nat;
  space_saved_mb : mb;
  dup_deleted : bool
}.

Definition hash_body (item : Path) (file_hashes : dict (list Path))
  : M (dict (list Path)) :=
  f <- is_file item ;;
  if f then
    try_except
      (file_hash <- get_file_hash item ;;
       ret (dict_append file_hash item file_hashes))
      (fun _ => ret file_hashes)
  else ret file_hashes.

(** [files.sort(key=..., reverse=True)]: the keys are computed first,
    one [stat] per element, and the sort is stable. *)
Fixpoint insert_desc {X} (x : Z * X) (l : list (Z * X)) : list (Z * X) :=
  match l with
  | [] => [x]
  | y :: l' =>
      if (fst y <=? fst x)%Z then x :: y :: l' else y :: insert_desc x l'
  end.

Definition sort_desc {X} (l : list (Z * X)) : list (Z * X) :=
  fold_right insert_desc [] l.

Fixpoint mtime_keys (files : list Path) : M (list (Z * Path)) :=
  match files with
  | [] => ret []
  | x :: rest =>
      st <- stat x ;;
      ks <- mtime_keys rest ;;
      ret ((st_mtime st, x) :: ks)
  end.

Definition sort_by_mtime_desc (files : list Path) : M (list Path) :=
  ks <- mtime_keys files ;;
  ret (map snd (sort_desc ks)).

Definition duplicates_acc := (list duplicate * Z)%type.

Definition duplicate_body (path : Path) (delete_duplicates : bool)
  (keep_file dup : Path) (acc : duplicates_acc) : M duplicates_acc :=
  st <- stat dup ;;
  let size := st_size st in
  file <- relative_to dup path ;;
  original <- relative_to keep_file path ;;
  let acc' := (fst acc ++ [mkDuplicate file size original], (snd acc + size)%Z) in
  if delete_duplicates
  then try_except (unlink dup ;;; ret acc') (fun _ => ret acc')
  else ret acc'.

Definition group_body (path : Path) (delete_duplicates : bool)
  (group : string * list Path) (acc : duplicates_acc) : M duplicates_acc :=
  if 1 <? List.length (snd group) then
    files <- sort_by_mtime_desc (snd group) ;;
    match files with
    | [] => ret acc
    | keep_file :: duplicate_files =>
        for_each (duplicate_body path delete_duplicates keep_file)
          duplicate_files acc
    end
  else ret acc.

Definition find_duplicates_sync (downloads_path : option Path)
  (delete_duplicates : bool) : M (envelope duplicates_report) :=
  let path := get_downloads_path downloads_path in
  e <- path_exists path ;;
  if negb e then ret (Err (PathDoesNotExist path)) else
  file_hashes <- for_rglob hash_body path [] ;;
  acc <- for_each (group_body path delete_duplicates) file_hashes ([], 0%Z) ;;
  ret (Ok (mkDuplicates (fst acc) (List.length (fst acc)) (MB (snd acc))
             delete_duplicates)).

(** *** clean_old_files_sync *)

Record old_file := mkOldFile {
  old_path : Path;
  age_days : Z;
  old_size : Z
}.

Record clean_report := mkClean {
  old_files : list old_file;
  old_count : nat;
  total_size_mb : mb;
  clean_deleted : bool;
  days_threshold : Z
}.

(** [datetime.now() - timedelta(days=days_old)]. *)
Definition cutoff (days_old : Z) : M Z :=
  t <- now ;;
  match Calendar.timedelta_days days_old with
  | None => raise OverflowError
  | Some delta =>
      match Calendar.datetime_sub t delta with
      | None => raise OverflowError
      | Some c => ret c
      end
  end.

Definition clean_acc := (list old_file * Z)%type.

Definition clean_body (path : Path) (cutoff_date : Z) (delete : bool)
  (item : Path) (acc : clean_acc) : M clean_acc :=
  f <- is_file item ;;
  if f then
    st <- stat item ;;
    let mtime := st_mtime st in
    if (mtime <? cutoff_date)%Z then
      st' <- stat item ;;
      let size := st_size st' in
      file <- relative_to item path ;;
      t <- now ;;
      let acc' := (fst acc ++ [mkOldFile file (Calendar.days_between t mtime) size],
                   (snd acc + size)%Z) in
      if delete
      then try_except (unlink item ;;; ret acc') (fun _ => ret acc')
      else ret acc'
    else ret acc
  else ret acc.

Definition clean_old_files_sync (downloads_path : option Path) (days_old : Z)
  (delete : bool) : M (envelope clean_report) :=
  let path := get_downloads_path downloads_path in
  e <- path_exists path ;;
  if negb e then ret (Err (PathDoesNotExist path)) else
  cutoff_date <- cutoff days_old ;;
  acc <- for_rglob (clean_body path cutoff_date delete) path ([], 0%Z) ;;
  ret (Ok (mkClean (fst acc) (List.length (fst acc)) (MB (snd acc)) delete days_old)).

(** *** get_stats_sync *)

Record category_info := mkInfo { info_count : nat; info_size : Z }.

Record stats_report := mkStats {
  stats_total_files : nat;
  stats_total_size_mb : mb;
  by_category : dict (nat * mb);
  largest_files : list (Path * mb)
}.

(** [d[k]["count"] += 1; d[k]["size"] += size] on a defaultdict. *)
Fixpoint dict_count (k : string) (size : Z) (d : dict category_info)
  : dict category_info :=
  match d with
  | [] => [(k, mkInfo 1 size)]
  | (k', i) :: d' =>
      if String.eqb k' k
      then (k', mkInfo (info_count i + 1) (info_size i + size)%Z) :: d'
      else (k', i) :: dict_count k size d'
  end.

Record stats_acc := mkStatsAcc {
  acc_total_files : nat;
  acc_total_size : Z;
  acc_by_category : dict category_info;
  acc_all_files : list (Z * Path)
}.

Definition stats_body (item : Path) (acc : stats_acc) : M stats_acc :=
  f <- is_file item ;;
  if f then
    st <- stat item ;;
    let size := st_size st in
    let category := get_category item in
    ret (mkStatsAcc (acc_total_files acc + 1) (acc_total_size acc + size)%Z
           (dict_count category size (acc_by_category acc))
           (acc_all_files acc ++ [(size, item)]))
  else ret acc.

Fixpoint largest (path : Path) (l : list (Z * Path)) : M (list (Path * mb)) :=
  match l with
  | [] => ret []
  | (s, f) :: l' =>
      r <- relative_to f path ;;
      rest <- largest path l' ;;
      ret ((r, MB s) :: rest)
  end.

Definition get_stats_sync (downloads_path : option Path)
  : M (envelope stats_report) :=
  let path := get_downloads_path downloads_path in
  e <- path_exists path ;;
  if negb e then ret (Err (PathDoesNotExist path)) else
  acc <- for_rglob stats_body path (mkStatsAcc 0 0 [] []) ;;
  top <- largest path (firstn 10 (sort_desc (acc_all_files acc))) ;;
  ret (Ok (mkStats (acc_total_files acc) (MB (acc_total_size acc))
             (map (fun ci => (fst ci, (info_count (snd ci), MB (info_size (snd ci)))))
                (acc_by_category acc))
             top)).

(** *** organize_by_date_sync *)

(** The report has the shape of the one of [organize_by_type_sync];
    [folders] is its [date_folders] and the keys of [moved_files] are
    the date folders ["%Y/%m-%B"]. *)
Definition organize_by_date_body (path : Path) (dry_run : bool)
  (item : Path) (acc : organize_acc) : M organize_acc :=
  f <- is_file item ;;
  if f then
    st <- stat item ;;
    let mtime := st_mtime st in
    let '(year, month) := Calendar.strftime_Y_mB mtime in
    let date_folder := (year ++ "/" ++ month)%string in
    let target_dir := PurePath.child (PurePath.child path year) month in
    if PurePath.eqb (PurePath.parent item) target_dir then ret acc
    else if negb dry_run then
      mkdir_parents_exist_ok target_dir ;;;
      try_except
        (move_into item target_dir ;;;
         ret (dict_append date_folder (PurePath.name item) (fst acc), snd acc))
        (fun e => ret (fst acc, snd acc ++ [(PurePath.name item, e)]))
    else ret (dict_append date_folder (PurePath.name item) (fst acc), snd acc)
  else ret acc.

Definition organize_by_date_sync (downloads_path : option Path) (dry_run : bool)
  : M (envelope organize_report) :=
  let path := get_downloads_path downloads_path in
  e <- path_exists path ;;
  if negb e then ret (Err (PathDoesNotExist path)) else
  acc <- for_rglob (organize_by_date_body path dry_run) path ([], []) ;;
  ret (Ok (organize_report_of acc dry_run)).

(** *** archive_files_sync *)

Record archive_report := mkArchive {
  archive_name_used : string;
  archived_files : nat;
  original_size_mb : mb;
  archive_size_mb : mb;
  compression_ratio : ratio;
  archive_sample : list Path
}.

Definition archive_acc := (list Path * Z)%type.

(** The body of the loop.  The statements of the [try] block change
    [archived_files] and [total_size] one after the other, and what was
    changed when an exception arrives stays changed; the handlers below
    give each point of failure the state reached there. *)
Definition archive_body (path archive_path : Path) (cutoff_date : Z)
  (item : Path) (acc : archive_acc) : M archive_acc :=
  f <- is_file item ;;
  if f && negb (PurePath.eqb item archive_path) then
    st <- stat item ;;
    let mtime := st_mtime st in
    if (mtime <? cutoff_date)%Z then
      try_except
        (arcname <- relative_to item path ;;
         zip_write item arcname ;;;
         st' <- stat item ;;
         let size := st_size st' in
         let acc' := (fst acc ++ [arcname], (snd acc + size)%Z) in
         try_except (unlink item ;;; ret acc') (fun _ => ret acc'))
        (fun _ => ret acc)
    else ret acc
  else ret acc.

(** [archive_name] is a single path component: a file name below the
    root of the walk. *)
Definition archive_files_sync (downloads_path : option Path) (days_old : Z)
  (archive_name : option string) : M (envelope archive_report) :=
  let path := get_downloads_path downloads_path in
  e <- path_exists path ;;
  if negb e then ret (Err (PathDoesNotExist path)) else
  archive_name <-
    (match archive_name with
     | Some (String c n) => ret (String c n)
     | _ => t <- now ;;
            ret ("archive_" ++ Calendar.strftime_Ymd t ++ ".zip")%string
     end) ;;
  let archive_path := PurePath.child path archive_name in
  cutoff_date <- cutoff days_old ;;
  acc <- with_ZipFile_w archive_path
           (for_rglob (archive_body path archive_path cutoff_date) path ([], 0%Z)) ;;
  let total_size := snd acc in
  x <- path_exists archive_path ;;
  archive_size <- (if x then st <- stat archive_path ;; ret (st_size st)
                   else ret 0%Z) ;;
  ret (Ok (mkArchive archive_name (List.length (fst acc)) (MB total_size)
             (MB archive_size)
             (if (0 <? total_size)%Z then Ratio archive_size total_size
              else RatioZero)
             (firstn 20 (fst acc)))).

(** *** extract_archives_sync *)

Record extract_report := mkExtract {
  extracted : list (Path * Path);
  extract_count : nat;
  extract_errors : list (string * exn);
  deleted_archives : bool
}.

Definition extract_acc := (list (Path * Path) * list (string * exn))%type.

Definition extract_body (path : Path) (delete_after : bool)
  (item : Path) (acc : extract_acc) : M extract_acc :=
  f <- is_file item ;;
  if f && String.eqb (PurePath.lower (PurePath.suffix item)) ".zip" then
    let extract_dir := PurePath.child (PurePath.parent item) (PurePath.stem item) in
    try_except
      (extractall item extract_dir ;;;
       archive <- relative_to item path ;;
       extracted_to <- relative_to extract_dir path ;;
       let acc' := (fst acc ++ [(archive, extracted_to)], snd acc) in
       if delete_after
       then try_except (unlink item ;;; ret acc')
              (fun e => ret (fst acc', snd acc' ++ [(PurePath.name item, e)]))
       else ret acc')
      (fun e => ret (fst acc, snd acc ++ [(PurePath.name item, e)]))
  else ret acc.

Definition extract_archives_sync (downloads_path : option Path)
  (delete_after : bool) : M (envelope extract_report) :=
  let path := get_downloads_path downloads_path in
  e <- path_exists path ;;
  if negb e then ret (Err (PathDoesNotExist path)) else
  acc <- for_rglob (extract_body path delete_after) path ([], []) ;;
  ret (Ok (mkExtract (fst acc) (List.length (fst acc)) (snd acc) delete_after)).

End Program.

Arguments Ok {D} data.
Arguments Err {D} error.

(* ================================================================== *)
(** ** Sample platform and sample trees *)
(* ================================================================== *)

(** A stand-in for the platform, used only to evaluate the program on
    concrete trees: the "digest" of a byte string is the string itself
    and a container is the concatenation of its members. *)
Definition sample_library : Library := {|
  md5_hexdigest := string_of_list_byte;
  zip_encode := flat_map snd;
  zip_decode := fun _ => None;
  home := ["home"; "user"]%string
|}.

Definition bytes (s : string) : list byte := list_byte_of_string s.

(** A readable, writable file. *)
Definition plain_file (c : string) (t : Z) : file := mkFile (bytes c) t true true.

Definition plain (c : string) (t : Z) : node := File (plain_file c t).

(** 2024-03-01T00:00:00 and one microsecond per reading. *)
Definition sample_clock (n : nat) : Z :=
  (738945 * Calendar.US_PER_DAY + Z.of_nat n)%Z.

Definition boot (s : fs) : world := mkWorld s sample_clock 0 [].

Definition day (n : Z) : Z := (n * Calendar.US_PER_DAY)%Z.

(** A downloads folder holding a picture and a file that has the name
    of a category. *)
Definition tree_blocked : fs :=
  [ ([], Dir true);
    (["dl"], Dir true);
    (["dl"; "a.png"], plain "picture" (day 738000));
    (["dl"; "Images"], plain "notes" (day 738001)) ]%string.

(** A downloads folder with a subdirectory. *)
Definition tree_sub : fs :=
  [ ([], Dir true);
    (["dl"], Dir true);
    (["dl"; "a.png"], plain "picture" (day 738000));
    (["dl"; "old"], Dir true);
    (["dl"; "old"; "b.txt"], plain "text" (day 738001)) ]%string.

(** A picture on its way into a category folder where its name and the
    first numbered name are taken. *)
Definition tree_collision : fs :=
  [ ([], Dir true);
    (["dl"], Dir true);
    (["dl"; "a.png"], plain "new picture" (day 738002));
    (["dl"; "Images"], Dir true);
    (["dl"; "Images"; "a.png"], plain "picture" (day 738000));
    (["dl"; "Images"; "a_1.png"], plain "other picture" (day 738001)) ]%string.

(** Two files with the same bytes; the older one sits in a directory
    that lets nothing be removed. *)
Definition tree_locked : fs :=
  [ ([], Dir true);
    (["dl"], Dir true);
    (["dl"; "a.txt"], plain "same" (day 738001));
    (["dl"; "locked"], Dir false);
    (["dl"; "locked"; "b.txt"], plain "same" (day 738000)) ]%string.

(** Ninety days before the first reading of [sample_clock]. *)
Definition ninety_days_ago : Z := day 738855.

(** A file modified exactly ninety days ago and one modified a
    microsecond earlier. *)
Definition tree_edge : fs :=
  [ ([], Dir true);
    (["dl"], Dir true);
    (["dl"; "edge.txt"], plain "at the cutoff" ninety_days_ago);
    (["dl"; "old.txt"], plain "just older" (ninety_days_ago - 1)) ]%string.

(** The "downloads folder" is a regular file. *)
Definition tree_root_is_file : fs :=
  [ ([], Dir true);
    (["dl"], plain "not a folder" (day 738000)) ]%string.

(* ================================================================== *)
(** ** Vocabulary of the properties *)
(* ================================================================== *)

(** The [j]-th name the loop of [move_into] tries: the name of the
    item, then the numbered names. *)
Definition candidate (item target_dir : Path) (j : nat) : Path :=
  PurePath.child target_dir
    (match j with O => PurePath.name item | S _ => numbered item j end).

(** [within d p]: [p] is [d] or lies below it. *)
Definition within (d p : Path) : Prop := exists r, p = d ++ r.

(** [below d p]: [p] lies strictly below [d]. *)
Definition below (d p : Path) : Prop := exists r, r <> [] /\ p = d ++ r.

Fixpoint collect (f : Path -> option (list Path)) (cs : list Path)
  : option (list Path) :=
  match cs with
  | [] => Some []
  | c :: cs' =>
      match f c, collect f cs' with
      | Some l, Some ls => Some (l ++ ls)
      | _, _ => None
      end
  end.

(** The paths a walk of [d] yields on a file system that stands still,
    in the order of the walk; [None] when [d] is no directory or the
    depth [fuel] is too small for the tree. *)
Fixpoint rglob_list (fuel : nat) (s : fs) (d : Path) : option (list Path) :=
  match fuel with
  | O => None
  | S k =>
      match lookup s d with
      | Some (Dir _) =>
          match collect (rglob_list k s) (map fst (filter snd (listdir s d))) with
          | Some ls => Some (map fst (listdir s d) ++ ls)
          | None => None
          end
      | _ => None
      end
  end.

(** The items of [for item in root.rglob('*')] on a file system that
    stands still. *)
Definition rglob_items (s : fs) (root : Path) : list Path :=
  match rglob_list (walk_fuel s root) s root with
  | Some l => l
  | None => []
  end.

(** The file system without the paths of [D]. *)
Definition prune (D : list Path) (s : fs) : fs :=
  filter (fun e => negb (existsb (PurePath.eqb (fst e)) D)) s.

(** [s'] is [s] without some regular files, each in a directory that
    satisfies [Pd]. *)
Definition pruned_by (Pd : Path -> Prop) (s s' : fs) : Prop :=
  exists D,
    s' = prune D s /\
    Forall (fun p => p <> [] /\ Pd (PurePath.parent p) /\
                     exists f, lookup s p = Some (File f)) D.

(** A loop body is tidy when all it does to the files is, at most,
    remove the regular file it was handed. *)
Definition tidy {A} (body : Path -> A -> M A) : Prop :=
  forall p a w,
    files (snd (body p a w)) = files w \/
    (exists f, lookup (files w) p = Some (File f) /\
               files (snd (body p a w)) = remove p (files w)).

(** A file system in which no path occurs twice. *)
Definition unique_paths (s : fs) : Prop := NoDup (keys s).

(** [descends s d rel]: [d ++ rel] is an entry of the tree of [s] that
    hangs below [d]: every directory on the way down is there. *)
Fixpoint descends (s : fs) (d : Path) (rel : list string) : Prop :=
  match rel with
  | [] => False
  | x :: rel' =>
      match rel' with
      | [] => exists n, lookup s (d ++ [x]) = Some n
      | _ => (exists b, lookup s (d ++ [x]) = Some (Dir b)) /\
             descends s (d ++ [x]) rel'
      end
  end.

(** The regular file at [p], if there is one. *)
Definition file_at (s : fs) (p : Path) : option file :=
  match lookup s p with
  | Some (File f) => Some f
  | _ => None
  end.

Definition size_of (f : file) : Z := Z.of_nat (List.length (content f)).

(** The path of [p] relative to [root], for [p] below [root]. *)
Definition rel (root p : Path) : Path := skipn (List.length root) p.

(** What [clean_old_files_sync] is to list: the items that are regular
    files older than the cutoff, in the order of the walk; the [n]-th
    entry gets its age from the [n]-th reading of the clock after the
    one the cutoff was computed from. *)
Fixpoint old_entries (s : fs) (clk : nat -> Z) (root : Path) (cutoff_date : Z)
  (items : list Path) (n : nat) : list old_file :=
  match items with
  | [] => []
  | p :: rest =>
      match file_at s p with
      | Some f =>
          if (mtime f <? cutoff_date)%Z
          then mkOldFile (rel root p) (Calendar.days_between (clk n) (mtime f))
                 (size_of f)
               :: old_entries s clk root cutoff_date rest (S n)
          else old_entries s clk root cutoff_date rest n
      | None => old_entries s clk root cutoff_date rest n
      end
  end.

Definition sum_Z (l : list Z) : Z := fold_right Z.add 0%Z l.

(** [zipf.write] accepts the file: its time fits a DOS date and its
    bytes can be read. *)
Definition zip_ok (f : file) : bool :=
  (Calendar.DOS_MIN <=? mtime f)%Z && (mtime f <? Calendar.DOS_END)%Z && readable f.

(** The regular file at [p] when [p] passes the filters of
    [archive_files_sync]: it is not the container and it is older than
    the cutoff. *)
Definition qualifies (s : fs) (archive_path : Path) (cutoff_date : Z) (p : Path)
  : option file :=
  match file_at s p with
  | Some f =>
      if negb (PurePath.eqb p archive_path) && (mtime f <? cutoff_date)%Z
      then Some f else None
  | None => None
  end.

(** The items that reach the container: those that qualify and that
    [zipf.write] accepts. *)
Definition written (s : fs) (archive_path : Path) (cutoff_date : Z) (p : Path)
  : option file :=
  match qualifies s archive_path cutoff_date p with
  | Some f => if zip_ok f then Some f else None
  | None => None
  end.

Definition is_some {X} (o : option X) : bool :=
  match o with Some _ => true | None => false end.

Definition archived_items (s : fs) (archive_path : Path) (cutoff_date : Z)
  (items : list Path) : list Path :=
  filter (fun p => is_some (written s archive_path cutoff_date p)) items.

(** Those of them whose original can be removed. *)
Definition removed_items (s : fs) (archive_path : Path) (cutoff_date : Z)
  (items : list Path) : list Path :=
  filter (fun p => dir_writable s (PurePath.parent p))
    (archived_items s archive_path cutoff_date items).

Definition content_at (s : fs) (p : Path) : list byte :=
  match file_at s p with Some f => content f | None => [] end.

Definition size_at (s : fs) (p : Path) : Z :=
  match file_at s p with Some f => size_of f | None => 0%Z end.

(** The file system after [zipfile.ZipFile(p, 'w')] at time [t], when
    the container can be opened. *)
Definition opened (s : fs) (p : Path) (t : Z) : option fs :=
  match lookup s p with
  | Some (File f) =>
      if readable f && writable f
      then Some (update p (File (mkFile [] t true true)) s)
      else None
  | Some (Dir _) => None
  | None =>
      match lookup s (PurePath.parent p) with
      | Some (Dir true) => Some (add p (File (mkFile [] t true true)) s)
      | _ => None
      end
  end.

(** The name of the container and the number of clock readings before
    the cutoff is computed. *)
Definition resolve_archive_name (archive_name : option string) (w : world)
  : string * nat :=
  match archive_name with
  | Some (String c n) => (String c n, ticks w)
  | _ => (("archive_" ++ Calendar.strftime_Ymd (clock w (ticks w)) ++ ".zip")%string,
          S (ticks w))
  end.

Definition mtime_at (s : fs) (p : Path) : Z :=
  match file_at s p with Some f => mtime f | None => 0%Z end.

(** The members of a group, newest first; among equally new members
    the order of the walk is kept. *)
Definition by_mtime_desc (s : fs) (members : list Path) : list Path :=
  map snd (sort_desc (map (fun p => (mtime_at s p, p)) members)).

(** The members of a group that are reported as duplicates: all but
    the first of [by_mtime_desc], when the group has two members or
    more. *)
Definition group_duplicate_paths (s : fs) (members : list Path) : list Path :=
  if 1 <? List.length members then tl (by_mtime_desc s members) else [].

Definition group_keep (s : fs) (members : list Path) : Path :=
  hd [] (by_mtime_desc s members).

Definition group_duplicates (s : fs) (root : Path) (members : list Path)
  : list duplicate :=
  map (fun d => mkDuplicate (rel root d) (size_at s d)
                  (rel root (group_keep s members)))
    (group_duplicate_paths s members).

Definition expected_duplicates (s : fs) (root : Path) (groups : dict (list Path))
  : list duplicate :=
  flat_map (fun g => group_duplicates s root (snd g)) groups.

Definition duplicate_paths (s : fs) (groups : dict (list Path)) : list Path :=
  flat_map (fun g => group_duplicate_paths s (snd g)) groups.

(** Of the files a loop lists, those it removes: when it is asked to
    delete, the ones in a directory that lets it. *)
Definition unlinked (delete : bool) (s : fs) (listed : list Path) : list Path :=
  if delete
  then filter (fun p => dir_writable s (PurePath.parent p)) listed
  else [].

(** The items that are regular files older than the cutoff. *)
Definition old_items (s : fs) (cutoff_date : Z) (items : list Path) : list Path :=
  filter (fun p => match file_at s p with
                   | Some f => (mtime f <? cutoff_date)%Z
                   | None => false
                   end) items.

Section Digests.

Context {L : Library}.

(** The digest [get_file_hash] computes for [p], when it computes
    one. *)
Definition digest_at (s : fs) (p : Path) : option string :=
  match file_at s p with
  | Some f => if readable f then Some (md5_hexdigest (content f)) else None
  | None => None
  end.

Definition hash_step (s : fs) (d : dict (list Path)) (p : Path) : dict (list Path) :=
  match digest_at s p with
  | Some h => dict_append h p d
  | None => d
  end.

(** The groups of the first loop of [find_duplicates_sync]. *)
Definition hash_groups (s : fs) (items : list Path) : dict (list Path) :=
  fold_left (hash_step s) items [].

(** The items whose digest is [h], in the order of the walk. *)
Definition with_digest (s : fs) (h : string) (items : list Path) : list Path :=
  filter (fun p => match digest_at s p with
                   | Some h' => String.eqb h' h
                   | None => false
                   end) items.

End Digests.

(** The value of a dict of lists at a key, empty where there is none. *)
Fixpoint dict_get {V} (k : string) (d : dict (list V)) : list V :=
  match d with
  | [] => []
  | (k', vs) :: d' => if String.eqb k' k then vs else dict_get k d'
  end.

(** The test for [unique_paths]. *)
Fixpoint unique_pathsb (l : list Path) : bool :=
  match l with
  | [] => true
  | p :: l' => negb (existsb (PurePath.eqb p) l') && unique_pathsb l'
  end.

(** A computation that leaves the files as they are, however it ends. *)
Definition keeps_files {A} (m : M A) : Prop :=
  forall w, files (snd (m w)) = files w.

(** Where an organizer wants an item: the key it reports the item
    under and the directory it moves the item to. *)
Definition type_target (root : Path) (item : Path) : string * Path :=
  (get_category item, PurePath.child root (get_category item)).

Definition date_target (s : fs) (root : Path) (item : Path) : string * Path :=
  let '(year, month) := Calendar.strftime_Y_mB (mtime_at s item) in
  ((year ++ "/" ++ month)%string,
   PurePath.child (PurePath.child root year) month).

(** The item is a regular file outside the directory it is wanted in. *)
Definition misplaced (target : Path -> string * Path) (s : fs) (item : Path) : bool :=
  is_some (file_at s item) &&
  negb (PurePath.eqb (PurePath.parent item) (snd (target item))).

(** The moves an organizer announces in a dry run: every misplaced
    item, by name, under its key. *)
Definition planned_moves (target : Path -> string * Path) (s : fs)
  (items : list Path) : dict (list string) :=
  fold_left
    (fun d item =>
       if misplaced target s item
       then dict_append (fst (target item)) (PurePath.name item) d
       else d)
    items [].

(** [placed root p]: [p] sits directly in the folder of its category. *)
Definition placed (root p : Path) : Prop :=
  PurePath.parent p = PurePath.child root (get_category p).

(** If there is a regular file at [p], it is in its place. *)
Definition settled (root : Path) (s : fs) (p : Path) : Prop :=
  forall f, lookup s p = Some (File f) -> placed root p.

(** Every regular file below [root] is in the folder of its category. *)
Definition organized (s : fs) (root : Path) : Prop :=
  forall p, below root p -> settled root s p.

(** Every entry but ["/"] lies in a directory. *)
Definition parents_are_dirs (s : fs) : Prop :=
  forall p n, lookup s p = Some n -> p <> [] ->
    exists b, lookup s (PurePath.parent p) = Some (Dir b).

Definition parents_are_dirsb (s : fs) : bool :=
  forallb
    (fun e =>
       match fst e with
       | [] => true
       | _ => match lookup s (PurePath.parent (fst e)) with
              | Some (Dir _) => true
              | _ => false
              end
       end) s.

Definition well_formed (s : fs) : Prop := unique_paths s /\ parents_are_dirs s.

(** What the organizer may have done between [s] and [s']: the
    directories of [s] are still there, and a regular file of [s'] is
    in its place or stands where a regular file stood in [s]. *)
Definition settles (root : Path) (s s' : fs) : Prop :=
  (forall p b, lookup s p = Some (Dir b) -> lookup s' p = Some (Dir b)) /\
  (forall p f, lookup s' p = Some (File f) ->
     placed root p \/ exists f', lookup s p = Some (File f')).

(** The state of a walk: the paths yielded so far and the accumulator
    of the loop. *)
Definition walk_state := (list Path * organize_acc)%type.

Definition no_errors (st : walk_state) : Prop := snd (snd st) = [].

(** One stretch of a run of [organize_by_type_sync], from [(st, w)] to
    [(st', w')], that has dealt with the paths in [Q]: it keeps the file
    system well formed, it only settles files, it forgets no error, and
    if it ends without errors the paths yielded so far and the paths in
    [Q] are settled. *)
Definition tidies (root : Path) (Q : Path -> Prop)
  (st : walk_state) (w : world) (st' : walk_state) (w' : world) : Prop :=
  well_formed (files w') /\
  settles root (files w) (files w') /\
  (no_errors st' -> no_errors st) /\
  (no_errors st' ->
   Forall (settled root (files w)) (fst st) ->
   Forall (settled root (files w')) (fst st') /\
   forall p, Q p -> settled root (files w') p).

(** The test for a list of strings without repetition. *)
Fixpoint distinctb (l : list string) : bool :=
  match l with
  | [] => true
  | x :: l' => negb (existsb (String.eqb x) l') && distinctb l'
  end.

(** *** Reading a file in chunks *)

(** The loop of [get_file_hash],
    [for chunk in iter(lambda: f.read(n), b""): hasher.update(chunk)],
    on the bytes [rest] the file object has not handed out yet: a read
    takes the next [n] bytes, the loop ends with the first empty read,
    and [hashed] are the bytes the hasher has been fed, in order. *)
Fixpoint update_chunks (fuel n : nat) (rest hashed : list byte)
  : option (list byte) :=
  match fuel with
  | O => None
  | S k =>
      match firstn n rest with
      | [] => Some hashed
      | chunk => update_chunks k n (skipn n rest) (hashed ++ chunk)
      end
  end.

Definition CHUNK_SIZE : nat := 4096.

(** [get_file_hash] with its loop written out; the digest of a hasher
    is the digest of the bytes it has been fed. *)
Definition get_file_hash_chunked {L : Library} (file_path : Path) : M string :=
  data <- read_bytes file_path ;;
  match update_chunks (S (List.length data)) CHUNK_SIZE data [] with
  | Some hashed => ret (md5_hexdigest hashed)
  | None => out_of_fuel
  end.

(** *** What [get_stats_sync] counts *)

(** The items that are regular files, in the order of the walk. *)
Definition regular_files (s : fs) (items : list Path) : list Path :=
  filter (fun p => is_some (file_at s p)) items.

Definition count_step (s : fs) (d : dict category_info) (p : Path)
  : dict category_info :=
  dict_count (get_category p) (size_at s p) d.

Definition sized (s : fs) (p : Path) : Z * Path := (size_at s p, p).

Definition in_category (c : string) (p : Path) : bool :=
  String.eqb (get_category p) c.

Definition mb_bytes (m : mb) : Z := match m with MB b => b end.

(** The value of a dict at a key. *)
Fixpoint dict_find {V} (k : string) (d : dict V) : option V :=
  match d with
  | [] => None
  | (k', v) :: d' => if String.eqb k' k then Some v else dict_find k d'
  end.

(** Largest first. *)
Definition by_size_desc {X} (x y : Z * X) : Prop := (fst y <= fst x)%Z.

(** The entry of a category after [n] more files of [z] bytes in all. *)
Definition info_add (o : option category_info) (n : nat) (z : Z)
  : option category_info :=
  match n, o with
  | O, _ => o
  | _, Some i => Some (mkInfo (info_count i + n) (info_size i + z))
  | _, None => Some (mkInfo n z)
  end.

(** *** What the organizers keep *)

(** The directory an organizer wants a file in: that of its category
    for [organize_by_type_sync], that of the month of its modification
    time for [organize_by_date_sync]. *)
Definition type_home (root : Path) (p : Path) (f : file) : Path :=
  PurePath.child root (get_category p).

Definition date_home (root : Path) (p : Path) (f : file) : Path :=
  let '(year, month) := Calendar.strftime_Y_mB (mtime f) in
  PurePath.child (PurePath.child root year) month.

(** The file [f] at [q] lies directly in the directory it is wanted in. *)
Definition at_home (home : Path -> file -> Path) (q : Path) (f : file) : Prop :=
  PurePath.parent q = home q f.

(** [s'] is [s] with more directories. *)
Definition adds_dirs (s s' : fs) : Prop :=
  (forall q n, lookup s q = Some n -> lookup s' q = Some n) /\
  (forall q f, lookup s' q = Some (File f) -> lookup s q = Some (File f)) /\
  (well_formed s -> well_formed s').

(** Between [s] and [s'] no file was lost or changed: directories
    stay; a file that is at home stays where it is; any other file is
    where it was or, the same bytes, time and permissions, in its home
    under its name or a numbered name; and every file of [s'] is a file
    of [s] where it was, or one that was not at home, moved or copied
    there. *)
Definition conserves (home : Path -> file -> Path) (s s' : fs) : Prop :=
  (forall q b, lookup s q = Some (Dir b) -> lookup s' q = Some (Dir b)) /\
  (forall q f, lookup s q = Some (File f) -> at_home home q f ->
               lookup s' q = Some (File f)) /\
  (forall p f, lookup s p = Some (File f) ->
               lookup s' p = Some (File f) \/
               exists k, lookup s' (candidate p (home p f) k) = Some (File f)) /\
  (forall q f, lookup s' q = Some (File f) ->
               lookup s q = Some (File f) \/
               exists p k, lookup s p = Some (File f) /\ ~ at_home home p f /\
                           q = candidate p (home p f) k).

(** Whatever state [m] starts in and however it ends, the files it
    leaves are related by [R] to the files it found. *)
Definition related {A} (R : fs -> fs -> Prop) (m : M A) : Prop :=
  forall w, R (files w) (files (snd (m w))).

(** *** Files that have arrived *)

(** If there is a regular file at [p], it is at home. *)
Definition settled_in (home : Path -> file -> Path) (s : fs) (p : Path) : Prop :=
  forall f, lookup s p = Some (File f) -> at_home home p f.

(** Every regular file below [root] is at home. *)
Definition arranged (home : Path -> file -> Path) (s : fs) (root : Path) : Prop :=
  forall p, below root p -> settled_in home s p.

(** Between [s] and [s'] directories stayed, and every regular file of
    [s'] is at home or is a file of [s] that has not moved. *)
Definition settles_in (home : Path -> file -> Path) (s s' : fs) : Prop :=
  (forall p b, lookup s p = Some (Dir b) -> lookup s' p = Some (Dir b)) /\
  (forall p f, lookup s' p = Some (File f) ->
     at_home home p f \/ lookup s p = Some (File f)).

(** [tidies], for an organizer that sends files to [home]. *)
Definition tidies_in (home : Path -> file -> Path) (Q : Path -> Prop)
  (st : walk_state) (w : world) (st' : walk_state) (w' : world) : Prop :=
  well_formed (files w') /\
  settles_in home (files w) (files w') /\
  (no_errors st' -> no_errors st) /\
  (no_errors st' ->
   Forall (settled_in home (files w)) (fst st) ->
   Forall (settled_in home (files w')) (fst st') /\
   forall p, Q p -> settled_in home (files w') p).

(** *** Extraction *)

(** A platform whose containers hold one member, with a name that
    tries to leave the directory it is extracted to. *)
Definition climbing_library : Library := {|
  md5_hexdigest := string_of_list_byte;
  zip_encode := flat_map snd;
  zip_decode := fun data => Some [(["."; ".."; "up"; "a.txt"]%string, data)];
  home := ["home"; "user"]%string
|}.

(** A downloads folder with an archive. *)
Definition tree_archive : fs :=
  [ ([], Dir true);
    (["dl"], Dir true);
    (["dl"; "docs.zip"], plain "payload" (day 738000)) ]%string.

(** A component that names an entry: not empty, not [.], not [..]. *)
Definition proper_component (c : string) : Prop :=
  c <> ""%string /\ c <> "."%string /\ c <> ".."%string.

(** [q] is [d] or an entry reached from [d] by going down only. *)
Definition inside (d q : Path) : Prop :=
  exists r, q = d ++ r /\ Forall proper_component r.

(** Between [s] and [s'] only paths that satisfy [P] changed. *)
Definition touches_only (P : Path -> Prop) (s s' : fs) : Prop :=
  forall q, ~ P q -> lookup s' q = lookup s q.

(** Between [s] and [s'] no entry went away: a directory is as it
    was, and where there was a regular file there is one. *)
Definition never_removes (s s' : fs) : Prop :=
  forall q n, lookup s q = Some n ->
    match n with
    | Dir b => lookup s' q = Some (Dir b)
    | File _ => exists f', lookup s' q = Some (File f')
    end.

(** *** When [organize_by_type_sync] returns *)

(** No regular file has the name of a category folder. *)
Definition names_free (root : Path) (s : fs) : Prop :=
  forall c g, In c (map fst FILE_CATEGORIES) ->
              lookup s (PurePath.child root c) <> Some (File g).

(** No directory lies deeper than [B] components. *)
Definition shallow (B : nat) (s : fs) : Prop :=
  forall q b, lookup s q = Some (Dir b) -> List.length q <= B.

(** The root is a directory that takes new entries, the names of the
    category folders are free, and the tree is no deeper than [B]. *)
Definition ready (root : Path) (B : nat) (s : fs) : Prop :=
  lookup s root = Some (Dir true) /\ names_free root s /\ shallow B s.

(** A downloads folder in which [a.png] has to move beside another
    [a.png]. *)
Definition tree_ready : fs :=
  [ ([], Dir true);
    (["dl"], Dir true);
    (["dl"; "a.png"], File (mkFile [] 0 true true));
    (["dl"; "Images"], Dir true);
    (["dl"; "Images"; "a.png"], File (mkFile [] 1 true true)) ]%string.

(* ================================================================== *)
(** * Properties *)
(* ================================================================== *)

(** ** Paths *)

Lemma path_eqb_eq (p q : Path) : PurePath.eqb p q = true <-> p = q.
Proof.
  revert q; induction p as [|a p IH]; intros [|b q]; simpl; try (split; congruence).
  rewrite andb_true_iff, String.eqb_eq, IH. split.
  - intros [-> ->]; reflexivity.
  - intros H; inversion H; auto.
Qed.

Lemma path_eqb_refl (p : Path) : PurePath.eqb p p = true.
Proof. apply path_eqb_eq; reflexivity. Qed.

Lemma path_eqb_neq (p q : Path) : PurePath.eqb p q = false <-> p <> q.
Proof.
  rewrite <- path_eqb_eq. destruct (PurePath.eqb p q); split; congruence.
Qed.

Lemma path_eqb_sym (p q : Path) : PurePath.eqb p q = PurePath.eqb q p.
Proof.
  destruct (PurePath.eqb p q) eqn:E.
  - apply path_eqb_eq in E; subst; symmetry; apply path_eqb_refl.
  - symmetry; apply path_eqb_neq. apply path_eqb_neq in E. congruence.
Qed.

Lemma parent_child (p : Path) (c : string) :
  PurePath.parent (PurePath.child p c) = p.
Proof. unfold PurePath.parent, PurePath.child. apply removelast_last. Qed.

Lemma name_child (p : Path) (c : string) :
  PurePath.name (PurePath.child p c) = c.
Proof. unfold PurePath.name, PurePath.child. apply last_last. Qed.

Lemma child_parent_name (p : Path) :
  p <> [] -> PurePath.child (PurePath.parent p) (PurePath.name p) = p.
Proof.
  intros H. unfold PurePath.child, PurePath.parent, PurePath.name.
  symmetry. apply app_removelast_last; assumption.
Qed.

Lemma length_parent (p : Path) :
  p <> [] -> List.length p = S (List.length (PurePath.parent p)).
Proof.
  intros H. rewrite <- (child_parent_name p H) at 1.
  unfold PurePath.child. rewrite length_app; simpl; lia.
Qed.

(** ** The monad *)

Ltac mred :=
  unfold bind, ret, raise, out_of_fuel, try_except, get_files, put_files in *;
  simpl in *.

Lemma bind_val {A B} (m : M A) (k : A -> M B) (w : world) (a : A) (w' : world) :
  m w = (Val a, w') -> (x <- m ;; k x) w = k a w'.
Proof. intros H. unfold bind. rewrite H. reflexivity. Qed.

Lemma for_each_app {A X} (body : X -> A -> M A) (xs ys : list X) (acc : A) (w : world) :
  for_each body (xs ++ ys) acc w =
  bind (for_each body xs acc) (for_each body ys) w.
Proof.
  revert acc w; induction xs as [|x xs IH]; intros acc w; simpl.
  - reflexivity.
  - unfold bind. destruct (body x acc w) as [[a|e|] w']; auto.
Qed.

(** ** Finite maps as association lists *)

Lemma lookup_remove_eq (s : fs) (p : Path) : lookup (remove p s) p = None.
Proof.
  unfold lookup, remove. induction s as [|[q n] s IH]; simpl; auto.
  destruct (PurePath.eqb q p) eqn:E; simpl; auto. rewrite E. exact IH.
Qed.

Lemma lookup_remove_neq (s : fs) (p q : Path) :
  q <> p -> lookup (remove p s) q = lookup s q.
Proof.
  intros Hq. unfold lookup, remove. induction s as [|[r n] s IH]; simpl; auto.
  destruct (PurePath.eqb r p) eqn:E; simpl.
  - apply path_eqb_eq in E; subst r.
    assert (PurePath.eqb p q = false) as -> by (apply path_eqb_neq; congruence).
    exact IH.
  - destruct (PurePath.eqb r q); auto.
Qed.

Lemma lookup_add (s : fs) (p q : Path) (n : node) :
  lookup (add p n s) q =
  match lookup s q with
  | Some x => Some x
  | None => if PurePath.eqb p q then Some n else None
  end.
Proof.
  unfold lookup, add. induction s as [|[r m] s IH]; simpl.
  - destruct (PurePath.eqb p q); reflexivity.
  - destruct (PurePath.eqb r q); simpl; auto.
Qed.

Lemma lookup_update (s : fs) (p q : Path) (n : node) :
  lookup (update p n s) q =
  match lookup s q with
  | Some x => if PurePath.eqb p q then Some n else Some x
  | None => None
  end.
Proof.
  unfold lookup, update. induction s as [|[r m] s IH]; simpl; auto.
  destruct (PurePath.eqb r p) eqn:E; simpl.
  - apply path_eqb_eq in E; subst r.
    destruct (PurePath.eqb p q); simpl; auto.
  - destruct (PurePath.eqb r q) eqn:E'; simpl; auto.
    apply path_eqb_eq in E'; subst r. rewrite path_eqb_sym, E. reflexivity.
Qed.

Lemma lookup_In (s : fs) (p : Path) (n : node) :
  lookup s p = Some n -> In (p, n) s.
Proof.
  unfold lookup. destruct (find _ s) as [[q m]|] eqn:E; [|discriminate].
  intros H; inversion H; subst. apply find_some in E. destruct E as [Hin Heq].
  simpl in Heq. apply path_eqb_eq in Heq; subst. exact Hin.
Qed.

Lemma In_lookup (s : fs) (p : Path) (n : node) :
  In (p, n) s -> exists m, lookup s p = Some m.
Proof.
  intros H. unfold lookup. destruct (find _ s) as [[q m]|] eqn:E.
  - eauto.
  - exfalso. apply (find_none _ _ E) in H. simpl in H.
    rewrite path_eqb_refl in H. discriminate.
Qed.

Lemma max_depth_ge (s : fs) (p : Path) (n : node) :
  In (p, n) s -> List.length p <= max_depth s.
Proof.
  induction s as [|[q m] s IH]; simpl; [tauto|].
  intros [H|H].
  - inversion H; subst. lia.
  - specialize (IH H). lia.
Qed.

(* ================================================================== *)
(** ** The guard on the root *)
(* ================================================================== *)

Section Guard.

Context {L : Library}.

Lemma path_exists_missing (p : Path) (w : world) :
  lookup (files w) p = None -> path_exists p w = (Val false, w).
Proof. intros H. unfold path_exists. mred. rewrite H. reflexivity. Qed.

Lemma guard_missing {X} (p : Path) (w : world) (x : X) (k : M X) :
  lookup (files w) p = None ->
  (e <- path_exists p ;; if negb e then ret x else k) w = (Val x, w).
Proof.
  intros H. unfold bind at 1. rewrite (path_exists_missing _ _ H). reflexivity.
Qed.

(** C3 (as amended).  When the resolved root does not exist, each of the
    seven operations answers with the path-not-found failure at once:
    nothing is scanned and the state of the machine is the one it was
    called in. *)
Theorem missing_root_fails_fast
  (downloads_path : option Path) (w : world)
  (dry_run delete : bool) (days_old : Z) (archive_name : option string) :
  lookup (files w) (get_downloads_path downloads_path) = None ->
  let failure {D} : res (envelope D) * world :=
    (Val (Err (PathDoesNotExist (get_downloads_path downloads_path))), w) in
  organize_by_type_sync downloads_path dry_run w = failure /\
  find_duplicates_sync downloads_path delete w = failure /\
  clean_old_files_sync downloads_path days_old delete w = failure /\
  get_stats_sync downloads_path w = failure /\
  organize_by_date_sync downloads_path dry_run w = failure /\
  archive_files_sync downloads_path days_old archive_name w = failure /\
  extract_archives_sync downloads_path delete w = failure.
Proof.
  intros H failure.
  unfold organize_by_type_sync, find_duplicates_sync, clean_old_files_sync,
    get_stats_sync, organize_by_date_sync, archive_files_sync,
    extract_archives_sync, failure.
  repeat split; apply guard_missing; exact H.
Qed.

End Guard.

(** The guard passes for a default root that is missing, too. *)
Lemma missing_root_fails_fast_witness :
  lookup (files (boot tree_sub)) (@get_downloads_path sample_library None) = None /\
  @clean_old_files_sync sample_library None 90 true (boot tree_sub) =
  (Val (Err (PathDoesNotExist ["home"; "user"; "Downloads"]%string)), boot tree_sub).
Proof.
  split; [reflexivity|].
  apply (@missing_root_fails_fast sample_library None (boot tree_sub)
           false true 90%Z None).
  reflexivity.
Defined.

(** C3, as the claim has it, fails: a root that exists but is a regular
    file passes the guard.  [organize_by_type_sync] then finds nothing
    to walk and reports success. *)
Lemma root_that_is_a_file_is_accepted :
  lookup tree_root_is_file ["dl"%string] = Some (plain "not a folder" (day 738000)) /\
  fst (@organize_by_type_sync sample_library (Some ["dl"%string]) false
         (boot tree_root_is_file))
  = Val (Ok (mkOrganize [] 0 0 [] false)).
Proof. split; vm_compute; reflexivity. Qed.

(* ================================================================== *)
(** ** Exceptions that leave the program *)
(* ================================================================== *)

(** C2.  Two calls that end with an exception instead of an answer: in
    [organize_by_type_sync] the category directory cannot be made
    because a file has its name, and [mkdir] stands before the [try];
    in [archive_files_sync] the container cannot be opened because its
    name is the one of a directory. *)
Theorem uncaught_exceptions :
  fst (@organize_by_type_sync sample_library (Some ["dl"%string]) false
         (boot tree_blocked)) = Exc FileExistsError /\
  fst (@archive_files_sync sample_library (Some ["dl"%string]) 180
         (Some "old"%string) (boot tree_sub)) = Exc IsADirectoryError.
Proof. split; vm_compute; reflexivity. Qed.

(* ================================================================== *)
(** ** Moving without overwriting *)
(* ================================================================== *)

Lemma append_inv_head (s a b : string) : (s ++ a = s ++ b -> a = b)%string.
Proof. induction s; simpl; intros H; [exact H | inversion H; auto]. Qed.

Lemma append_length (a b : string) :
  String.length (a ++ b) = String.length a + String.length b.
Proof. induction a; simpl; auto. Qed.

Lemma append_inv_tail (s a b : string) : (a ++ s = b ++ s -> a = b)%string.
Proof.
  revert b; induction a as [|c a IH]; intros [|c' b] H; simpl in *.
  - reflexivity.
  - apply (f_equal String.length) in H. simpl in H. rewrite append_length in H. lia.
  - apply (f_equal String.length) in H. simpl in H. rewrite append_length in H. lia.
  - inversion H; subst. f_equal. apply IH; assumption.
Qed.

Lemma str_of_nat_inj (m n : nat) : str_of_nat m = str_of_nat n -> m = n.
Proof.
  unfold str_of_nat. intros H.
  assert (Some (Nat.to_uint m) = Some (Nat.to_uint n)) as E
    by (rewrite <- !NilEmpty.usu, H; reflexivity).
  inversion E as [E'].
  rewrite <- (DecimalNat.Unsigned.of_to m), <- (DecimalNat.Unsigned.of_to n), E'.
  reflexivity.
Qed.

Lemma numbered_inj (item : Path) (i j : nat) :
  numbered item i = numbered item j -> i = j.
Proof.
  unfold numbered. intros H.
  apply append_inv_head in H. apply (append_inv_head "_") in H.
  apply append_inv_tail in H. apply str_of_nat_inj; assumption.
Qed.

(** A name is its stem followed by its suffix. *)
Lemma rsplit_dot_spec (s a b : string) :
  PurePath.rsplit_dot s = Some (a, b) -> s = (a ++ String "."%char b)%string.
Proof.
  revert a b; induction s as [|c s IH]; simpl; intros a b H; [discriminate|].
  destruct (PurePath.rsplit_dot s) as [[a' b']|].
  - inversion H; subst. simpl. f_equal. apply IH; reflexivity.
  - destruct (Ascii.eqb c ".") eqn:E; [|discriminate].
    inversion H; subst. apply Ascii.eqb_eq in E; subst. reflexivity.
Qed.

Lemma stem_suffix (nm : string) :
  nm = (PurePath.stem_of nm ++ PurePath.suffix_of nm)%string.
Proof.
  unfold PurePath.stem_of, PurePath.suffix_of, PurePath.split_ext.
  destruct (PurePath.rsplit_dot nm) as [[a b]|] eqn:E.
  - destruct (PurePath.nonempty a && PurePath.nonempty b).
    + apply rsplit_dot_spec; assumption.
    + clear. induction nm; simpl; congruence.
  - clear. induction nm; simpl; congruence.
Qed.

Lemma numbered_not_name (item : Path) (j : nat) :
  numbered item j <> PurePath.name item.
Proof.
  unfold numbered, PurePath.stem, PurePath.suffix. intros H.
  rewrite (stem_suffix (PurePath.name item)) in H at 3.
  apply append_inv_head in H.
  apply (f_equal String.length) in H. simpl in H.
  rewrite append_length in H. lia.
Qed.

Lemma child_inj (d : Path) (a b : string) :
  PurePath.child d a = PurePath.child d b -> a = b.
Proof.
  unfold PurePath.child. intros H. apply app_inv_head in H. congruence.
Qed.

Lemma candidate_inj (item target_dir : Path) (i j : nat) :
  candidate item target_dir i = candidate item target_dir j -> i = j.
Proof.
  unfold candidate. intros H. apply child_inj in H.
  destruct i, j; auto.
  - symmetry in H. apply numbered_not_name in H; contradiction.
  - apply numbered_not_name in H; contradiction.
  - apply numbered_inj in H; assumption.
Qed.

(** Among the first [length s + 1] candidates one is free: they are
    distinct, and [s] has only [length s] paths. *)
Lemma free_candidate_exists (item target_dir : Path) (s : fs) :
  exists k, k <= List.length s /\
            lookup s (candidate item target_dir k) = None /\
            forall j, j < k -> lookup s (candidate item target_dir j) <> None.
Proof.
  assert (forall n,
    (exists k, k < n /\ lookup s (candidate item target_dir k) = None /\
               forall j, j < k -> lookup s (candidate item target_dir j) <> None)
    \/ (forall j, j < n -> lookup s (candidate item target_dir j) <> None)) as Hsearch.
  { induction n as [|n [IH|IH]].
    - right; intros j Hj; lia.
    - left. destruct IH as (k & Hk & H1 & H2). exists k; repeat split; auto.
    - destruct (lookup s (candidate item target_dir n)) eqn:E.
      + right. intros j Hj. assert (j = n \/ j < n) as [->|Hlt] by lia.
        * congruence.
        * apply IH; assumption.
      + left. exists n; repeat split; auto. }
  destruct (Hsearch (S (List.length s))) as [(k & Hk & H1 & H2)|Hall].
  - exists k; repeat split; auto. lia.
  - exfalso.
    set (cs := map (candidate item target_dir) (seq 0 (S (List.length s)))).
    assert (NoDup cs) as Hnd.
    { apply Injective_map_NoDup; [|apply seq_NoDup].
      intros i j; apply candidate_inj. }
    assert (incl cs (keys s)) as Hincl.
    { intros p Hp. apply in_map_iff in Hp. destruct Hp as (j & <- & Hj).
      apply in_seq in Hj.
      destruct (lookup s (candidate item target_dir j)) as [n|] eqn:E.
      - apply lookup_In in E. apply (in_map fst) in E. exact E.
      - exfalso. apply (Hall j); [lia | assumption]. }
    apply NoDup_incl_length in Hincl; [|assumption].
    unfold cs, keys in Hincl. rewrite !length_map, length_seq in Hincl. lia.
Qed.

Lemma path_exists_spec (p : Path) (w : world) :
  path_exists p w =
  (Val (match lookup (files w) p with Some _ => true | None => false end), w).
Proof. reflexivity. Qed.

(** The loop stops at the first free candidate, when it is given the
    budget to reach it. *)
Lemma while_exists_spec (item target_dir : Path) (w : world) (k : nat) :
  lookup (files w) (candidate item target_dir k) = None ->
  forall fuel j,
    j <= k -> k < j + fuel ->
    (forall i, j <= i -> i < k -> lookup (files w) (candidate item target_dir i) <> None) ->
    while_exists fuel target_dir item (candidate item target_dir j) (S j) w
    = (Val (candidate item target_dir k), w).
Proof.
  intros Hfree. induction fuel as [|fuel IH]; intros j Hjk Hfuel Hbusy; [lia|].
  simpl. unfold bind. rewrite path_exists_spec.
  destruct (lookup (files w) (candidate item target_dir j)) as [n|] eqn:E.
  - assert (j <> k) by (intros ->; congruence).
    apply (IH (S j)); try lia. intros i Hi1 Hi2. apply Hbusy; lia.
  - assert (j = k \/ j < k) as [->|Hlt] by lia; [reflexivity|].
    exfalso. apply (Hbusy j); auto.
Qed.

(** What [shutil.move] does to a regular file and a free destination:
    it moves the file, or it raises and leaves the file where it was,
    with or without a copy at the destination. *)
Lemma shutil_move_spec (src dst : Path) (w : world) (f : file) :
  lookup (files w) src = Some (File f) ->
  lookup (files w) dst = None ->
  exists r w',
    shutil_move src dst w = (r, w') /\
    (forall q, q <> src -> q <> dst -> lookup (files w') q = lookup (files w) q) /\
    match r with
    | Val _ => lookup (files w') dst = Some (File f) /\ lookup (files w') src = None
    | Exc _ => lookup (files w') src = Some (File f) /\
               (lookup (files w') dst = None \/ lookup (files w') dst = Some (File f))
    | Fuel => False
    end.
Proof.
  intros Hsrc Hdst.
  assert (src <> dst) as Hne by (intros ->; congruence).
  unfold shutil_move, try_except, os_rename. mred. rewrite Hsrc.
  destruct (lookup (files w) (PurePath.parent dst)) as [[g|b]|] eqn:Ep.
  - (* the parent of the destination is a file *)
    unfold copy2. mred. rewrite Hsrc.
    destruct (readable f); simpl; [rewrite Ep|];
      (eexists; eexists; split; [reflexivity|]; split; auto).
  - destruct (dir_writable (files w) (PurePath.parent src) &&
              dir_writable (files w) (PurePath.parent dst)) eqn:Ew; simpl.
    + (* the rename goes through *)
      eexists; eexists; split; [reflexivity|]. simpl. split; [|split].
      * intros q Hq1 Hq2. rewrite lookup_add.
        rewrite !lookup_remove_neq by assumption.
        destruct (lookup (files w) q); auto.
        assert (PurePath.eqb dst q = false) as -> by (apply path_eqb_neq; congruence).
        reflexivity.
      * rewrite lookup_add, lookup_remove_eq, path_eqb_refl. reflexivity.
      * rewrite lookup_add, lookup_remove_neq by assumption.
        rewrite lookup_remove_eq.
        assert (PurePath.eqb dst src = false) as -> by (apply path_eqb_neq; congruence).
        reflexivity.
    + (* the rename fails: copy, then unlink *)
      unfold copy2. mred. rewrite Hsrc.
      destruct (readable f); simpl.
      * rewrite Ep. destruct b; simpl.
        -- unfold unlink. mred.
           rewrite lookup_add, lookup_remove_neq, Hsrc by assumption.
           assert (dir_writable (files w) (PurePath.parent dst) = true) as Hd
             by (unfold dir_writable; rewrite Ep; reflexivity).
           rewrite Hd, andb_true_r in Ew.
           assert (dir_writable (add dst (File f) (remove dst (files w)))
                     (PurePath.parent src) = false) as ->.
           { unfold dir_writable in *. rewrite lookup_add.
             destruct (PurePath.eqb (PurePath.parent src) dst) eqn:E.
             - apply path_eqb_eq in E. rewrite E, lookup_remove_eq, path_eqb_refl.
               reflexivity.
             - apply path_eqb_neq in E. rewrite lookup_remove_neq by assumption.
               destruct (lookup (files w) (PurePath.parent src)) as [[?|[|]]|]; auto;
                 try discriminate.
               rewrite path_eqb_sym.
               assert (PurePath.eqb (PurePath.parent src) dst = false) as ->
                   by (apply path_eqb_neq; assumption).
               reflexivity. }
           simpl. eexists; eexists; split; [reflexivity|]. simpl. split; [|split].
           ++ intros q Hq1 Hq2. rewrite lookup_add, lookup_remove_neq by assumption.
              destruct (lookup (files w) q); auto.
              assert (PurePath.eqb dst q = false) as -> by (apply path_eqb_neq; congruence).
              reflexivity.
           ++ rewrite lookup_add, lookup_remove_neq, Hsrc by assumption. reflexivity.
           ++ right. rewrite lookup_add, lookup_remove_eq, path_eqb_refl. reflexivity.
        -- eexists; eexists; split; [reflexivity|]; split; auto.
      * eexists; eexists; split; [reflexivity|]; split; auto.
  - unfold copy2. mred. rewrite Hsrc.
    destruct (readable f); simpl; [rewrite Ep|];
      (eexists; eexists; split; [reflexivity|]; split; auto).
Qed.

(** C7.  Moving [item] into [target_dir] tries the item's own name and
    then the names numbered 1, 2, ... (the number stands between stem
    and suffix), and takes the first one that is free, however many are
    taken.  The move touches no path but the item and that free name:
    a file that had the item's name in [target_dir] is there afterwards
    as it was, and after a successful move the item, content and time
    unchanged, stands beside it under the new name. *)
Theorem move_into_never_overwrites (item target_dir : Path) (w : world) (f : file) :
  lookup (files w) item = Some (File f) ->
  exists k r w',
    move_into item target_dir w = (r, w') /\
    lookup (files w) (candidate item target_dir k) = None /\
    (forall j, j < k -> lookup (files w) (candidate item target_dir j) <> None) /\
    (forall q, q <> item -> q <> candidate item target_dir k ->
               lookup (files w') q = lookup (files w) q) /\
    (forall n0, lookup (files w) (candidate item target_dir 0) = Some n0 ->
                item <> candidate item target_dir 0 ->
                1 <= k /\
                candidate item target_dir k
                = PurePath.child target_dir (numbered item k) /\
                lookup (files w') (candidate item target_dir 0) = Some n0) /\
    match r with
    | Val target_path =>
        target_path = candidate item target_dir k /\
        lookup (files w') target_path = Some (File f) /\
        lookup (files w') item = None
    | Exc _ =>
        lookup (files w') item = Some (File f) /\
        (lookup (files w') (candidate item target_dir k) = None \/
         lookup (files w') (candidate item target_dir k) = Some (File f))
    | Fuel => False
    end.
Proof.
  intros Hitem.
  destruct (free_candidate_exists item target_dir (files w)) as (k & Hk & Hfree & Hbusy).
  destruct (shutil_move_spec item (candidate item target_dir k) w f Hitem Hfree)
    as (r & w' & Hmove & Hframe & Hres).
  exists k.
  assert (while_exists (S (List.length (files w))) target_dir item
            (PurePath.child target_dir (PurePath.name item)) 1 w
          = (Val (candidate item target_dir k), w)) as Hloop.
  { apply (while_exists_spec item target_dir w k Hfree (S (List.length (files w))) 0);
      try lia. intros i _ Hi. apply Hbusy; assumption. }
  assert (forall n0, lookup (files w) (candidate item target_dir 0) = Some n0 ->
            1 <= k /\
            candidate item target_dir k = PurePath.child target_dir (numbered item k))
    as Hk1.
  { intros n0 H0. destruct k; [congruence|]. split; [lia | reflexivity]. }
  unfold move_into. mred. rewrite Hloop, Hmove.
  destruct r as [u|e|]; [| |contradiction].
  - exists (Val (candidate item target_dir k)), w'.
    repeat split; auto; try tauto; try (apply (Hk1 n0); assumption).
    rewrite Hframe; auto.
    intros E. apply candidate_inj in E.
    destruct (Hk1 n0 H) as [? _]. lia.
  - exists (Exc e), w'.
    repeat split; auto; try tauto; try (apply (Hk1 n0); assumption).
    rewrite Hframe; auto.
    intros E. apply candidate_inj in E.
    destruct (Hk1 n0 H) as [? _]. lia.
Qed.

(** With [a.png] and [a_1.png] taken, the picture arrives as
    [a_2.png]. *)
Lemma move_into_never_overwrites_witness :
  lookup (files (boot tree_collision)) ["dl"; "a.png"]%string
  = Some (File (plain_file "new picture" (day 738002))) /\
  fst (move_into ["dl"; "a.png"]%string ["dl"; "Images"]%string (boot tree_collision))
  = Val ["dl"; "Images"; "a_2.png"]%string /\
  exists k r w',
    move_into ["dl"; "a.png"]%string ["dl"; "Images"]%string (boot tree_collision)
    = (r, w') /\
    lookup (files w') (candidate ["dl"; "a.png"]%string ["dl"; "Images"]%string 0)
    = Some (plain "picture" (day 738000)) /\
    lookup (files (boot tree_collision))
      (candidate ["dl"; "a.png"]%string ["dl"; "Images"]%string k) = None.
Proof.
  split; [reflexivity|]. split; [vm_compute; reflexivity|].
  destruct (move_into_never_overwrites ["dl"; "a.png"]%string ["dl"; "Images"]%string
              (boot tree_collision) (plain_file "new picture" (day 738002))
              eq_refl)
    as (k & r & w' & Hrun & Hfree & _ & _ & Hold & _).
  exists k, r, w'. split; [exact Hrun|]. split; [|exact Hfree].
  apply (Hold (plain "picture" (day 738000))); [reflexivity | discriminate].
Defined.

(* ================================================================== *)
(** ** Pruned file systems *)
(* ================================================================== *)

Lemma within_refl (d : Path) : within d d.
Proof. exists []. rewrite app_nil_r. reflexivity. Qed.

Lemma within_child (d p : Path) :
  p <> [] -> PurePath.parent p = d -> forall q, within p q -> within d q.
Proof.
  intros Hp Hd q [r ->]. rewrite <- (child_parent_name p Hp), Hd.
  unfold PurePath.child. rewrite <- app_assoc. eexists; reflexivity.
Qed.

Lemma below_child (d p : Path) : p <> [] -> PurePath.parent p = d -> below d p.
Proof.
  intros Hp Hd. exists [PurePath.name p]. split; [discriminate|].
  rewrite <- Hd. symmetry. apply child_parent_name; assumption.
Qed.

Lemma below_within (d p : Path) : below d p -> within d p.
Proof. intros (r & _ & ->). exists r; reflexivity. Qed.

Lemma within_below_trans (a b c : Path) : within a b -> below b c -> below a c.
Proof.
  intros [r ->] (r' & Hr' & ->). exists (r ++ r'). split.
  - destruct r; simpl; [assumption | discriminate].
  - rewrite app_assoc; reflexivity.
Qed.

Lemma within_same_length (c c' q : Path) :
  List.length c = List.length c' -> within c q -> within c' q -> c = c'.
Proof.
  intros Hlen [r ->] [r' H].
  apply (f_equal (firstn (List.length c))) in H.
  rewrite firstn_app, firstn_all, Nat.sub_diag in H. simpl in H.
  rewrite app_nil_r in H. rewrite Hlen in H.
  rewrite firstn_app, firstn_all, Nat.sub_diag in H. simpl in H.
  rewrite app_nil_r in H. exact H.
Qed.

Lemma mem_In (p : Path) (D : list Path) :
  existsb (PurePath.eqb p) D = true <-> In p D.
Proof.
  rewrite existsb_exists. split.
  - intros (q & Hq & E). apply path_eqb_eq in E; subst; assumption.
  - intros H. exists p. split; [assumption | apply path_eqb_refl].
Qed.

Lemma mem_not_In (p : Path) (D : list Path) :
  existsb (PurePath.eqb p) D = false <-> ~ In p D.
Proof.
  rewrite <- mem_In. destruct (existsb (PurePath.eqb p) D); split; congruence.
Qed.

Lemma remove_prune (p : Path) (s : fs) : remove p s = prune [p] s.
Proof.
  unfold remove, prune. apply filter_ext. intros e. simpl.
  rewrite orb_false_r. reflexivity.
Qed.

Lemma prune_nil (s : fs) : prune [] s = s.
Proof.
  unfold prune. simpl. induction s as [|e s IH]; simpl; congruence.
Qed.

Lemma prune_prune (D D' : list Path) (s : fs) :
  prune D' (prune D s) = prune (D ++ D') s.
Proof.
  unfold prune. induction s as [|e s IH]; simpl; auto.
  rewrite existsb_app.
  destruct (existsb (PurePath.eqb (fst e)) D); simpl; auto.
  destruct (existsb (PurePath.eqb (fst e)) D'); simpl; congruence.
Qed.

Lemma lookup_prune (D : list Path) (s : fs) (q : Path) :
  lookup (prune D s) q =
  if existsb (PurePath.eqb q) D then None else lookup s q.
Proof.
  unfold lookup, prune. induction s as [|[r n] s IH]; simpl.
  - destruct (existsb _ D); reflexivity.
  - destruct (PurePath.eqb r q) eqn:E.
    + apply path_eqb_eq in E; subst r.
      destruct (existsb (PurePath.eqb q) D) eqn:ED; simpl.
      * rewrite IH. reflexivity.
      * rewrite path_eqb_refl. reflexivity.
    + destruct (existsb (PurePath.eqb r) D); simpl; [exact IH|].
      rewrite E. exact IH.
Qed.

Lemma unique_paths_prune (D : list Path) (s : fs) :
  unique_paths s -> unique_paths (prune D s).
Proof.
  unfold unique_paths, keys, prune. induction s as [|e s IH]; simpl; auto.
  intros H. inversion H as [|? ? Hn Hs]; subst.
  destruct (existsb _ D); simpl; auto.
  constructor; auto. intros Hin. apply Hn.
  apply in_map_iff in Hin. destruct Hin as (e' & <- & He').
  apply filter_In in He'. apply in_map. tauto.
Qed.

Lemma pruned_by_refl (Pd : Path -> Prop) (s : fs) : pruned_by Pd s s.
Proof. exists []. split; [symmetry; apply prune_nil | constructor]. Qed.

Lemma pruned_by_weaken (Pd Pd' : Path -> Prop) (s s' : fs) :
  (forall d, Pd d -> Pd' d) -> pruned_by Pd s s' -> pruned_by Pd' s s'.
Proof.
  intros Himp (D & -> & HD). exists D. split; auto.
  eapply Forall_impl; [|exact HD]. simpl. intros p (H1 & H2 & H3). auto.
Qed.

Lemma pruned_by_trans (Pd : Path -> Prop) (s s' s'' : fs) :
  pruned_by Pd s s' -> pruned_by Pd s' s'' -> pruned_by Pd s s''.
Proof.
  intros (D & -> & HD) (D' & -> & HD'). exists (D ++ D').
  split; [apply prune_prune|]. apply Forall_app. split; auto.
  eapply Forall_impl; [|exact HD']. simpl. intros p (H1 & H2 & f & H3).
  repeat split; auto. exists f. rewrite lookup_prune in H3.
  destruct (existsb _ D); [discriminate | assumption].
Qed.

Lemma pruned_by_remove (Pd : Path -> Prop) (s : fs) (p : Path) (f : file) :
  p <> [] -> Pd (PurePath.parent p) -> lookup s p = Some (File f) ->
  pruned_by Pd s (remove p s).
Proof.
  intros H1 H2 H3. exists [p]. split; [apply remove_prune|].
  constructor; [|constructor]. eauto.
Qed.

Lemma pruned_by_unique (Pd : Path -> Prop) (s s' : fs) :
  pruned_by Pd s s' -> unique_paths s -> unique_paths s'.
Proof. intros (D & -> & _). apply unique_paths_prune. Qed.

(** Directories stay. *)
Lemma pruned_by_dir (Pd : Path -> Prop) (s s' : fs) (c : Path) (b : bool) :
  pruned_by Pd s s' -> lookup s c = Some (Dir b) -> lookup s' c = Some (Dir b).
Proof.
  intros (D & -> & HD) Hc. rewrite lookup_prune.
  destruct (existsb (PurePath.eqb c) D) eqn:E; [|assumption].
  apply mem_In in E. rewrite Forall_forall in HD.
  destruct (HD c E) as (_ & _ & f & Hf). congruence.
Qed.

Lemma pruned_by_dir_inv (Pd : Path -> Prop) (s s' : fs) (c : Path) (b : bool) :
  pruned_by Pd s s' -> lookup s' c = Some (Dir b) -> lookup s c = Some (Dir b).
Proof.
  intros (D & -> & HD) Hc. rewrite lookup_prune in Hc.
  destruct (existsb (PurePath.eqb c) D); [discriminate | assumption].
Qed.

Lemma children_prune (D : list Path) (s : fs) (d : Path) :
  children (prune D s) d =
  filter (fun e => negb (existsb (PurePath.eqb (fst e)) D)) (children s d).
Proof.
  unfold children, prune. induction s as [|e s IH]; simpl; auto.
  destruct (existsb (PurePath.eqb (fst e)) D) eqn:E1;
    destruct (is_child d (fst e)) eqn:E2;
    simpl; rewrite ?E1, ?E2; simpl; congruence.
Qed.

Lemma children_spec (s : fs) (d : Path) (e : Path * node) :
  In e (children s d) <-> In e s /\ fst e <> [] /\ PurePath.parent (fst e) = d.
Proof.
  unfold children, is_child. rewrite filter_In.
  split; intros [H1 H2]; split; auto.
  - destruct (fst e) eqn:E; [discriminate|]. split; [discriminate|].
    apply path_eqb_eq; assumption.
  - destruct H2 as [H2 H3]. destruct (fst e) eqn:E; [congruence|].
    apply path_eqb_eq; assumption.
Qed.

Lemma listdir_spec (s : fs) (d p : Path) (b : bool) :
  In (p, b) (listdir s d) ->
  p <> [] /\ PurePath.parent p = d /\ (exists n, In (p, n) s) /\
  b = match lookup s p with Some (Dir _) => true | _ => false end.
Proof.
  unfold listdir. intros H. apply in_map_iff in H.
  destruct H as ([q n] & E & Hin). simpl in E. inversion E; subst.
  apply children_spec in Hin. simpl in Hin. destruct Hin as (H1 & H2 & H3).
  repeat split; eauto.
Qed.

(** The listing of a directory none of the removed files was in. *)
Lemma listdir_pruned (Pd : Path -> Prop) (s s' : fs) (d : Path) :
  pruned_by Pd s s' -> ~ Pd d -> listdir s' d = listdir s d.
Proof.
  intros (D & -> & HD) Hd. unfold listdir. rewrite children_prune.
  assert (forall e, In e (children s d) -> ~ In (fst e) D) as Hout.
  { intros e He Hin. apply children_spec in He. destruct He as (_ & _ & Hp).
    rewrite Forall_forall in HD. destruct (HD _ Hin) as (_ & HPd & _).
    rewrite Hp in HPd. contradiction. }
  induction (children s d) as [|e l IH]; simpl; auto.
  assert (existsb (PurePath.eqb (fst e)) D = false) as E
    by (apply mem_not_In, Hout; left; reflexivity).
  rewrite E. simpl. rewrite lookup_prune, E. f_equal.
  apply IH. intros e' He'. apply Hout. right; assumption.
Qed.

(** The subdirectories of any directory. *)
Lemma subdirs_pruned (Pd : Path -> Prop) (s s' : fs) (d : Path) :
  pruned_by Pd s s' ->
  filter snd (listdir s' d) = filter snd (listdir s d).
Proof.
  intros (D & -> & HD). unfold listdir. rewrite children_prune.
  induction (children s d) as [|e l IH]; simpl; auto.
  destruct (existsb (PurePath.eqb (fst e)) D) eqn:E; simpl.
  - apply mem_In in E. rewrite Forall_forall in HD.
    destruct (HD _ E) as (_ & _ & f & Hf). rewrite Hf. exact IH.
  - rewrite lookup_prune, E.
    destruct (lookup s (fst e)) as [[?|?]|]; simpl; congruence.
Qed.

Lemma dir_writable_prune (D : list Path) (s : fs) (d : Path) :
  Forall (fun p => exists f, lookup s p = Some (File f)) D ->
  dir_writable (prune D s) d = dir_writable s d.
Proof.
  intros HD. unfold dir_writable. rewrite lookup_prune.
  destruct (existsb (PurePath.eqb d) D) eqn:E; [|reflexivity].
  apply mem_In in E. rewrite Forall_forall in HD.
  destruct (HD d E) as [f ->]. reflexivity.
Qed.

(* ================================================================== *)
(** ** The walk on a file system that only loses visited files *)
(* ================================================================== *)

Lemma collect_ext_in (f g : Path -> option (list Path)) (cs : list Path) :
  (forall c, In c cs -> f c = g c) -> collect f cs = collect g cs.
Proof.
  induction cs as [|c cs IH]; simpl; intros H; auto.
  rewrite (H c), IH; auto.
Qed.

Lemma listdir_child (s : fs) (d c : Path) :
  In c (map fst (listdir s d)) -> c <> [] /\ PurePath.parent c = d.
Proof.
  intros H. apply in_map_iff in H. destruct H as ([p b] & <- & Hin).
  apply listdir_spec in Hin. simpl. tauto.
Qed.

Lemma subdir_child (s : fs) (d c : Path) :
  In c (map fst (filter snd (listdir s d))) ->
  c <> [] /\ PurePath.parent c = d /\ exists b, lookup s c = Some (Dir b).
Proof.
  intros H. apply in_map_iff in H. destruct H as ([p b] & <- & Hin).
  apply filter_In in Hin. destruct Hin as [Hin Hb]. simpl in Hb. subst b.
  apply listdir_spec in Hin. simpl. destruct Hin as (H1 & H2 & _ & H4).
  repeat split; auto.
  destruct (lookup s p) as [[?|b]|]; try discriminate. eauto.
Qed.

(** The walk does not look at what was removed elsewhere. *)
Lemma rglob_list_pruned (Pd : Path -> Prop) (s s' : fs) :
  pruned_by Pd s s' ->
  forall k c, (forall d, within c d -> ~ Pd d) ->
              rglob_list k s' c = rglob_list k s c.
Proof.
  intros Hpr. induction k as [|k IH]; intros c Hc; simpl; auto.
  destruct (lookup s c) as [[f|b]|] eqn:E.
  - destruct Hpr as (D & -> & HD). rewrite lookup_prune, E.
    destruct (existsb _ D); reflexivity.
  - rewrite (pruned_by_dir _ _ _ _ _ Hpr E).
    rewrite (listdir_pruned _ _ _ _ Hpr (Hc c (within_refl c))).
    erewrite collect_ext_in; [reflexivity|].
    intros c' Hc'. apply IH.
    apply subdir_child in Hc'. destruct Hc' as (H1 & H2 & _).
    intros d Hd. apply Hc. apply (within_child c c' H1 H2). assumption.
  - destruct Hpr as (D & -> & HD). rewrite lookup_prune, E.
    destruct (existsb _ D); reflexivity.
Qed.

Lemma collect_Forall (P : Path -> Prop) (f : Path -> option (list Path))
  (cs : list Path) (ls : list Path) :
  (forall c l, In c cs -> f c = Some l -> Forall P l) ->
  collect f cs = Some ls -> Forall P ls.
Proof.
  revert ls; induction cs as [|c cs IH]; simpl; intros ls Hf H.
  - inversion H; constructor.
  - destruct (f c) as [l|] eqn:E; [|discriminate].
    destruct (collect f cs) as [ls'|]; [|discriminate].
    inversion H; subst. apply Forall_app. split; eauto.
Qed.

(** Every item of a walk of [d] is an entry of [d] or of a directory
    below it. *)
Lemma rglob_list_parents (s : fs) :
  forall k d l, rglob_list k s d = Some l ->
                Forall (fun p => p <> [] /\ within d (PurePath.parent p)) l.
Proof.
  induction k as [|k IH]; intros d l H; simpl in H; [discriminate|].
  destruct (lookup s d) as [[f|b]|]; try discriminate.
  destruct (collect _ _) as [ls|] eqn:E; [|discriminate].
  inversion H; subst. apply Forall_app. split.
  - apply Forall_forall. intros p Hp. apply listdir_child in Hp.
    destruct Hp as [H1 H2]. split; auto. rewrite H2. apply within_refl.
  - eapply collect_Forall; [|exact E]. intros c l Hc Hl. simpl.
    apply IH in Hl. eapply Forall_impl; [|exact Hl]. simpl.
    intros p [H1 H2]. split; auto.
    apply subdir_child in Hc. destruct Hc as (Hc1 & Hc2 & _).
    apply (within_child d c Hc1 Hc2). assumption.
Qed.

Lemma scandir_dir (d : Path) (w : world) (b : bool) :
  lookup (files w) d = Some (Dir b) ->
  scandir d w = (Val (listdir (files w) d), w).
Proof. intros H. unfold scandir. mred. rewrite H. reflexivity. Qed.

Section Walk.

Context {A : Type} (body : Path -> A -> M A).
Hypothesis body_tidy : tidy body.

Lemma visit_pruned (Pd : Path -> Prop) (p : Path) (st : list Path * A) (w : world) :
  p <> [] -> Pd (PurePath.parent p) ->
  pruned_by Pd (files w) (files (snd (visit body p st w))).
Proof.
  intros H1 H2. unfold visit.
  destruct (existsb (PurePath.eqb p) (fst st)); simpl; [apply pruned_by_refl|].
  unfold bind. pose proof (body_tidy p (snd st) w) as Ht.
  destruct (body p (snd st) w) as [[a|e|] w']; simpl in *;
    (destruct Ht as [-> | (f & Hf & ->)];
     [apply pruned_by_refl | eapply pruned_by_remove; eauto]).
Qed.

Lemma for_each_visit_pruned (Pd : Path -> Prop) (l : list Path) :
  Forall (fun p => p <> [] /\ Pd (PurePath.parent p)) l ->
  forall st w, pruned_by Pd (files w) (files (snd (for_each (visit body) l st w))).
Proof.
  induction 1 as [|p l [H1 H2] Hl IH]; intros st w; simpl.
  - apply pruned_by_refl.
  - unfold bind. pose proof (visit_pruned Pd p st w H1 H2) as Hv.
    destruct (visit body p st w) as [[st'|e|] w']; simpl in *; auto.
    eapply pruned_by_trans; [exact Hv | apply IH].
Qed.

Lemma NoDup_map_fst_filter {X Y} (g : X * Y -> bool) (l : list (X * Y)) :
  NoDup (map fst l) -> NoDup (map fst (filter g l)).
Proof.
  induction l as [|e l IH]; simpl; intros H; [constructor|].
  inversion H as [|? ? Hn Hl]; subst.
  destruct (g e); simpl; auto. constructor; auto.
  intros Hin. apply Hn. apply in_map_iff in Hin.
  destruct Hin as (e' & <- & He'). apply filter_In in He'.
  apply in_map. tauto.
Qed.

Lemma NoDup_listdir (s : fs) (d : Path) :
  unique_paths s -> NoDup (map fst (listdir s d)).
Proof.
  intros H. unfold listdir. rewrite map_map. simpl.
  apply NoDup_map_fst_filter. exact H.
Qed.

Lemma NoDup_subdirs (s : fs) (d : Path) :
  unique_paths s -> NoDup (map fst (filter snd (listdir s d))).
Proof.
  intros H. apply NoDup_map_fst_filter. apply NoDup_listdir. exact H.
Qed.

(** The walk of the subdirectories [cs] of one directory, once the
    walk of each is known to be a loop over its items. *)
Lemma for_each_subdirs (k : nat) (s0 : fs) (d : Path)
  (IHk : forall c l st w,
      unique_paths (files w) -> rglob_list k (files w) c = Some l ->
      rglob_from body k c st w = for_each (visit body) l st w) :
  forall cs ls st w,
    NoDup cs ->
    (forall c, In c cs -> c <> [] /\ PurePath.parent c = d) ->
    collect (rglob_list k s0) cs = Some ls ->
    unique_paths s0 ->
    pruned_by (fun q => forall c, In c cs -> ~ within c q) s0 (files w) ->
    for_each (rglob_from body k) cs st w = for_each (visit body) ls st w.
Proof.
  induction cs as [|c cs IH]; intros ls st w Hnd Hcs Hcol Hu Hpr; simpl in *.
  - inversion Hcol; reflexivity.
  - destruct (rglob_list k s0 c) as [l|] eqn:El; [|discriminate].
    destruct (collect (rglob_list k s0) cs) as [ls'|] eqn:Els; [|discriminate].
    inversion Hcol; subst ls. clear Hcol.
    inversion Hnd as [|? ? Hnin Hnd']; subst.
    assert (rglob_list k (files w) c = Some l) as El'.
    { rewrite <- El. eapply rglob_list_pruned; [exact Hpr|].
      intros q Hq Hno. apply (Hno c); auto. }
    rewrite for_each_app. unfold bind.
    rewrite (IHk c l st w (pruned_by_unique _ _ _ Hpr Hu) El').
    pose proof (for_each_visit_pruned (fun q => within c q) l) as Hstep.
    specialize (Hstep (ltac:(
      apply rglob_list_parents in El'; exact El')) st w).
    destruct (for_each (visit body) l st w) as [[st'|e|] w'] eqn:Ew; auto.
    simpl in Hstep. apply IH; auto.
    eapply pruned_by_trans.
    + eapply pruned_by_weaken; [|exact Hpr]. simpl. intros q Hq c' Hc'. auto.
    + eapply pruned_by_weaken; [|exact Hstep]. simpl.
      intros q Hq c' Hc' Hq'.
      assert (c = c') as <-.
      { apply (within_same_length c c' q); auto.
        destruct (Hcs c (or_introl eq_refl)) as [Ha Hb].
        destruct (Hcs c' (or_intror Hc')) as [Ha' Hb'].
        rewrite (length_parent c Ha), (length_parent c' Ha'), Hb, Hb'.
        reflexivity. }
      contradiction.
Qed.

(** On a file system without double entries, a walk with a tidy body
    is the loop over the items the walk would yield if nothing
    changed. *)
Lemma rglob_from_static :
  forall k d l st w,
    unique_paths (files w) -> rglob_list k (files w) d = Some l ->
    rglob_from body k d st w = for_each (visit body) l st w.
Proof.
  induction k as [|k IHk]; intros d l st w Hu Hl; simpl in Hl; [discriminate|].
  destruct (lookup (files w) d) as [[f|b]|] eqn:Ed; try discriminate.
  destruct (collect _ _) as [ls|] eqn:Els; [|discriminate].
  inversion Hl; subst l. clear Hl.
  simpl. unfold bind at 1. rewrite (scandir_dir d w b Ed).
  rewrite for_each_app. unfold bind.
  pose proof (for_each_visit_pruned (fun q => q = d)
                (map fst (listdir (files w) d))) as Hstep.
  specialize (Hstep (ltac:(
    apply Forall_forall; intros p Hp; apply listdir_child in Hp; tauto)) st w).
  destruct (for_each (visit body) (map fst (listdir (files w) d)) st w)
    as [[st'|e|] w'] eqn:Ew; auto.
  simpl in Hstep.
  rewrite (scandir_dir d w' b (pruned_by_dir _ _ _ _ _ Hstep Ed)).
  rewrite (subdirs_pruned _ _ _ d Hstep).
  apply (for_each_subdirs k (files w) d IHk); auto.
  - apply NoDup_subdirs; assumption.
  - intros c Hc. apply subdir_child in Hc. tauto.
  - eapply pruned_by_weaken; [|exact Hstep]. simpl.
    intros q -> c Hc [r Hr]. apply subdir_child in Hc.
    destruct Hc as (Hc1 & Hc2 & _).
    apply (f_equal (@List.length string)) in Hr.
    rewrite length_app, (length_parent c Hc1), Hc2 in Hr. lia.
Qed.

End Walk.

(* ================================================================== *)
(** ** The items of a walk *)
(* ================================================================== *)

Lemma collect_some (f : Path -> option (list Path)) (cs : list Path) :
  (forall c, In c cs -> exists l, f c = Some l) ->
  exists ls, collect f cs = Some ls.
Proof.
  induction cs as [|c cs IH]; simpl; intros H; [eauto|].
  destruct (H c (or_introl eq_refl)) as [l ->].
  destruct IH as [ls ->]; eauto.
Qed.

Lemma collect_In (f : Path -> option (list Path)) (cs : list Path)
  (ls l : list Path) (c : Path) :
  collect f cs = Some ls -> In c cs -> f c = Some l -> incl l ls.
Proof.
  revert ls; induction cs as [|c' cs IH]; simpl; intros ls H Hc Hl; [tauto|].
  destruct (f c') as [l'|] eqn:E; [|discriminate].
  destruct (collect f cs) as [ls'|]; [|discriminate].
  inversion H; subst. destruct Hc as [->|Hc].
  - rewrite Hl in E. inversion E; subst. apply incl_appl, incl_refl.
  - apply incl_appr. eapply IH; eauto.
Qed.

Lemma rglob_list_enough_sub (k : nat) (s : fs) (d c : Path) (ls : list Path) :
  collect (rglob_list k s) (map fst (filter snd (listdir s d))) = Some ls ->
  In c (map fst (filter snd (listdir s d))) ->
  exists lc, rglob_list k s c = Some lc.
Proof.
  generalize (map fst (filter snd (listdir s d))). intros cs.
  revert ls; induction cs as [|c' cs IH]; simpl; intros ls H Hc; [tauto|].
  destruct (rglob_list k s c') as [l'|] eqn:E; [|discriminate].
  destruct (collect (rglob_list k s) cs) as [ls'|]; [|discriminate].
  destruct Hc as [->|Hc]; eauto.
Qed.

(** The depth [walk_fuel] gives is enough for a tree that stands
    still. *)
Lemma rglob_list_enough (s : fs) :
  forall k d b, max_depth s < k + List.length d ->
                lookup s d = Some (Dir b) ->
                exists l, rglob_list k s d = Some l.
Proof.
  induction k as [|k IH]; intros d b Hk Hd.
  - apply lookup_In, max_depth_ge in Hd. simpl in Hk. lia.
  - simpl. rewrite Hd.
    destruct (collect_some (rglob_list k s)
                (map fst (filter snd (listdir s d)))) as [ls ->]; [|eauto].
    intros c Hc. apply subdir_child in Hc. destruct Hc as (H1 & H2 & b' & H3).
    apply (IH c b'); auto. rewrite (length_parent c H1), H2. lia.
Qed.

Lemma rglob_items_spec (s : fs) (root : Path) (b : bool) :
  lookup s root = Some (Dir b) ->
  rglob_list (walk_fuel s root) s root = Some (rglob_items s root).
Proof.
  intros H. unfold rglob_items.
  destruct (rglob_list_enough s (walk_fuel s root) root b) as [l ->]; auto.
  unfold walk_fuel. lia.
Qed.

(** Every entry of the tree below [d] is among the items. *)
Lemma rglob_list_complete (s : fs) :
  forall k d l rel,
    rglob_list k s d = Some l -> descends s d rel -> In (d ++ rel) l.
Proof.
  induction k as [|k IH]; intros d l rel Hl Hrel; simpl in Hl; [discriminate|].
  destruct (lookup s d) as [[f|b]|]; try discriminate.
  destruct (collect _ _) as [ls|] eqn:E; [|discriminate].
  inversion Hl; subst l. clear Hl. apply in_app_iff.
  destruct rel as [|x [|y rel']]; simpl in Hrel; [contradiction| |].
  - left. destruct Hrel as [n Hn]. apply lookup_In in Hn.
    unfold listdir. rewrite map_map. simpl.
    apply (in_map fst) in Hn as Hk. simpl in Hk.
    change (d ++ [x]) with (fst (d ++ [x], n)).
    apply in_map. apply children_spec. simpl. repeat split; auto.
    + destruct d; discriminate.
    + apply (parent_child d x).
  - right. destruct Hrel as [[b' Hc] Hrest].
    assert (In (d ++ [x]) (map fst (filter snd (listdir s d)))) as Hin.
    { apply lookup_In in Hc as Hc'.
      change (d ++ [x]) with (fst (d ++ [x], true)).
      apply in_map. apply filter_In. split; [|reflexivity].
      unfold listdir. apply in_map_iff. exists (d ++ [x], Dir b'). simpl.
      rewrite Hc. split; auto. apply children_spec. simpl. repeat split; auto.
      - destruct d; discriminate.
      - apply (parent_child d x). }
    destruct (rglob_list_enough_sub k s d (d ++ [x]) ls E Hin) as [lc Hlc].
    pose proof (IH (d ++ [x]) lc (y :: rel') Hlc Hrest) as Hgoal.
    rewrite <- app_assoc in Hgoal. simpl in Hgoal.
    eapply collect_In; eauto.
Qed.

Lemma NoDup_app_intro {X} (l l' : list X) :
  NoDup l -> NoDup l' -> (forall a, In a l -> ~ In a l') -> NoDup (l ++ l').
Proof.
  induction l as [|a l IH]; simpl; intros H1 H2 H3; auto.
  inversion H1; subst. constructor.
  - rewrite in_app_iff. intros [H|H]; [contradiction|]. eapply H3; eauto.
  - apply IH; auto.
Qed.

Lemma collect_NoDup (f : Path -> option (list Path)) :
  forall cs ls,
    NoDup cs ->
    (forall c l, In c cs -> f c = Some l -> NoDup l) ->
    (forall c c' l l' p, In c cs -> In c' cs -> c <> c' ->
                         f c = Some l -> f c' = Some l' -> In p l -> ~ In p l') ->
    collect f cs = Some ls -> NoDup ls.
Proof.
  induction cs as [|c cs IH]; simpl; intros ls Hnd H1 H2 H.
  - inversion H; constructor.
  - destruct (f c) as [l|] eqn:E; [|discriminate].
    destruct (collect f cs) as [ls'|] eqn:E'; [|discriminate].
    inversion H; subst. inversion Hnd as [|? ? Hn Hnd']; subst.
    apply NoDup_app_intro.
    + apply (H1 c l); auto.
    + apply (IH ls'); auto.
      * intros c0 l0 Hc0 Hl0. apply (H1 c0 l0); auto.
      * intros c0 c1 l0 l1 p Hc0 Hc1. apply (H2 c0 c1 l0 l1 p); auto.
    + intros p Hp Hp'.
      assert (exists c' l', In c' cs /\ f c' = Some l' /\ In p l')
        as (c' & l' & Hc' & El' & Hin).
      { clear - E' Hp'. revert ls' E' Hp'.
        induction cs as [|c0 cs IHcs]; simpl; intros ls' E' Hp'.
        - inversion E'; subst. contradiction.
        - destruct (f c0) as [l0|] eqn:E0; [|discriminate].
          destruct (collect f cs) as [ls0|]; [|discriminate].
          inversion E'; subst. apply in_app_iff in Hp'. destruct Hp' as [Hp'|Hp'].
          + exists c0, l0. auto.
          + destruct (IHcs ls0 eq_refl Hp') as (c' & l' & ? & ? & ?).
            exists c', l'. auto. }
      apply (H2 c c' l l' p); auto. intros ->. contradiction.
Qed.

Lemma rglob_list_NoDup (s : fs) :
  unique_paths s ->
  forall k d l, rglob_list k s d = Some l -> NoDup l.
Proof.
  intros Hu. induction k as [|k IH]; intros d l H; simpl in H; [discriminate|].
  destruct (lookup s d) as [[f|b]|]; try discriminate.
  destruct (collect _ _) as [ls|] eqn:E; [|discriminate].
  inversion H; subst l. clear H.
  apply NoDup_app_intro.
  - apply NoDup_listdir; assumption.
  - apply (collect_NoDup (rglob_list k s) (map fst (filter snd (listdir s d))) ls);
      [apply NoDup_subdirs; assumption | | | exact E].
    + intros c l _ Hl. eapply IH; eauto.
    + intros c c' l l' p Hc Hc' Hne Hl Hl' Hp Hp'.
      apply rglob_list_parents in Hl, Hl'. rewrite Forall_forall in Hl, Hl'.
      destruct (Hl p Hp) as [_ Hw]. destruct (Hl' p Hp') as [_ Hw'].
      apply Hne. apply (within_same_length c c' (PurePath.parent p)); auto.
      apply subdir_child in Hc, Hc'.
      destruct Hc as (Ha & Hb & _). destruct Hc' as (Ha' & Hb' & _).
      rewrite (length_parent c Ha), (length_parent c' Ha'), Hb, Hb'. reflexivity.
  - intros p Hp Hp'. apply listdir_child in Hp. destruct Hp as [Hp1 Hp2].
    assert (Forall (fun q => List.length d < List.length (PurePath.parent q)) ls) as HF.
    { apply (collect_Forall _ (rglob_list k s)
               (map fst (filter snd (listdir s d))) ls); [|exact E].
      intros c l Hc Hl.
      apply rglob_list_parents in Hl. eapply Forall_impl; [|exact Hl]. simpl.
      intros q [_ [r Hr]]. rewrite Hr, length_app.
      apply subdir_child in Hc. destruct Hc as (Ha & Hb & _).
      rewrite (length_parent c Ha), Hb. lia. }
    rewrite Forall_forall in HF. specialize (HF p Hp'). rewrite Hp2 in HF. lia.
Qed.

Lemma rglob_items_NoDup (s : fs) (root : Path) :
  unique_paths s -> NoDup (rglob_items s root).
Proof.
  intros Hu. unfold rglob_items.
  destruct (rglob_list _ s root) as [l|] eqn:E; [|constructor].
  eapply rglob_list_NoDup; eauto.
Qed.

(** Every item lies below the root of the walk. *)
Lemma rglob_items_below (s : fs) (root p : Path) :
  In p (rglob_items s root) -> below root p.
Proof.
  unfold rglob_items.
  destruct (rglob_list _ s root) as [l|] eqn:E; [|simpl; tauto].
  intros Hp. apply rglob_list_parents in E. rewrite Forall_forall in E.
  destruct (E p Hp) as [H1 H2].
  eapply within_below_trans; [exact H2|]. apply below_child; auto.
Qed.

Lemma rglob_items_complete (s : fs) (root : Path) (b : bool) (rel : list string) :
  lookup s root = Some (Dir b) -> descends s root rel ->
  In (root ++ rel) (rglob_items s root).
Proof.
  intros Hroot Hrel. eapply rglob_list_complete; eauto.
  eapply rglob_items_spec; eauto.
Qed.

(** Without repeated items the filter on what was yielded lets every
    item through. *)
Lemma for_each_visit_NoDup {A} (body : Path -> A -> M A) :
  forall l y acc w,
    NoDup l -> (forall p, In p l -> ~ In p y) ->
    for_each (visit body) l (y, acc) w =
    (a <- for_each body l acc ;; ret (List.rev l ++ y, a)) w.
Proof.
  induction l as [|p l IH]; intros y acc w Hnd Hy; simpl.
  - reflexivity.
  - inversion Hnd as [|? ? Hn Hnd']; subst.
    unfold visit at 1. simpl.
    assert (existsb (PurePath.eqb p) y = false) as ->
        by (apply mem_not_In, Hy; left; reflexivity).
    unfold bind, ret in *. destruct (body p acc w) as [[a|e|] w']; auto.
    rewrite IH; auto.
    + destruct (for_each body l a w') as [[a'|e|] w'']; auto.
      rewrite <- app_assoc. reflexivity.
    + intros q Hq [<-|Hq']; [contradiction|]. eapply Hy; eauto. right; auto.
Qed.

(** The loop [for item in root.rglob('*')], for a tidy body on a file
    system without double entries, is the loop over the items there
    are when it starts. *)
Lemma for_rglob_items {A} (body : Path -> A -> M A) (root : Path) (acc : A)
  (w : world) :
  tidy body -> unique_paths (files w) ->
  for_rglob body root acc w = for_each body (rglob_items (files w) root) acc w.
Proof.
  intros Ht Hu. unfold for_rglob, is_dir. mred.
  destruct (lookup (files w) root) as [[f|b]|] eqn:E.
  - unfold rglob_items. destruct (walk_fuel _ _); simpl; rewrite ?E; reflexivity.
  - pose proof (rglob_items_spec _ _ _ E) as Hl.
    rewrite (rglob_from_static body Ht _ _ _ _ _ Hu Hl).
    rewrite for_each_visit_NoDup.
    + unfold bind, ret.
      destruct (for_each body (rglob_items (files w) root) acc w) as [[a|e|] w'];
        reflexivity.
    + apply rglob_items_NoDup; assumption.
    + simpl; tauto.
  - unfold rglob_items. destruct (walk_fuel _ _); simpl; rewrite ?E; reflexivity.
Qed.

(** A loop whose body leaves the files alone leaves them alone. *)
Lemma for_each_frame {A X} (body : X -> A -> M A) :
  (forall x a w, files (snd (body x a w)) = files w) ->
  forall xs a w, files (snd (for_each body xs a w)) = files w.
Proof.
  intros Hb. induction xs as [|x xs IH]; intros a w; simpl; auto.
  unfold bind. specialize (Hb x a w).
  destruct (body x a w) as [[a'|e|] w']; simpl in *; auto.
  rewrite IH. exact Hb.
Qed.

Lemma rglob_from_frame {A} (body : Path -> A -> M A) :
  (forall p a w, files (snd (body p a w)) = files w) ->
  forall k d st w, files (snd (rglob_from body k d st w)) = files w.
Proof.
  intros Hb. induction k as [|k IH]; intros d st w; simpl; auto.
  assert (forall d w, files (snd (scandir d w)) = files w) as Hscan.
  { intros d' w'. unfold scandir. mred.
    destruct (lookup (files w') d') as [[?|?]|]; reflexivity. }
  unfold bind at 1. pose proof (Hscan d w) as H1.
  destruct (scandir d w) as [[es|e|] w1]; simpl in *; auto.
  unfold bind at 1.
  assert (forall p st w, files (snd (visit body p st w)) = files w) as Hvisit.
  { intros p st0 w0. unfold visit.
    destruct (existsb _ _); simpl; auto.
    unfold bind. specialize (Hb p (snd st0) w0).
    destruct (body p (snd st0) w0) as [[?|?|] ?]; simpl in *; auto. }
  pose proof (for_each_frame (visit body) Hvisit (map fst es) st w1) as H2.
  destruct (for_each (visit body) (map fst es) st w1) as [[st1|e|] w2];
    simpl in *; try congruence.
  unfold bind. pose proof (Hscan d w2) as H3.
  destruct (scandir d w2) as [[es'|e|] w3]; simpl in *; try congruence.
  rewrite (for_each_frame (rglob_from body k) (fun c st w => IH c st w)).
  congruence.
Qed.

Lemma for_rglob_frame {A} (body : Path -> A -> M A) (root : Path) (acc : A)
  (w : world) :
  (forall p a w, files (snd (body p a w)) = files w) ->
  files (snd (for_rglob body root acc w)) = files w.
Proof.
  intros Hb. unfold for_rglob, is_dir. mred.
  destruct (lookup (files w) root) as [[f|b]|]; simpl; auto.
  pose proof (rglob_from_frame body Hb (walk_fuel (files w) root) root ([], acc) w) as H.
  destruct (rglob_from body _ root ([], acc) w) as [[st|e|] w']; simpl in *; auto.
Qed.

(* ================================================================== *)
(** ** clean_old_files_sync *)
(* ================================================================== *)

Lemma relative_to_below (root p : Path) :
  within root p -> PurePath.relative_to p root = Some (rel root p).
Proof.
  intros [r ->]. unfold rel. induction root as [|a root IH]; simpl.
  - destruct r; reflexivity.
  - rewrite String.eqb_refl. exact IH.
Qed.

Lemma rel_app (root r : Path) : rel root (root ++ r) = r.
Proof. unfold rel. induction root; simpl; auto. Qed.

Lemma rel_inj (root p q : Path) :
  within root p -> within root q -> rel root p = rel root q -> p = q.
Proof. intros [r ->] [r' ->]. rewrite !rel_app. congruence. Qed.

Lemma sum_Z_app (l l' : list Z) : sum_Z (l ++ l') = (sum_Z l + sum_Z l')%Z.
Proof. unfold sum_Z. induction l; simpl; lia. Qed.

Lemma unlink_spec (p : Path) (w : world) (f : file) :
  lookup (files w) p = Some (File f) ->
  unlink p w =
  if dir_writable (files w) (PurePath.parent p)
  then (Val tt, set_files (remove p (files w)) w)
  else (Exc PermissionError, w).
Proof.
  intros H. unfold unlink. mred. rewrite H.
  destruct (dir_writable _ _); reflexivity.
Qed.

(** [try: p.unlink() except Exception: pass], for a regular file. *)
Lemma try_unlink_spec {A} (p : Path) (a : A) (w : world) (f : file) :
  lookup (files w) p = Some (File f) ->
  try_except (unlink p ;;; ret a) (fun _ => ret a) w =
  (Val a, if dir_writable (files w) (PurePath.parent p)
          then set_files (remove p (files w)) w else w).
Proof.
  intros H. unfold try_except, bind. rewrite (unlink_spec p w f H).
  destruct (dir_writable _ _); reflexivity.
Qed.

Lemma clean_body_tidy {L : Library} (path : Path) (cutoff_date : Z) (delete : bool) :
  tidy (clean_body path cutoff_date delete).
Proof.
  intros p a w. unfold clean_body, is_file, stat, relative_to, now. mred.
  destruct (lookup (files w) p) as [[f|b]|] eqn:E; simpl; auto.
  rewrite E. simpl. destruct (mtime f <? cutoff_date)%Z; simpl; auto.
  rewrite E. simpl.
  destruct (PurePath.relative_to p path); simpl; auto.
  destruct delete; simpl; auto.
  unfold unlink. mred. rewrite E.
  destruct (dir_writable (files w) (PurePath.parent p)); simpl; eauto.
Qed.

Section Clean.

Context {L : Library}.
Variables (root : Path) (cutoff_date : Z) (delete : bool).

(** One round of the loop, read off the file system. *)
Lemma clean_body_spec (p : Path) (acc : clean_acc) (w : world) :
  clean_body root cutoff_date delete p acc w =
  match file_at (files w) p with
  | Some f =>
      if (mtime f <? cutoff_date)%Z then
        match PurePath.relative_to p root with
        | Some r =>
            (Val (fst acc ++ [mkOldFile r
                                (Calendar.days_between (clock w (ticks w)) (mtime f))
                                (size_of f)],
                  (snd acc + size_of f)%Z),
             mkWorld
               (if delete && dir_writable (files w) (PurePath.parent p)
                then remove p (files w) else files w)
               (clock w) (S (ticks w)) (zipf w))
        | None => (Exc ValueError, w)
        end
      else (Val acc, w)
  | None => (Val acc, w)
  end.
Proof.
  unfold clean_body, file_at, is_file, stat, relative_to, now, size_of. mred.
  destruct (lookup (files w) p) as [[f|b]|] eqn:E; simpl; auto.
  rewrite E. simpl. destruct (mtime f <? cutoff_date)%Z; simpl; auto.
  rewrite E. simpl.
  destruct (PurePath.relative_to p root); simpl; auto.
  destruct delete; simpl; auto.
  unfold unlink. mred. rewrite E.
  destruct (dir_writable (files w) (PurePath.parent p)); simpl; reflexivity.
Qed.

Variable s0 : fs.

(** The loop of [clean_old_files_sync] over items that have not been
    removed yet: it lists what [old_entries] says, whether or not the
    removals go through. *)
Lemma clean_loop :
  forall items D acc w,
    NoDup items ->
    (forall p, In p items -> within root p /\ ~ In p D) ->
    Forall (fun p => exists f, lookup s0 p = Some (File f)) D ->
    files w = prune D s0 ->
    for_each (clean_body root cutoff_date delete) items acc w =
    (let olds := old_entries s0 (clock w) root cutoff_date items (ticks w) in
     (Val (fst acc ++ olds, (snd acc + sum_Z (map old_size olds))%Z),
      mkWorld (prune (D ++ unlinked delete s0 (old_items s0 cutoff_date items)) s0)
        (clock w) (ticks w + List.length olds) (zipf w))).
Proof.
  induction items as [|p items IH]; intros D [olds total] w Hnd Hin HD Hfiles.
  - simpl. unfold unlinked. simpl. destruct delete; simpl;
      rewrite !app_nil_r, Z.add_0_r, Nat.add_0_r, <- Hfiles; destruct w; reflexivity.
  - inversion Hnd as [|? ? Hnp Hnd']; subst.
    destruct (Hin p (or_introl eq_refl)) as [Hwp HpD].
    assert (file_at (files w) p = file_at s0 p) as Hlk.
    { unfold file_at. rewrite Hfiles, lookup_prune.
      apply mem_not_In in HpD. rewrite HpD. reflexivity. }
    assert (forall q, In q items -> within root q /\ ~ In q D) as Hin'
        by (intros q Hq; apply Hin; right; assumption).
    simpl old_entries. simpl for_each. unfold bind at 1.
    rewrite clean_body_spec, Hlk. unfold old_items. simpl filter.
    fold (old_items s0 cutoff_date items).
    destruct (file_at s0 p) as [f|] eqn:E;
      [destruct (mtime f <? cutoff_date)%Z eqn:Eold|];
      try (rewrite (IH D (olds, total) w Hnd' Hin' HD Hfiles); reflexivity).
    rewrite (relative_to_below root p Hwp).
    assert (lookup s0 p = Some (File f)) as Hp.
    { unfold file_at in E. destruct (lookup s0 p) as [[?|?]|]; congruence. }
    rewrite Hfiles, (dir_writable_prune D s0 _ HD). cbn [fst snd].
    destruct (delete && dir_writable s0 (PurePath.parent p)) eqn:Edel.
    + apply andb_true_iff in Edel. destruct Edel as [Edel Ew].
      rewrite (IH (D ++ [p])); auto.
      * cbn [fst snd clock ticks zipf]. unfold unlinked. rewrite Edel.
        simpl filter. rewrite Ew. simpl.
        rewrite <- !app_assoc. simpl. f_equal; [|f_equal; lia].
        do 2 f_equal. lia.
      * intros q Hq. split; [apply Hin'; assumption|].
        rewrite in_app_iff. intros [H|[<-|[]]]; [|contradiction].
        apply (Hin' q Hq); assumption.
      * apply Forall_app. split; [assumption | constructor; eauto].
      * simpl. rewrite remove_prune. apply prune_prune.
    + rewrite (IH D); auto.
      cbn [fst snd clock ticks zipf].
      assert (unlinked delete s0 (p :: old_items s0 cutoff_date items)
              = unlinked delete s0 (old_items s0 cutoff_date items)) as ->.
      { unfold unlinked. destruct delete; [|reflexivity].
        simpl in Edel. simpl. rewrite Edel. reflexivity. }
      simpl. rewrite <- !app_assoc. simpl. f_equal; [|f_equal; lia].
      do 2 f_equal. lia.
Qed.

End Clean.

(* ================================================================== *)
(** ** archive_files_sync *)
(* ================================================================== *)

Section Archive.

Context {L : Library}.
Variables (root archive_path : Path) (cutoff_date : Z).

(** One round of the loop, read off the file system. *)
Lemma archive_body_spec (p : Path) (acc : archive_acc) (w : world) :
  archive_body root archive_path cutoff_date p acc w =
  match qualifies (files w) archive_path cutoff_date p with
  | Some f =>
      match PurePath.relative_to p root with
      | Some arcname =>
          if zip_ok f
          then (Val (fst acc ++ [arcname], (snd acc + size_of f)%Z),
                mkWorld
                  (if dir_writable (files w) (PurePath.parent p)
                   then remove p (files w) else files w)
                  (clock w) (ticks w) (zipf w ++ [(arcname, content f)]))
          else (Val acc, w)
      | None => (Val acc, w)
      end
  | None => (Val acc, w)
  end.
Proof.
  unfold archive_body, qualifies, file_at, is_file, stat, relative_to, zip_write,
    zip_ok, size_of, StructError.
  generalize Calendar.DOS_MIN, Calendar.DOS_END. intros lo hi. mred.
  destruct (lookup (files w) p) as [[f|b]|] eqn:E; simpl; auto.
  destruct (PurePath.eqb p archive_path); simpl; auto.
  rewrite E. simpl. destruct (mtime f <? cutoff_date)%Z; simpl; auto.
  destruct (PurePath.relative_to p root); simpl; auto.
  rewrite E. rewrite (Z.leb_antisym (mtime f) lo), (Z.ltb_antisym hi (mtime f)).
  destruct (mtime f <? lo)%Z; simpl; auto.
  destruct (readable f); simpl.
  - destruct (hi <=? mtime f)%Z; simpl; auto.
    rewrite E. simpl. unfold unlink. mred. rewrite E.
    destruct (dir_writable (files w) (PurePath.parent p)); simpl; reflexivity.
  - rewrite andb_false_r. reflexivity.
Qed.

Lemma archive_body_tidy : tidy (archive_body root archive_path cutoff_date).
Proof.
  intros p a w. rewrite archive_body_spec. unfold qualifies, file_at.
  destruct (lookup (files w) p) as [[f|b]|] eqn:E; simpl; auto.
  destruct (negb _ && _); simpl; auto.
  destruct (PurePath.relative_to p root); simpl; auto.
  destruct (zip_ok f); simpl; auto.
  destruct (dir_writable _ _); simpl; eauto.
Qed.

Variable s0 : fs.

(** The loop of [archive_files_sync] over items that have not been
    removed yet. *)
Lemma archive_loop :
  forall items D acc w,
    NoDup items ->
    (forall p, In p items -> within root p /\ ~ In p D) ->
    Forall (fun p => exists f, lookup s0 p = Some (File f)) D ->
    files w = prune D s0 ->
    for_each (archive_body root archive_path cutoff_date) items acc w =
    (let done := archived_items s0 archive_path cutoff_date items in
     (Val (fst acc ++ map (rel root) done,
           (snd acc + sum_Z (map (size_at s0) done))%Z),
      mkWorld (prune (D ++ removed_items s0 archive_path cutoff_date items) s0)
        (clock w) (ticks w)
        (zipf w ++ map (fun p => (rel root p, content_at s0 p)) done))).
Proof.
  induction items as [|p items IH]; intros D [names total] w Hnd Hin HD Hfiles.
  - simpl. rewrite !app_nil_r, Z.add_0_r. rewrite <- Hfiles. destruct w; reflexivity.
  - inversion Hnd as [|? ? Hnp Hnd']; subst.
    destruct (Hin p (or_introl eq_refl)) as [Hwp HpD].
    assert (file_at (files w) p = file_at s0 p) as Hlk.
    { unfold file_at. rewrite Hfiles, lookup_prune.
      apply mem_not_In in HpD. rewrite HpD. reflexivity. }
    assert (forall q, In q items -> within root q /\ ~ In q D) as Hin'
        by (intros q Hq; apply Hin; right; assumption).
    simpl for_each. unfold bind at 1. rewrite archive_body_spec.
    unfold archived_items, removed_items. simpl filter.
    unfold written, qualifies. rewrite Hlk.
    destruct (file_at s0 p) as [f|] eqn:E;
      [destruct (negb (PurePath.eqb p archive_path) && (mtime f <? cutoff_date)%Z)|];
      try (rewrite (IH D (names, total) w Hnd' Hin' HD Hfiles); reflexivity).
    rewrite (relative_to_below root p Hwp).
    destruct (zip_ok f) eqn:Ez;
      [|rewrite (IH D (names, total) w Hnd' Hin' HD Hfiles); reflexivity].
    assert (lookup s0 p = Some (File f)) as Hp.
    { unfold file_at in E. destruct (lookup s0 p) as [[?|?]|]; congruence. }
    rewrite Hfiles, (dir_writable_prune D s0 _ HD). simpl.
    destruct (dir_writable s0 (PurePath.parent p)) eqn:Ew.
    + rewrite (IH (D ++ [p])); auto.
      * cbn [fst snd clock ticks zipf]. unfold size_at, content_at. rewrite E.
        rewrite <- !app_assoc. simpl. f_equal.
        f_equal. rewrite !Z.add_assoc. reflexivity.
      * intros q Hq. split; [apply Hin'; assumption|].
        rewrite in_app_iff. intros [H|[<-|[]]]; [|contradiction].
        apply (Hin' q Hq); assumption.
      * apply Forall_app. split; [assumption | constructor; eauto].
      * simpl. rewrite remove_prune. apply prune_prune.
    + rewrite (IH D); auto.
      cbn [fst snd clock ticks zipf]. unfold size_at, content_at. rewrite E.
      rewrite <- !app_assoc. simpl. f_equal.
      f_equal. rewrite !Z.add_assoc. reflexivity.
Qed.

End Archive.

(* ================================================================== *)
(** ** Whole runs *)
(* ================================================================== *)

Lemma path_exists_present (p : Path) (w : world) (n : node) :
  lookup (files w) p = Some n -> path_exists p w = (Val true, w).
Proof. intros H. unfold path_exists. mred. rewrite H. reflexivity. Qed.

Lemma cutoff_spec (days_old : Z) (w : world) (delta c : Z) :
  Calendar.timedelta_days days_old = Some delta ->
  Calendar.datetime_sub (clock w (ticks w)) delta = Some c ->
  cutoff days_old w = (Val c, mkWorld (files w) (clock w) (S (ticks w)) (zipf w)).
Proof.
  intros H1 H2. unfold cutoff, now. mred. rewrite H1, H2. reflexivity.
Qed.

Section Runs.

Context {L : Library}.

(** [clean_old_files_sync], from the call to the answer. *)
Lemma clean_old_files_run (downloads_path : option Path) (days_old : Z)
  (delete : bool) (w : world) (delta c : Z) (n : node) :
  let root := get_downloads_path downloads_path in
  unique_paths (files w) ->
  lookup (files w) root = Some n ->
  Calendar.timedelta_days days_old = Some delta ->
  Calendar.datetime_sub (clock w (ticks w)) delta = Some c ->
  clean_old_files_sync downloads_path days_old delete w =
  (let items := rglob_items (files w) root in
   let olds := old_entries (files w) (clock w) root c items (S (ticks w)) in
   (Val (Ok (mkClean olds (List.length olds) (MB (sum_Z (map old_size olds)))
               delete days_old)),
    mkWorld (prune (unlinked delete (files w) (old_items (files w) c items))
               (files w))
      (clock w) (S (ticks w) + List.length olds) (zipf w))).
Proof.
  intros root Hu Hroot Hdelta Hc.
  unfold clean_old_files_sync. fold root.
  rewrite (bind_val _ _ _ _ _ (path_exists_present _ _ _ Hroot)). cbn [negb].
  rewrite (bind_val _ _ _ _ _ (cutoff_spec _ _ _ _ Hdelta Hc)).
  unfold bind. rewrite for_rglob_items;
    [|apply clean_body_tidy | assumption].
  cbn [files]. rewrite (clean_loop root c delete (files w) _ []);
    [ reflexivity
    | apply rglob_items_NoDup; assumption
    | intros p Hp; split; [|simpl; tauto];
      apply below_within; eapply rglob_items_below; eauto
    | constructor
    | simpl; symmetry; apply prune_nil ].
Qed.

End Runs.

Lemma keys_update (p : Path) (n : node) (s : fs) : keys (update p n s) = keys s.
Proof.
  unfold keys, update. rewrite map_map. apply map_ext_in.
  intros [q m] _. simpl. destruct (PurePath.eqb q p) eqn:E; simpl; auto.
  apply path_eqb_eq in E. congruence.
Qed.

Lemma lookup_None_keys (s : fs) (p : Path) : lookup s p = None -> ~ In p (keys s).
Proof.
  intros H Hin. apply in_map_iff in Hin. destruct Hin as ([q n] & E & Hin).
  simpl in E; subst q. apply In_lookup in Hin. destruct Hin as [m Hm]. congruence.
Qed.

Lemma unique_paths_add (p : Path) (n : node) (s : fs) :
  unique_paths s -> lookup s p = None -> unique_paths (add p n s).
Proof.
  unfold unique_paths, keys, add. intros Hu Hp. rewrite map_app. simpl.
  apply NoDup_app_intro; auto.
  - constructor; [simpl; tauto | constructor].
  - intros q Hq [E|[]]. subst q. apply (lookup_None_keys s p Hp Hq).
Qed.

Lemma opened_unique (s s1 : fs) (p : Path) (t : Z) :
  opened s p t = Some s1 -> unique_paths s -> unique_paths s1.
Proof.
  unfold opened. intros H Hu.
  destruct (lookup s p) as [[f|b]|] eqn:E; try discriminate.
  - destruct (readable f && writable f); inversion H; subst.
    unfold unique_paths. rewrite keys_update. exact Hu.
  - destruct (lookup s (PurePath.parent p)) as [[?|[|]]|]; inversion H; subst.
    apply unique_paths_add; assumption.
Qed.

Lemma opened_lookup (s s1 : fs) (p : Path) (t : Z) :
  opened s p t = Some s1 ->
  lookup s1 p = Some (File (mkFile [] t true true)) /\
  forall q, q <> p -> lookup s1 q = lookup s q.
Proof.
  unfold opened. intros H.
  destruct (lookup s p) as [[f|b]|] eqn:E; try discriminate.
  - destruct (readable f && writable f); inversion H; subst. split.
    + rewrite lookup_update, E, path_eqb_refl. reflexivity.
    + intros q Hq. rewrite lookup_update.
      assert (PurePath.eqb p q = false) as -> by (apply path_eqb_neq; congruence).
      destruct (lookup s q); reflexivity.
  - destruct (lookup s (PurePath.parent p)) as [[?|[|]]|]; inversion H; subst. split.
    + rewrite lookup_add, E, path_eqb_refl. reflexivity.
    + intros q Hq. rewrite lookup_add.
      assert (PurePath.eqb p q = false) as -> by (apply path_eqb_neq; congruence).
      destruct (lookup s q); reflexivity.
Qed.

Lemma ZipFile_w_spec (p : Path) (w : world) (s1 : fs) :
  opened (files w) p (clock w (ticks w)) = Some s1 ->
  ZipFile_w p w = (Val tt, mkWorld s1 (clock w) (S (ticks w)) []).
Proof.
  unfold opened, ZipFile_w, now. mred. intros H.
  destruct (lookup (files w) p) as [[f|b]|] eqn:E; try discriminate.
  - destruct (readable f && writable f); inversion H; subst. reflexivity.
  - destruct (lookup (files w) (PurePath.parent p)) as [[?|[|]]|];
      inversion H; subst. reflexivity.
Qed.

Lemma archived_items_spec (s : fs) (archive_path : Path) (c : Z)
  (items : list Path) (p : Path) :
  In p (archived_items s archive_path c items) <->
  In p items /\ exists f, written s archive_path c p = Some f.
Proof.
  unfold archived_items. rewrite filter_In.
  destruct (written s archive_path c p) as [f|]; simpl; split;
    intros [H1 H2]; split; eauto; try discriminate.
  destruct H2; discriminate.
Qed.

Lemma written_not_container (s : fs) (archive_path : Path) (c : Z) (f : file) :
  written s archive_path c archive_path = Some f -> False.
Proof.
  unfold written, qualifies. destruct (file_at s archive_path); [|discriminate].
  rewrite path_eqb_refl. simpl. discriminate.
Qed.

Lemma written_file (s : fs) (archive_path : Path) (c : Z) (p : Path) (f : file) :
  written s archive_path c p = Some f -> lookup s p = Some (File f).
Proof.
  unfold written, qualifies, file_at.
  destruct (lookup s p) as [[g|b]|]; try discriminate.
  destruct (negb _ && _); try discriminate.
  destruct (zip_ok g); congruence.
Qed.

Lemma stat_file (p : Path) (w : world) (f : file) :
  lookup (files w) p = Some (File f) ->
  stat p w = (Val (mkStat (size_of f) (mtime f)), w).
Proof. intros H. unfold stat. mred. rewrite H. reflexivity. Qed.

Section ArchiveRun.

Context {L : Library}.

Lemma zip_close_spec (p : Path) (w : world) (f : file) :
  lookup (files w) p = Some (File f) ->
  zip_close p w =
  (Val tt,
   mkWorld (update p (File (mkFile (zip_encode (zipf w)) (clock w (ticks w))
                              (readable f) (writable f))) (files w))
     (clock w) (S (ticks w)) (zipf w)).
Proof. intros H. unfold zip_close, now. mred. rewrite H. reflexivity. Qed.

Lemma with_ZipFile_w_spec {A} (p : Path) (body : M A) (w : world) (s1 : fs)
  (a : A) (w2 : world) (f : file) :
  opened (files w) p (clock w (ticks w)) = Some s1 ->
  body (mkWorld s1 (clock w) (S (ticks w)) []) = (Val a, w2) ->
  lookup (files w2) p = Some (File f) ->
  with_ZipFile_w p body w =
  (Val a,
   mkWorld (update p (File (mkFile (zip_encode (zipf w2)) (clock w2 (ticks w2))
                              (readable f) (writable f))) (files w2))
     (clock w2) (S (ticks w2)) (zipf w2)).
Proof.
  intros Hopen Hbody Hp. unfold with_ZipFile_w.
  rewrite (bind_val _ _ _ _ _ (ZipFile_w_spec p w s1 Hopen)).
  rewrite Hbody. unfold bind. rewrite (zip_close_spec p w2 f Hp). reflexivity.
Qed.

(** [archive_files_sync], from the call to the answer, when the
    container can be opened. *)
Lemma archive_files_run (downloads_path : option Path) (days_old : Z)
  (archive_name : option string) (w : world) (delta c : Z) (n : node) (s1 : fs) :
  let root := get_downloads_path downloads_path in
  let name := fst (resolve_archive_name archive_name w) in
  let k := snd (resolve_archive_name archive_name w) in
  let archive_path := PurePath.child root name in
  unique_paths (files w) ->
  lookup (files w) root = Some n ->
  Calendar.timedelta_days days_old = Some delta ->
  Calendar.datetime_sub (clock w k) delta = Some c ->
  opened (files w) archive_path (clock w (S k)) = Some s1 ->
  archive_files_sync downloads_path days_old archive_name w =
  (let items := rglob_items s1 root in
   let done := archived_items s1 archive_path c items in
   let entries := map (fun p => (rel root p, content_at s1 p)) done in
   let total := sum_Z (map (size_at s1) done) in
   let image := zip_encode entries in
   let archive_size := Z.of_nat (List.length image) in
   (Val (Ok (mkArchive name (List.length done) (MB total) (MB archive_size)
               (if (0 <? total)%Z then Ratio archive_size total else RatioZero)
               (firstn 20 (map (rel root) done)))),
    mkWorld
      (update archive_path (File (mkFile image (clock w (S (S k))) true true))
         (prune (removed_items s1 archive_path c items) s1))
      (clock w) (S (S (S k))) entries)).
Proof.
  intros root name k archive_path Hu Hroot Hdelta Hc Hopen.
  pose proof (opened_unique _ _ _ _ Hopen Hu) as Hu1.
  destruct (opened_lookup _ _ _ _ Hopen) as [Hcont Hother].
  unfold archive_files_sync. fold root.
  rewrite (bind_val _ _ _ _ _ (path_exists_present _ _ _ Hroot)). cbn [negb].
  assert ((match archive_name with
           | Some (String c0 n0) => ret (String c0 n0)
           | _ => t <- now ;;
                  ret ("archive_" ++ Calendar.strftime_Ymd t ++ ".zip")%string
           end) w
          = (Val name, mkWorld (files w) (clock w) k (zipf w))) as Hname.
  { unfold name, k, resolve_archive_name, now, bind, ret.
    destruct archive_name as [[|c0 n0]|]; destruct w; reflexivity. }
  rewrite (bind_val _ _ _ _ _ Hname). fold archive_path.
  rewrite (bind_val _ _ _ _ _
             (cutoff_spec days_old (mkWorld (files w) (clock w) k (zipf w))
                delta c Hdelta Hc)).
  cbn [files clock ticks zipf].
  set (items := rglob_items s1 root).
  set (done := archived_items s1 archive_path c items).
  set (gone := removed_items s1 archive_path c items).
  set (entries := map (fun p => (rel root p, content_at s1 p)) done).
  assert (lookup (prune gone s1) archive_path
          = Some (File (mkFile [] (clock w (S k)) true true))) as Hstill.
  { rewrite lookup_prune.
    destruct (existsb (PurePath.eqb archive_path) gone) eqn:E; [|exact Hcont].
    exfalso. apply mem_In in E. unfold gone, removed_items in E.
    apply filter_In in E. destruct E as [E _].
    apply archived_items_spec in E. destruct E as [_ [f Hf]].
    eapply written_not_container; eauto. }
  assert (for_rglob (archive_body root archive_path c) root ([], 0%Z)
            (mkWorld s1 (clock w) (S (S k)) [])
          = (Val (map (rel root) done, sum_Z (map (size_at s1) done)),
             mkWorld (prune gone s1) (clock w) (S (S k)) entries)) as Hloop.
  { rewrite for_rglob_items; [|apply archive_body_tidy | exact Hu1].
    cbn [files]. rewrite (archive_loop root archive_path c s1 _ []);
      [ reflexivity
      | apply rglob_items_NoDup; assumption
      | intros p Hp; split; [|simpl; tauto];
        apply below_within; eapply rglob_items_below; eauto
      | constructor
      | simpl; symmetry; apply prune_nil ]. }
  rewrite (bind_val _ _ _ _ _
             (with_ZipFile_w_spec archive_path _
                (mkWorld (files w) (clock w) (S k) (zipf w)) s1 _ _ _
                Hopen Hloop Hstill)).
  cbn [files clock ticks zipf readable writable fst snd].
  set (image := zip_encode entries).
  set (w3 := mkWorld _ _ _ _).
  assert (lookup (files w3) archive_path
          = Some (File (mkFile image (clock w (S (S k))) true true))) as Hfinal.
  { unfold w3. cbn [files]. rewrite lookup_update, Hstill, path_eqb_refl.
    reflexivity. }
  rewrite (bind_val _ _ _ _ _ (path_exists_present _ _ _ Hfinal)).
  unfold bind at 1. rewrite (bind_val _ _ _ _ _ (stat_file _ _ _ Hfinal)).
  unfold ret. cbn [st_size]. unfold size_of. cbn [content].
  rewrite length_map. reflexivity.
Qed.

End ArchiveRun.

(* ================================================================== *)
(** ** find_duplicates_sync *)
(* ================================================================== *)

(** *** The stable sort *)

Lemma insert_desc_perm {X} (x : Z * X) (l : list (Z * X)) :
  Permutation (insert_desc x l) (x :: l).
Proof.
  induction l as [|y l IH]; simpl; auto.
  destruct (fst y <=? fst x)%Z; auto.
  rewrite IH. apply perm_swap.
Qed.

Lemma sort_desc_perm {X} (l : list (Z * X)) : Permutation (sort_desc l) l.
Proof.
  induction l as [|x l IH]; simpl; auto.
  rewrite insert_desc_perm. auto.
Qed.

(** The head of the sorted list is the first element with the largest
    key: everything before it is strictly smaller, nothing after it is
    larger. *)
Lemma sort_desc_head {X} (l : list (Z * X)) :
  l <> [] ->
  exists x rest l1 l2,
    sort_desc l = x :: rest /\
    l = l1 ++ x :: l2 /\
    Forall (fun y => (fst y < fst x)%Z) l1 /\
    Forall (fun y => (fst y <= fst x)%Z) l2 /\
    Permutation rest (l1 ++ l2).
Proof.
  induction l as [|a l IH]; intros Hne; [congruence|].
  destruct l as [|b l'].
  - exists a, [], [], []. simpl. repeat split; auto.
  - destruct IH as (x & rest & l1 & l2 & Hs & Hl & H1 & H2 & Hp); [discriminate|].
    simpl sort_desc in *. rewrite Hs. simpl.
    destruct (fst x <=? fst a)%Z eqn:E.
    + apply Z.leb_le in E.
      exists a, (x :: rest), [], (b :: l'). simpl. repeat split; auto.
      * rewrite Hl. apply Forall_app. split.
        -- eapply Forall_impl; [|exact H1]. simpl. intros; lia.
        -- constructor; [assumption|].
           eapply Forall_impl; [|exact H2]. simpl. intros; lia.
      * rewrite Hl. rewrite Hp. apply Permutation_middle.
    + apply Z.leb_gt in E.
      exists x, (insert_desc a rest), (a :: l1), l2. rewrite Hl. simpl.
      repeat split; auto.
      rewrite insert_desc_perm. auto.
Qed.

(** *** Dicts of lists *)

Lemma dict_get_append {V} (k k' : string) (v : V) (d : dict (list V)) :
  dict_get k' (dict_append k v d) =
  if String.eqb k k' then dict_get k' d ++ [v] else dict_get k' d.
Proof.
  induction d as [|[k0 vs] d IH]; simpl.
  - destruct (String.eqb k k'); reflexivity.
  - destruct (String.eqb k0 k) eqn:E0; simpl.
    + apply String.eqb_eq in E0; subst k0.
      destruct (String.eqb k k'); reflexivity.
    + destruct (String.eqb k0 k') eqn:E1; [|exact IH].
      apply String.eqb_eq in E1; subst k0. rewrite String.eqb_sym, E0. reflexivity.
Qed.

Lemma dict_append_keys {V} (k : string) (v : V) (d : dict (list V)) :
  map fst (dict_append k v d) =
  if existsb (String.eqb k) (map fst d) then map fst d else map fst d ++ [k].
Proof.
  induction d as [|[k0 vs] d IH]; simpl; auto.
  destruct (String.eqb k0 k) eqn:E; simpl.
  - rewrite String.eqb_sym, E. reflexivity.
  - rewrite String.eqb_sym, E. simpl. rewrite IH.
    destruct (existsb _ _); reflexivity.
Qed.

Lemma dict_get_In {V} (k : string) (vs : list V) (d : dict (list V)) :
  NoDup (map fst d) -> In (k, vs) d -> dict_get k d = vs.
Proof.
  induction d as [|[k0 vs0] d IH]; simpl; intros Hnd Hin; [tauto|].
  inversion Hnd as [|? ? Hn Hnd']; subst.
  destruct Hin as [H|H].
  - inversion H; subst. rewrite String.eqb_refl. reflexivity.
  - destruct (String.eqb k0 k) eqn:E; [|auto].
    apply String.eqb_eq in E; subst k0. exfalso. apply Hn.
    apply (in_map fst) in H. exact H.
Qed.

Lemma dict_get_absent {V} (k : string) (d : dict (list V)) :
  ~ In k (map fst d) -> dict_get k d = [].
Proof.
  induction d as [|[k0 vs0] d IH]; simpl; intros H; auto.
  destruct (String.eqb k0 k) eqn:E; [|apply IH; tauto].
  apply String.eqb_eq in E. tauto.
Qed.

Lemma existsb_eqb_In (k : string) (l : list string) :
  existsb (String.eqb k) l = true <-> In k l.
Proof.
  rewrite existsb_exists. split.
  - intros (x & Hx & E). apply String.eqb_eq in E. congruence.
  - intros H. exists k. split; auto. apply String.eqb_refl.
Qed.

Lemma dict_append_NoDup {V} (k : string) (v : V) (d : dict (list V)) :
  NoDup (map fst d) -> NoDup (map fst (dict_append k v d)).
Proof.
  intros H. rewrite dict_append_keys.
  destruct (existsb (String.eqb k) (map fst d)) eqn:E; auto.
  apply NoDup_app_intro; auto.
  - constructor; [simpl; tauto | constructor].
  - intros a Ha [<-|[]].
    apply existsb_eqb_In in Ha. congruence.
Qed.

(** *** The two loops *)

Lemma mtime_keys_spec (s0 : fs) (D : list Path) :
  forall members w,
    files w = prune D s0 ->
    (forall p, In p members -> ~ In p D /\ exists f, lookup s0 p = Some (File f)) ->
    mtime_keys members w = (Val (map (fun p => (mtime_at s0 p, p)) members), w).
Proof.
  induction members as [|p members IH]; intros w Hfiles Hm; simpl.
  - reflexivity.
  - destruct (Hm p (or_introl eq_refl)) as [HpD [f Hf]].
    assert (lookup (files w) p = Some (File f)) as Hlk.
    { rewrite Hfiles, lookup_prune. apply mem_not_In in HpD. rewrite HpD. exact Hf. }
    rewrite (bind_val _ _ _ _ _ (stat_file p w f Hlk)).
    rewrite (bind_val _ _ _ _ _ (IH w Hfiles (fun q Hq => Hm q (or_intror Hq)))).
    unfold ret, mtime_at, file_at. rewrite Hf. reflexivity.
Qed.

Lemma by_mtime_desc_perm (s : fs) (members : list Path) :
  Permutation (by_mtime_desc s members) members.
Proof.
  unfold by_mtime_desc. rewrite sort_desc_perm, map_map. simpl.
  rewrite map_id. reflexivity.
Qed.

Lemma NoDup_app_iff_aux {X} (l l' : list X) :
  NoDup (l ++ l') -> forall x, In x l -> In x l' -> False.
Proof.
  induction l as [|a l IH]; simpl; intros H x Hx Hx'; [tauto|].
  inversion H as [|? ? Hn Hnd]; subst. destruct Hx as [->|Hx].
  - apply Hn. apply in_or_app. right; assumption.
  - eapply IH; eauto.
Qed.

Lemma dict_append_flat {V} (k : string) (v : V) (d : dict (list V)) :
  Permutation (flat_map snd (dict_append k v d)) (v :: flat_map snd d).
Proof.
  induction d as [|[k0 vs] d IH]; simpl; auto.
  destruct (String.eqb k0 k); simpl.
  - rewrite <- app_assoc. simpl. symmetry. apply Permutation_middle.
  - rewrite IH. symmetry. apply Permutation_middle.
Qed.

Section Groups.

Context {L : Library}.
Variable s : fs.

Lemma hash_groups_perm (items : list Path) :
  forall d, Permutation (flat_map snd (fold_left (hash_step s) items d))
              (flat_map snd d ++ filter (fun p => is_some (digest_at s p)) items).
Proof.
  induction items as [|p items IH]; intros d; simpl.
  - rewrite app_nil_r. reflexivity.
  - rewrite IH. unfold hash_step at 1.
    destruct (digest_at s p) as [h|]; simpl; [|reflexivity].
    rewrite dict_append_flat. simpl. apply Permutation_middle.
Qed.

Lemma hash_groups_NoDup (items : list Path) :
  NoDup items -> NoDup (flat_map snd (hash_groups s items)).
Proof.
  intros H. unfold hash_groups.
  eapply Permutation_NoDup; [symmetry; apply hash_groups_perm|].
  simpl. apply NoDup_filter. exact H.
Qed.

Lemma hash_groups_member (items : list Path) (p : Path) :
  In p (flat_map snd (hash_groups s items)) ->
  In p items /\ digest_at s p <> None.
Proof.
  intros H. unfold hash_groups in H.
  eapply Permutation_in in H; [|apply hash_groups_perm]. simpl in H.
  apply filter_In in H. destruct H as [H1 H2]. split; auto.
  destruct (digest_at s p); [discriminate | discriminate].
Qed.

End Groups.

Section Duplicates.

Context {L : Library}.
Variables (root : Path) (delete_duplicates : bool) (s0 : fs).

Lemma hash_body_spec (p : Path) (d : dict (list Path)) (w : world) :
  hash_body p d w = (Val (hash_step (files w) d p), w).
Proof.
  unfold hash_body, hash_step, digest_at, file_at, get_file_hash, read_bytes,
    is_file. mred.
  destruct (lookup (files w) p) as [[f|b]|] eqn:E; simpl; auto.
  rewrite E. destruct (readable f); reflexivity.
Qed.

Lemma hash_loop (items : list Path) :
  forall d w, for_each hash_body items d w
              = (Val (fold_left (hash_step (files w)) items d), w).
Proof.
  induction items as [|p items IH]; intros d w; simpl; auto.
  rewrite (bind_val _ _ _ _ _ (hash_body_spec p d w)). apply IH.
Qed.

Lemma hash_body_tidy : tidy hash_body.
Proof. intros p a w. rewrite hash_body_spec. left; reflexivity. Qed.

Lemma duplicate_body_spec (keep_file dup : Path) (acc : duplicates_acc)
  (w : world) (f : file) :
  lookup (files w) dup = Some (File f) ->
  within root dup -> within root keep_file ->
  duplicate_body root delete_duplicates keep_file dup acc w =
  (Val (fst acc ++ [mkDuplicate (rel root dup) (size_of f) (rel root keep_file)],
        (snd acc + size_of f)%Z),
   if delete_duplicates && dir_writable (files w) (PurePath.parent dup)
   then set_files (remove dup (files w)) w else w).
Proof.
  intros Hf Hd Hk. unfold duplicate_body.
  rewrite (bind_val _ _ _ _ _ (stat_file dup w f Hf)).
  unfold relative_to. rewrite (relative_to_below root dup Hd),
    (relative_to_below root keep_file Hk).
  unfold bind at 1 2. unfold ret at 1 2. cbn [st_size].
  destruct delete_duplicates; simpl; [|reflexivity].
  rewrite (try_unlink_spec dup _ w f Hf).
  destruct (dir_writable _ _); reflexivity.
Qed.

Lemma duplicates_loop (keep_file : Path) :
  within root keep_file ->
  forall dups D acc w,
    NoDup dups ->
    (forall p, In p dups ->
               within root p /\ ~ In p D /\ exists f, lookup s0 p = Some (File f)) ->
    Forall (fun p => exists f, lookup s0 p = Some (File f)) D ->
    files w = prune D s0 ->
    for_each (duplicate_body root delete_duplicates keep_file) dups acc w =
    (Val (fst acc ++ map (fun d => mkDuplicate (rel root d) (size_at s0 d)
                                     (rel root keep_file)) dups,
          (snd acc + sum_Z (map (size_at s0) dups))%Z),
     set_files (prune (D ++ unlinked delete_duplicates s0 dups) s0)
       w).
Proof.
  intros Hk. induction dups as [|p dups IH]; intros D [ds total] w Hnd Hin HD Hfiles.
  - simpl. unfold unlinked. simpl. destruct delete_duplicates; simpl;
      rewrite !app_nil_r, Z.add_0_r, <- Hfiles; destruct w; reflexivity.
  - inversion Hnd as [|? ? Hnp Hnd']; subst.
    destruct (Hin p (or_introl eq_refl)) as (Hwp & HpD & f & Hf).
    assert (lookup (files w) p = Some (File f)) as Hlk.
    { rewrite Hfiles, lookup_prune. apply mem_not_In in HpD. rewrite HpD. exact Hf. }
    assert (size_at s0 p = size_of f) as Hsz
        by (unfold size_at, file_at; rewrite Hf; reflexivity).
    assert (forall q, In q dups ->
              within root q /\ ~ In q D /\ exists f, lookup s0 q = Some (File f))
      as Hin' by (intros q Hq; apply Hin; right; assumption).
    simpl for_each.
    rewrite (bind_val _ _ _ _ _ (duplicate_body_spec keep_file p _ w f Hlk Hwp Hk)).
    rewrite Hfiles, (dir_writable_prune D s0 _ HD). cbn [fst snd].
    assert (forall D1 w1,
      files w1 = prune D1 s0 ->
      (forall q, In q dups ->
         within root q /\ ~ In q D1 /\ exists f, lookup s0 q = Some (File f)) ->
      Forall (fun p => exists f, lookup s0 p = Some (File f)) D1 ->
      clock w1 = clock w -> ticks w1 = ticks w -> zipf w1 = zipf w ->
      D1 ++ unlinked delete_duplicates s0 dups
      = D ++ unlinked delete_duplicates s0 (p :: dups) ->
      for_each (duplicate_body root delete_duplicates keep_file) dups
        (ds ++ [mkDuplicate (rel root p) (size_of f) (rel root keep_file)],
         (total + size_of f)%Z) w1 =
      (Val (ds ++ map (fun d => mkDuplicate (rel root d) (size_at s0 d)
                                  (rel root keep_file)) (p :: dups),
            (total + sum_Z (map (size_at s0) (p :: dups)))%Z),
       set_files
         (prune (D ++ unlinked delete_duplicates s0 (p :: dups)) s0) w))
      as Hnext.
    { intros D1 w1 Hf1 Hin1 HD1 Hc Ht Hz HD'.
      rewrite (IH D1 _ w1 Hnd' Hin1 HD1 Hf1). cbn [fst snd]. simpl map.
      rewrite Hsz, HD'. simpl sum_Z. rewrite <- !app_assoc. simpl.
      unfold set_files. rewrite Hc, Ht, Hz, Z.add_assoc. reflexivity. }
    destruct (delete_duplicates && dir_writable s0 (PurePath.parent p)) eqn:Edel.
    + apply andb_true_iff in Edel. destruct Edel as [Edel Ew].
      apply (Hnext (D ++ [p])); auto.
      * simpl. rewrite remove_prune. apply prune_prune.
      * intros q Hq. destruct (Hin' q Hq) as (H1 & H2 & H3).
        repeat split; auto. rewrite in_app_iff.
        intros [H|[<-|[]]]; contradiction.
      * apply Forall_app. split; [assumption | constructor; eauto].
      * unfold unlinked. rewrite Edel. simpl. rewrite Ew.
        rewrite <- app_assoc. reflexivity.
    + apply (Hnext D); auto.
      unfold unlinked. destruct delete_duplicates; [|reflexivity].
      simpl in Edel. simpl. rewrite Edel. reflexivity.
Qed.

Lemma unlinked_app (l1 l2 : list Path) :
  unlinked delete_duplicates s0 (l1 ++ l2)
  = unlinked delete_duplicates s0 l1
    ++ unlinked delete_duplicates s0 l2.
Proof.
  unfold unlinked. destruct delete_duplicates; [|reflexivity].
  apply filter_app.
Qed.

Lemma unlinked_incl (l : list Path) :
  incl (unlinked delete_duplicates s0 l) l.
Proof.
  unfold unlinked. destruct delete_duplicates.
  - apply incl_filter.
  - intros x [].
Qed.

Lemma groups_loop :
  forall groups D acc w,
    NoDup (flat_map snd groups) ->
    (forall p, In p (flat_map snd groups) ->
               within root p /\ ~ In p D /\ exists f, lookup s0 p = Some (File f)) ->
    Forall (fun p => exists f, lookup s0 p = Some (File f)) D ->
    files w = prune D s0 ->
    for_each (group_body root delete_duplicates) groups acc w =
    (Val (fst acc ++ expected_duplicates s0 root groups,
          (snd acc + sum_Z (map (size_at s0) (duplicate_paths s0 groups)))%Z),
     set_files
       (prune (D ++ unlinked delete_duplicates s0
                      (duplicate_paths s0 groups)) s0) w).
Proof.
  induction groups as [|[h ms] groups IH]; intros D [ds total] w Hnd Hin HD Hfiles.
  - simpl. unfold unlinked. destruct delete_duplicates; simpl;
      rewrite !app_nil_r, Z.add_0_r, <- Hfiles; destruct w; reflexivity.
  - simpl flat_map in Hnd, Hin.
    assert (NoDup ms) as Hms by (eapply NoDup_app_remove_r; exact Hnd).
    assert (NoDup (flat_map snd groups)) as Hrest
        by (eapply NoDup_app_remove_l; exact Hnd).
    assert (forall p, In p ms -> ~ In p (flat_map snd groups)) as Hdisj.
    { intros p Hp Hq. exact (NoDup_app_iff_aux _ _ Hnd p Hp Hq). }
    simpl for_each. unfold expected_duplicates, duplicate_paths. simpl flat_map.
    fold (expected_duplicates s0 root groups). fold (duplicate_paths s0 groups).
    unfold group_body at 1. cbn [snd fst].
    unfold group_duplicates, group_duplicate_paths, group_keep.
    destruct (1 <? List.length ms) eqn:Elen.
    + assert (sort_by_mtime_desc ms w = (Val (by_mtime_desc s0 ms), w)) as Hsort.
      { unfold sort_by_mtime_desc.
        rewrite (bind_val _ _ _ _ _ (mtime_keys_spec s0 D ms w Hfiles
                   (fun p Hp => match Hin p (in_or_app _ _ _ (or_introl Hp)) with
                                | conj _ H => H end))).
        reflexivity. }
      unfold bind at 1. unfold bind at 1. rewrite Hsort.
      pose proof (by_mtime_desc_perm s0 ms) as Hperm.
      destruct (by_mtime_desc s0 ms) as [|keep dups] eqn:Esort.
      * apply Permutation_nil in Hperm. subst ms. simpl in Elen. discriminate.
      * cbn [hd tl].
        assert (forall p, In p (keep :: dups) -> In p ms) as Hsub
            by (intros p Hp; eapply Permutation_in; eauto).
        assert (NoDup (keep :: dups)) as Hnd2
            by (eapply Permutation_NoDup; [symmetry; exact Hperm | exact Hms]).
        inversion Hnd2 as [|? ? Hk Hnd3]; subst.
        rewrite (duplicates_loop keep
                   (proj1 (Hin keep (in_or_app _ _ _
                             (or_introl (Hsub keep (or_introl eq_refl))))))
                   dups D (ds, total) w Hnd3); auto.
        -- cbn [fst snd].
           rewrite (IH (D ++ unlinked delete_duplicates s0 dups)); auto.
           ++ cbn [fst snd]. rewrite unlinked_app, map_app, sum_Z_app.
              rewrite <- !app_assoc, Z.add_assoc.
              unfold set_files. cbn [files clock ticks zipf]. reflexivity.
           ++ intros p Hp.
              destruct (Hin p (in_or_app _ _ _ (or_intror Hp))) as (H1 & H2 & H3).
              repeat split; auto. rewrite in_app_iff. intros [H|H]; [contradiction|].
              apply unlinked_incl in H.
              apply (Hdisj p); auto. apply Hsub. right; assumption.
           ++ apply Forall_app. split; auto. apply Forall_forall.
              intros p Hp. apply unlinked_incl in Hp.
              apply (Hin p). apply in_or_app. left. apply Hsub. right; assumption.
        -- intros p Hp. apply Hin. apply in_or_app. left. apply Hsub.
           right; assumption.
    + unfold bind, ret. simpl map. simpl app. rewrite (IH D (ds, total) w); auto.
      intros p Hp. apply Hin. apply in_or_app. right; assumption.
Qed.

End Duplicates.

(** [find_duplicates_sync], from the call to the answer. *)
Lemma find_duplicates_run {L : Library} (downloads_path : option Path)
  (delete_duplicates : bool) (w : world) (n : node) :
  let root := get_downloads_path downloads_path in
  unique_paths (files w) ->
  lookup (files w) root = Some n ->
  find_duplicates_sync downloads_path delete_duplicates w =
  (let groups := hash_groups (files w) (rglob_items (files w) root) in
   let found := expected_duplicates (files w) root groups in
   (Val (Ok (mkDuplicates found (List.length found)
               (MB (sum_Z (map (size_at (files w))
                             (duplicate_paths (files w) groups))))
               delete_duplicates)),
    set_files
      (prune (unlinked delete_duplicates (files w)
                (duplicate_paths (files w) groups))
         (files w)) w)).
Proof.
  intros root Hu Hroot. unfold find_duplicates_sync. fold root.
  rewrite (bind_val _ _ _ _ _ (path_exists_present _ _ _ Hroot)). cbn [negb].
  unfold bind at 1. rewrite for_rglob_items; [|apply hash_body_tidy | assumption].
  rewrite hash_loop. fold (hash_groups (files w) (rglob_items (files w) root)).
  unfold bind. rewrite (groups_loop root delete_duplicates (files w) _ []).
  - reflexivity.
  - apply hash_groups_NoDup. apply rglob_items_NoDup; assumption.
  - intros p Hp. apply hash_groups_member in Hp. destruct Hp as [Hp Hd].
    split; [|split; [simpl; tauto|]].
    + apply below_within. eapply rglob_items_below; eauto.
    + unfold digest_at, file_at in Hd.
      destruct (lookup (files w) p) as [[f|b]|]; try congruence. eauto.
  - constructor.
  - simpl. symmetry. apply prune_nil.
Qed.

(* ================================================================== *)
(** ** What the reports list *)
(* ================================================================== *)

Lemma rel_rejoin (root p : Path) : within root p -> root ++ rel root p = p.
Proof. intros [r ->]. rewrite rel_app. reflexivity. Qed.

Lemma file_at_lookup (s : fs) (p : Path) (f : file) :
  file_at s p = Some f <-> lookup s p = Some (File f).
Proof.
  unfold file_at. destruct (lookup s p) as [[g|b]|]; split; congruence.
Qed.

Lemma old_entries_In (s : fs) (clk : nat -> Z) (root : Path) (c : Z) (e : old_file) :
  forall items n,
    In e (old_entries s clk root c items n) ->
    exists p f, In p items /\ old_path e = rel root p /\
                file_at s p = Some f /\ (mtime f < c)%Z /\ old_size e = size_of f.
Proof.
  induction items as [|p items IH]; simpl; intros n H; [tauto|].
  destruct (file_at s p) as [f|] eqn:E.
  - destruct (mtime f <? c)%Z eqn:Eold.
    + destruct H as [<-|H].
      * exists p, f. simpl. apply Z.ltb_lt in Eold. auto.
      * destruct (IH _ H) as (q & g & ? & ? & ? & ? & ?). exists q, g. auto.
    + destruct (IH _ H) as (q & g & ? & ? & ? & ? & ?). exists q, g. auto.
  - destruct (IH _ H) as (q & g & ? & ? & ? & ? & ?). exists q, g. auto.
Qed.

Lemma old_entries_listed (s : fs) (clk : nat -> Z) (root : Path) (c : Z)
  (p : Path) (f : file) :
  file_at s p = Some f -> (mtime f < c)%Z ->
  forall items n,
    In p items ->
    In (rel root p) (map old_path (old_entries s clk root c items n)).
Proof.
  intros Hf Hold. induction items as [|q items IH]; simpl; intros n H; [tauto|].
  destruct H as [->|H].
  - rewrite Hf. apply Z.ltb_lt in Hold. rewrite Hold. simpl. auto.
  - destruct (file_at s q) as [g|]; [destruct (mtime g <? c)%Z|]; simpl; auto.
Qed.

Lemma unlinked_In (delete : bool) (s : fs) (listed : list Path) (p : Path) :
  In p (unlinked delete s listed) ->
  delete = true /\ In p listed /\ dir_writable s (PurePath.parent p) = true.
Proof.
  unfold unlinked. destruct delete; [|simpl; tauto].
  intros H. apply filter_In in H. tauto.
Qed.

Lemma lookup_prune_out (D : list Path) (s : fs) (p : Path) :
  ~ In p D -> lookup (prune D s) p = lookup s p.
Proof.
  intros H. rewrite lookup_prune. apply mem_not_In in H. rewrite H. reflexivity.
Qed.

Lemma expected_duplicates_In (s : fs) (root : Path) (groups : dict (list Path))
  (e : duplicate) :
  In e (expected_duplicates s root groups) ->
  exists d, In d (duplicate_paths s groups) /\
            dup_file e = rel root d /\ dup_size e = size_at s d.
Proof.
  unfold expected_duplicates, duplicate_paths.
  induction groups as [|g groups IH]; simpl; [tauto|].
  rewrite in_app_iff. intros [H|H].
  - unfold group_duplicates in H. apply in_map_iff in H.
    destruct H as (d & <- & Hd). exists d. simpl. rewrite in_app_iff. auto.
  - destruct (IH H) as (d & Hd & ? & ?). exists d. rewrite in_app_iff. auto.
Qed.

Lemma expected_duplicates_sizes (s : fs) (root : Path) (groups : dict (list Path)) :
  map dup_size (expected_duplicates s root groups)
  = map (size_at s) (duplicate_paths s groups).
Proof.
  unfold expected_duplicates, duplicate_paths.
  induction groups as [|g groups IH]; simpl; auto.
  rewrite !map_app, IH. f_equal.
  unfold group_duplicates. rewrite map_map. reflexivity.
Qed.

Lemma duplicate_paths_members (s : fs) (groups : dict (list Path)) (d : Path) :
  In d (duplicate_paths s groups) -> In d (flat_map snd groups).
Proof.
  unfold duplicate_paths. induction groups as [|g groups IH]; simpl; [tauto|].
  rewrite !in_app_iff. intros [H|H]; [left | right; auto].
  unfold group_duplicate_paths in H.
  destruct (1 <? List.length (snd g)); [|simpl in H; tauto].
  apply (Permutation_in d (by_mtime_desc_perm s (snd g))).
  destruct (by_mtime_desc s (snd g)); simpl in *; auto.
Qed.


Lemma unique_pathsb_ok (s : fs) : unique_pathsb (keys s) = true -> unique_paths s.
Proof.
  unfold unique_paths. induction (keys s) as [|p l IH]; simpl; intros H.
  - constructor.
  - apply andb_true_iff in H. destruct H as [H1 H2]. constructor; auto.
    apply negb_true_iff in H1. apply mem_not_In in H1. exact H1.
Qed.


(* ================================================================== *)
(** ** The cutoff *)
(* ================================================================== *)

Lemma cutoff_value (days_old t : Z) :
  let c := (t - days_old * Calendar.US_PER_DAY)%Z in
  (Z.abs days_old <= Calendar.MAX_DELTA_DAYS)%Z ->
  (0 <= c <= Calendar.DATETIME_MAX)%Z ->
  Calendar.timedelta_days days_old = Some (days_old * Calendar.US_PER_DAY)%Z /\
  Calendar.datetime_sub t (days_old * Calendar.US_PER_DAY)%Z = Some c.
Proof.
  intros c H1 [H2 H3]. unfold Calendar.timedelta_days, Calendar.datetime_sub.
  fold c. apply Z.leb_le in H1, H2, H3. rewrite H1, H2, H3. auto.
Qed.

Lemma descends_opened (s s1 : fs) (ap : Path) (t : Z) :
  opened s ap t = Some s1 ->
  forall relp root,
    descends s root relp -> root ++ relp <> ap -> descends s1 root relp.
Proof.
  intros Hopen. destruct (opened_lookup _ _ _ _ Hopen) as [Hap Hother].
  assert (forall q b, lookup s q = Some (Dir b) -> q <> ap) as Hdir.
  { intros q b Hq ->. unfold opened in Hopen. rewrite Hq in Hopen. discriminate. }
  induction relp as [|x relp IH]; intros root H Hne; simpl in *; [contradiction|].
  destruct relp as [|y relp].
  - destruct H as [n Hn]. exists n. rewrite Hother; auto.
  - destruct H as [[b Hb] Hrest]. split.
    + exists b. rewrite Hother; eauto.
    + apply IH; auto. rewrite <- app_assoc. exact Hne.
Qed.



(* ================================================================== *)
(** ** What the archiver counts and what it removes *)
(* ================================================================== *)

Lemma size_at_content (s : fs) (q : Path) :
  size_at s q = Z.of_nat (List.length (content_at s q)).
Proof.
  unfold size_at, content_at, size_of. destruct (file_at s q); reflexivity.
Qed.

Lemma dir_writable_opened (s s1 : fs) (ap : Path) (t : Z) (d : Path) :
  opened s ap t = Some s1 -> dir_writable s1 d = dir_writable s d.
Proof.
  intros Hopen. destruct (opened_lookup _ _ _ _ Hopen) as [Hap Hother].
  unfold dir_writable. destruct (PurePath.eqb d ap) eqn:E.
  - apply path_eqb_eq in E; subst d. rewrite Hap.
    unfold opened in Hopen.
    destruct (lookup s ap) as [[g|b]|]; try discriminate; reflexivity.
  - apply path_eqb_neq in E. rewrite Hother; auto.
Qed.

Lemma qualifies_opened (s s1 : fs) (ap : Path) (t c : Z) (p : Path) :
  opened s ap t = Some s1 -> qualifies s1 ap c p = qualifies s ap c p.
Proof.
  intros Hopen. destruct (opened_lookup _ _ _ _ Hopen) as [Hap Hother].
  unfold qualifies, file_at. destruct (PurePath.eqb p ap) eqn:E.
  - apply path_eqb_eq in E; subst p. rewrite Hap. simpl.
    destruct (lookup s ap) as [[g|b]|]; reflexivity.
  - apply path_eqb_neq in E. rewrite Hother; auto.
Qed.

Lemma qualifies_spec (s : fs) (ap : Path) (c : Z) (p : Path) (f : file) :
  qualifies s ap c p = Some f <->
  file_at s p = Some f /\ p <> ap /\ (mtime f < c)%Z.
Proof.
  unfold qualifies. destruct (file_at s p) as [g|]; [|split; [discriminate | tauto]].
  destruct (PurePath.eqb p ap) eqn:E1; simpl.
  - apply path_eqb_eq in E1. split; [discriminate | tauto].
  - apply path_eqb_neq in E1. destruct (mtime g <? c)%Z eqn:E2.
    + apply Z.ltb_lt in E2. split.
      * intros H; inversion H; subst; auto.
      * intros [H _]. exact H.
    + apply Z.ltb_ge in E2. split; [discriminate|].
      intros [H [_ Hlt]]. inversion H; subst. lia.
Qed.




(* ================================================================== *)
(** ** The container *)
(* ================================================================== *)

Lemma filter_none {X} (g : X -> bool) (l : list X) :
  (forall x, In x l -> g x = false) -> filter g l = [].
Proof.
  induction l as [|x l IH]; simpl; intros H; auto.
  rewrite (H x (or_introl eq_refl)). apply IH. intros y Hy. apply H. right; auto.
Qed.



(* ================================================================== *)
(** ** Which copy is kept *)
(* ================================================================== *)

Lemma dict_get_nonempty {V} (k : string) (d : dict (list V)) :
  dict_get k d <> [] -> In (k, dict_get k d) d.
Proof.
  induction d as [|[k0 vs] d IH]; simpl; intros H; [congruence|].
  destruct (String.eqb k0 k) eqn:E.
  - apply String.eqb_eq in E; subst. left; reflexivity.
  - right. apply IH; assumption.
Qed.

Section GroupsByDigest.

Context {L : Library}.
Variable s : fs.

Lemma hash_fold_get (h : string) (items : list Path) :
  forall d, dict_get h (fold_left (hash_step s) items d)
            = dict_get h d ++ with_digest s h items.
Proof.
  induction items as [|p items IH]; intros d; simpl.
  - rewrite app_nil_r. reflexivity.
  - rewrite IH. unfold hash_step at 1.
    destruct (digest_at s p) as [h'|]; [|reflexivity].
    rewrite dict_get_append. destruct (String.eqb h' h).
    + rewrite <- app_assoc. reflexivity.
    + reflexivity.
Qed.

Lemma hash_fold_keys (items : list Path) :
  forall d, NoDup (map fst d) -> NoDup (map fst (fold_left (hash_step s) items d)).
Proof.
  induction items as [|p items IH]; intros d Hd; simpl; auto.
  apply IH. unfold hash_step. destruct (digest_at s p); auto.
  apply dict_append_NoDup; assumption.
Qed.

Lemma hash_groups_get (h : string) (items : list Path) :
  dict_get h (hash_groups s items) = with_digest s h items.
Proof. unfold hash_groups. rewrite hash_fold_get. reflexivity. Qed.

Lemma hash_groups_group (h : string) (ms items : list Path) :
  In (h, ms) (hash_groups s items) -> ms = with_digest s h items.
Proof.
  intros H. rewrite <- hash_groups_get. symmetry. apply dict_get_In; auto.
  apply hash_fold_keys. constructor.
Qed.

Lemma with_digest_In (h : string) (items : list Path) (p : Path) :
  In p (with_digest s h items) <-> In p items /\ digest_at s p = Some h.
Proof.
  unfold with_digest. rewrite filter_In.
  destruct (digest_at s p) as [h'|]; split; intros [H1 H2]; split; auto;
    try discriminate.
  - apply String.eqb_eq in H2. congruence.
  - inversion H2; subst. apply String.eqb_refl.
Qed.

Lemma duplicate_paths_group (groups : dict (list Path)) (d : Path) :
  In d (duplicate_paths s groups) ->
  exists h ms, In (h, ms) groups /\ In d (group_duplicate_paths s ms).
Proof.
  unfold duplicate_paths. induction groups as [|[h ms] groups IH]; simpl; [tauto|].
  rewrite in_app_iff. intros [H|H].
  - exists h, ms. auto.
  - destruct (IH H) as (h' & ms' & ? & ?). exists h', ms'. auto.
Qed.

Lemma group_duplicates_reported (root : Path) (groups : dict (list Path))
  (h : string) (ms : list Path) (e : duplicate) :
  In (h, ms) groups -> In e (group_duplicates s root ms) ->
  In e (expected_duplicates s root groups).
Proof.
  intros Hg He. unfold expected_duplicates. apply in_flat_map.
  exists (h, ms). auto.
Qed.

(** The election inside one group of two members or more. *)
Lemma election (members : list Path) :
  NoDup members -> 2 <= List.length members ->
  exists before keep after,
    members = before ++ keep :: after /\
    (forall m, In m before -> (mtime_at s m < mtime_at s keep)%Z) /\
    (forall m, In m after -> (mtime_at s m <= mtime_at s keep)%Z) /\
    group_keep s members = keep /\
    (forall m, In m (group_duplicate_paths s members) <-> In m (before ++ after)).
Proof.
  intros Hnd Hlen.
  set (l := map (fun p => (mtime_at s p, p)) members).
  assert (l <> []) as Hne.
  { intros E. apply (f_equal (@List.length _)) in E. unfold l in E.
    rewrite length_map in E. simpl in E. lia. }
  destruct (sort_desc_head l Hne) as (x & rest & l1 & l2 & Hs & Hl & H1 & H2 & Hp).
  assert (Forall (fun y => fst y = mtime_at s (snd y)) l) as Hkeys.
  { unfold l. apply Forall_forall. intros y Hy. apply in_map_iff in Hy.
    destruct Hy as (p & <- & _). reflexivity. }
  rewrite Hl in Hkeys. apply Forall_app in Hkeys. destruct Hkeys as [Hk1 Hk2].
  inversion Hk2 as [|? ? Hkx Hk2']; subst.
  assert (members = map snd l1 ++ snd x :: map snd l2) as Hm.
  { transitivity (map snd l).
    - unfold l. rewrite map_map. simpl. symmetry. apply map_id.
    - rewrite Hl, map_app. reflexivity. }
  exists (map snd l1), (snd x), (map snd l2).
  split; [exact Hm|]. split; [|split; [|split]].
  - intros m Hin. apply in_map_iff in Hin. destruct Hin as (y & <- & Hy).
    rewrite Forall_forall in H1, Hk1.
    rewrite <- (Hk1 y Hy), <- Hkx. apply H1; assumption.
  - intros m Hin. apply in_map_iff in Hin. destruct Hin as (y & <- & Hy).
    rewrite Forall_forall in H2, Hk2'.
    rewrite <- (Hk2' y Hy), <- Hkx. apply H2; assumption.
  - unfold group_keep, by_mtime_desc. fold l. rewrite Hs. reflexivity.
  - intros m. unfold group_duplicate_paths, by_mtime_desc. fold l.
    assert ((1 <? List.length members) = true) as -> by (apply Nat.ltb_lt; lia).
    rewrite Hs. simpl. rewrite <- map_app. split; intros Hin.
    + eapply Permutation_in; [|exact Hin]. apply Permutation_map. exact Hp.
    + eapply Permutation_in; [|exact Hin]. apply Permutation_map.
      symmetry. exact Hp.
Qed.

End GroupsByDigest.



(* ================================================================== *)
(** ** Dry runs *)
(* ================================================================== *)

(** *** Computations that leave the files alone *)

Lemma keeps_ret {A} (a : A) : keeps_files (ret a).
Proof. intros w. reflexivity. Qed.

Lemma keeps_raise {A} (e : exn) : keeps_files (@raise A e).
Proof. intros w. reflexivity. Qed.

Lemma keeps_bind {A B} (m : M A) (k : A -> M B) :
  keeps_files m -> (forall a, keeps_files (k a)) -> keeps_files (bind m k).
Proof.
  intros Hm Hk w. unfold bind. specialize (Hm w).
  destruct (m w) as [[a|e|] w']; simpl in *; auto.
  rewrite Hk. exact Hm.
Qed.

Lemma keeps_try {A} (m : M A) (h : exn -> M A) :
  keeps_files m -> (forall e, keeps_files (h e)) -> keeps_files (try_except m h).
Proof.
  intros Hm Hh w. unfold try_except. specialize (Hm w).
  destruct (m w) as [[a|e|] w']; simpl in *; auto.
  rewrite Hh. exact Hm.
Qed.

Lemma keeps_get_files : keeps_files get_files.
Proof. intros w. reflexivity. Qed.

Lemma keeps_now : keeps_files now.
Proof. intros w. reflexivity. Qed.

Lemma for_each_keeps {A X} (body : X -> A -> M A) (xs : list X) (acc : A) :
  (forall x a, keeps_files (body x a)) -> keeps_files (for_each body xs acc).
Proof. intros Hb w. apply for_each_frame. intros x a w'. apply Hb. Qed.

Lemma for_rglob_keeps {A} (body : Path -> A -> M A) (root : Path) (acc : A) :
  (forall p a, keeps_files (body p a)) -> keeps_files (for_rglob body root acc).
Proof. intros Hb w. apply for_rglob_frame. intros p a w'. apply Hb. Qed.

Create HintDb keeps.

#[local] Hint Resolve keeps_ret keeps_raise keeps_get_files keeps_now : keeps.

(** Splits a computation along its binds, handlers and case
    distinctions and closes the leaves with the hints of [keeps]. *)
Ltac keeps :=
  repeat first
    [ solve [auto with keeps]
    | apply for_each_keeps; intros
    | apply for_rglob_keeps; intros
    | apply keeps_bind; [|intros]
    | apply keeps_try; [|intros]
    | match goal with
      | |- keeps_files (if ?b then _ else _) => destruct b
      | |- keeps_files (match ?x with _ => _ end) => destruct x
      end ].

Lemma keeps_path_exists (p : Path) : keeps_files (path_exists p).
Proof. unfold path_exists. keeps. Qed.

Lemma keeps_is_file (p : Path) : keeps_files (is_file p).
Proof. unfold is_file. keeps. Qed.

Lemma keeps_stat (p : Path) : keeps_files (stat p).
Proof. unfold stat. keeps. Qed.

Lemma keeps_read_bytes (p : Path) : keeps_files (read_bytes p).
Proof. unfold read_bytes. keeps. Qed.

Lemma keeps_relative_to (p base : Path) : keeps_files (relative_to p base).
Proof. unfold relative_to. keeps. Qed.

Lemma keeps_cutoff (days_old : Z) : keeps_files (cutoff days_old).
Proof. unfold cutoff. keeps. Qed.

#[local] Hint Resolve keeps_path_exists keeps_is_file keeps_stat
  keeps_read_bytes keeps_relative_to keeps_cutoff : keeps.

Lemma keeps_mtime_keys (l : list Path) : keeps_files (mtime_keys l).
Proof. induction l as [|x l IH]; simpl; keeps. Qed.

#[local] Hint Resolve keeps_mtime_keys : keeps.

Section DryBodies.

Context {L : Library}.

Lemma keeps_get_file_hash (p : Path) : keeps_files (get_file_hash p).
Proof. unfold get_file_hash. keeps. Qed.

#[local] Hint Resolve keeps_get_file_hash : keeps.

Lemma keeps_hash_body (item : Path) (d : dict (list Path)) :
  keeps_files (hash_body item d).
Proof. unfold hash_body. keeps. Qed.

Lemma keeps_duplicate_body (path keep_file dup : Path) (acc : duplicates_acc) :
  keeps_files (duplicate_body path false keep_file dup acc).
Proof. unfold duplicate_body. keeps. Qed.

#[local] Hint Resolve keeps_hash_body keeps_duplicate_body : keeps.

Lemma keeps_group_body (path : Path) (group : string * list Path)
  (acc : duplicates_acc) :
  keeps_files (group_body path false group acc).
Proof.
  unfold group_body, sort_by_mtime_desc. keeps.
Qed.

Lemma keeps_clean_body (path : Path) (cutoff_date : Z) (item : Path)
  (acc : clean_acc) :
  keeps_files (clean_body path cutoff_date false item acc).
Proof. unfold clean_body. keeps. Qed.

Lemma keeps_organize_by_type_body (path item : Path) (acc : organize_acc) :
  keeps_files (organize_by_type_body path true item acc).
Proof. unfold organize_by_type_body. cbn [negb]. keeps. Qed.

Lemma keeps_organize_by_date_body (path item : Path) (acc : organize_acc) :
  keeps_files (organize_by_date_body path true item acc).
Proof. unfold organize_by_date_body. cbn [negb]. keeps. Qed.

#[local] Hint Resolve keeps_group_body keeps_clean_body
  keeps_organize_by_type_body keeps_organize_by_date_body : keeps.

(** The four calls that only look. *)
Lemma keeps_organize_by_type_sync (downloads_path : option Path) :
  keeps_files (organize_by_type_sync downloads_path true).
Proof.
  unfold organize_by_type_sync. keeps.
Qed.

Lemma keeps_organize_by_date_sync (downloads_path : option Path) :
  keeps_files (organize_by_date_sync downloads_path true).
Proof.
  unfold organize_by_date_sync. keeps.
Qed.

Lemma keeps_find_duplicates_sync (downloads_path : option Path) :
  keeps_files (find_duplicates_sync downloads_path false).
Proof.
  unfold find_duplicates_sync. keeps.
Qed.

Lemma keeps_clean_old_files_sync (downloads_path : option Path) (days_old : Z) :
  keeps_files (clean_old_files_sync downloads_path days_old false).
Proof.
  unfold clean_old_files_sync. keeps.
Qed.

End DryBodies.

(** *** What a dry run reports *)

Lemma keeps_tidy {A} (body : Path -> A -> M A) :
  (forall p a, keeps_files (body p a)) -> tidy body.
Proof. intros H p a w. left. apply H. Qed.

Lemma is_file_at (p : Path) (w : world) :
  is_file p w = (Val (is_some (file_at (files w) p)), w).
Proof.
  unfold is_file, file_at. mred.
  destruct (lookup (files w) p) as [[f|b]|]; reflexivity.
Qed.

(** A loop whose body only notes the misplaced items ends with the
    planned moves and has touched nothing. *)
Lemma dry_loop (target : Path -> string * Path) (s : fs)
  (body : Path -> organize_acc -> M organize_acc) :
  (forall item acc w, files w = s ->
     body item acc w =
     (Val (if misplaced target s item
           then (dict_append (fst (target item)) (PurePath.name item) (fst acc),
                 snd acc)
           else acc), w)) ->
  forall items acc w, files w = s ->
    for_each body items acc w =
    (Val (fold_left
            (fun d item =>
               if misplaced target s item
               then dict_append (fst (target item)) (PurePath.name item) d
               else d)
            items (fst acc), snd acc), w).
Proof.
  intros Hb. induction items as [|item items IH]; intros [d es] w Hw; simpl.
  - reflexivity.
  - rewrite (bind_val _ _ _ _ _ (Hb item (d, es) w Hw)).
    destruct (misplaced target s item); simpl; rewrite (IH _ w Hw); reflexivity.
Qed.

Section DryReports.

Context {L : Library}.

Lemma organize_by_type_dry (root item : Path) (acc : organize_acc) (w : world) :
  organize_by_type_body root true item acc w =
  (Val (if misplaced (type_target root) (files w) item
        then (dict_append (fst (type_target root item)) (PurePath.name item)
                (fst acc), snd acc)
        else acc), w).
Proof.
  unfold organize_by_type_body, misplaced, type_target. cbn [negb fst snd].
  rewrite (bind_val _ _ _ _ _ (is_file_at item w)).
  destruct (is_some (file_at (files w) item)); [|reflexivity].
  cbn [andb].
  destruct (PurePath.eqb _ _); reflexivity.
Qed.

Lemma organize_by_date_dry (root item : Path) (acc : organize_acc) (w : world) :
  organize_by_date_body root true item acc w =
  (Val (if misplaced (date_target (files w) root) (files w) item
        then (dict_append (fst (date_target (files w) root item))
                (PurePath.name item) (fst acc), snd acc)
        else acc), w).
Proof.
  unfold organize_by_date_body, misplaced, date_target, mtime_at. cbn [negb].
  rewrite (bind_val _ _ _ _ _ (is_file_at item w)).
  unfold file_at.
  destruct (lookup (files w) item) as [[f|b]|] eqn:E; try reflexivity.
  cbn [is_some andb].
  rewrite (bind_val _ _ _ _ _ (stat_file _ _ _ E)). cbn [st_mtime].
  destruct (Calendar.strftime_Y_mB (mtime f)) as [year month]. cbn [fst snd].
  destruct (PurePath.eqb _ _); reflexivity.
Qed.

Lemma organize_by_type_dry_run (downloads_path : option Path) (w : world)
  (n : node) :
  let root := get_downloads_path downloads_path in
  unique_paths (files w) ->
  lookup (files w) root = Some n ->
  organize_by_type_sync downloads_path true w =
  (Val (Ok (organize_report_of
              (planned_moves (type_target root) (files w)
                 (rglob_items (files w) root), []) true)), w).
Proof.
  intros root Hu Hroot. unfold organize_by_type_sync. fold root.
  rewrite (bind_val _ _ _ _ _ (path_exists_present _ _ _ Hroot)). cbn [negb].
  unfold bind. rewrite for_rglob_items;
    [|apply keeps_tidy; intros; apply keeps_organize_by_type_body | assumption].
  rewrite (dry_loop (type_target root) (files w)); [reflexivity| |reflexivity].
  intros item acc w' <-. apply organize_by_type_dry.
Qed.

Lemma organize_by_date_dry_run (downloads_path : option Path) (w : world)
  (n : node) :
  let root := get_downloads_path downloads_path in
  unique_paths (files w) ->
  lookup (files w) root = Some n ->
  organize_by_date_sync downloads_path true w =
  (Val (Ok (organize_report_of
              (planned_moves (date_target (files w) root) (files w)
                 (rglob_items (files w) root), []) true)), w).
Proof.
  intros root Hu Hroot. unfold organize_by_date_sync. fold root.
  rewrite (bind_val _ _ _ _ _ (path_exists_present _ _ _ Hroot)). cbn [negb].
  unfold bind. rewrite for_rglob_items;
    [|apply keeps_tidy; intros; apply keeps_organize_by_date_body | assumption].
  rewrite (dry_loop (date_target (files w) root) (files w));
    [reflexivity| |reflexivity].
  intros item acc w' <-. apply organize_by_date_dry.
Qed.

End DryReports.

(** C1.  The organizers called with [dry_run = true] and the duplicate
    finder and the cleaner called with their delete flag [false] leave
    every entry of the file system as it was: names, contents and
    modification times.  This holds however the call ends.  On a file
    system without double entries whose root exists, each of the calls
    moreover ends with a report of what it would do: the organizers
    list the misplaced files under the folder each would go to, the
    finder lists the duplicates it would remove, and the cleaner, for a
    cutoff the calendar can express, lists the files older than it. *)
Theorem dry_run_changes_nothing {L : Library}
  (downloads_path : option Path) (days_old : Z) (w : world) :
  let root := get_downloads_path downloads_path in
  let s := files w in
  let items := rglob_items s root in
  (files (snd (organize_by_type_sync downloads_path true w)) = s /\
   files (snd (organize_by_date_sync downloads_path true w)) = s /\
   files (snd (find_duplicates_sync downloads_path false w)) = s /\
   files (snd (clean_old_files_sync downloads_path days_old false w)) = s) /\
  (forall n,
      unique_paths s ->
      lookup s root = Some n ->
      fst (organize_by_type_sync downloads_path true w) =
      Val (Ok (organize_report_of
                 (planned_moves (type_target root) s items, []) true)) /\
      fst (organize_by_date_sync downloads_path true w) =
      Val (Ok (organize_report_of
                 (planned_moves (date_target s root) s items, []) true)) /\
      (let groups := hash_groups s items in
       let found := expected_duplicates s root groups in
       fst (find_duplicates_sync downloads_path false w) =
       Val (Ok (mkDuplicates found (List.length found)
                  (MB (sum_Z (map (size_at s) (duplicate_paths s groups))))
                  false))) /\
      (let c := (clock w (ticks w) - days_old * Calendar.US_PER_DAY)%Z in
       let olds := old_entries s (clock w) root c items (S (ticks w)) in
       (Z.abs days_old <= Calendar.MAX_DELTA_DAYS)%Z ->
       (0 <= c <= Calendar.DATETIME_MAX)%Z ->
       fst (clean_old_files_sync downloads_path days_old false w) =
       Val (Ok (mkClean olds (List.length olds)
                  (MB (sum_Z (map old_size olds))) false days_old)))).
Proof.
  intros root s items. split.
  - repeat split.
    + apply keeps_organize_by_type_sync.
    + apply keeps_organize_by_date_sync.
    + apply keeps_find_duplicates_sync.
    + apply keeps_clean_old_files_sync.
  - intros n Hu Hroot. repeat split.
    + unfold s, items, root.
      rewrite (organize_by_type_dry_run downloads_path w n Hu Hroot). reflexivity.
    + unfold s, items, root.
      rewrite (organize_by_date_dry_run downloads_path w n Hu Hroot). reflexivity.
    + unfold s, items, root.
      rewrite (find_duplicates_run downloads_path false w n Hu Hroot). reflexivity.
    + intros c olds Hdays Hc.
      destruct (cutoff_value days_old (clock w (ticks w)) Hdays Hc) as [Hd Hs].
      unfold s, items, root.
      rewrite (clean_old_files_run downloads_path days_old false w _ _ n
                 Hu Hroot Hd Hs).
      reflexivity.
Qed.

Lemma dry_run_changes_nothing_witness :
  let w := boot tree_sub in
  let dp := Some ["dl"%string] in
  unique_paths (files w) /\
  lookup (files w) (@get_downloads_path sample_library dp) = Some (Dir true) /\
  (Z.abs 90 <= Calendar.MAX_DELTA_DAYS)%Z /\
  (0 <= clock w (ticks w) - 90 * Calendar.US_PER_DAY <= Calendar.DATETIME_MAX)%Z /\
  files (snd (@organize_by_type_sync sample_library dp true w)) = tree_sub /\
  files (snd (@organize_by_date_sync sample_library dp true w)) = tree_sub /\
  files (snd (@find_duplicates_sync sample_library dp false w)) = tree_sub /\
  files (snd (@clean_old_files_sync sample_library dp 90 false w)) = tree_sub /\
  fst (@organize_by_type_sync sample_library dp true w) =
  Val (Ok (mkOrganize [("Images", ["a.png"]); ("Documents", ["b.txt"])]%string
             2 2 [] true)) /\
  fst (@organize_by_date_sync sample_library dp true w) =
  Val (Ok (mkOrganize [("2021/07-July", ["a.png"; "b.txt"])]%string
             2 1 [] true)) /\
  fst (@find_duplicates_sync sample_library dp false w) =
  Val (Ok (mkDuplicates [] 0 (MB 0) false)) /\
  fst (@clean_old_files_sync sample_library dp 90 false w) =
  Val (Ok (mkClean [mkOldFile ["a.png"%string] 945 7;
                    mkOldFile ["old"; "b.txt"]%string 944 4]
             2 (MB 11) false 90)).
Proof.
  intros w dp.
  assert (unique_paths (files w)) as Hu by (apply unique_pathsb_ok; reflexivity).
  assert (Z.abs 90 <= Calendar.MAX_DELTA_DAYS)%Z as Hdays
      by (vm_compute; discriminate).
  assert (0 <= clock w (ticks w) - 90 * Calendar.US_PER_DAY
          <= Calendar.DATETIME_MAX)%Z as Hrange
      by (vm_compute; split; discriminate).
  do 4 (split; [first [assumption | reflexivity]|]).
  destruct (@dry_run_changes_nothing sample_library dp 90%Z w)
    as [(Ht & Hd & Hf & Hc) Hrep].
  destruct (Hrep (Dir true) Hu eq_refl) as (Rt & Rd & Rf & Rc).
  specialize (Rc Hdays Hrange).
  split; [exact Ht|]. split; [exact Hd|]. split; [exact Hf|].
  split; [exact Hc|].
  rewrite Rt, Rd, Rf, Rc. repeat split.
Defined.

(* ================================================================== *)
(** ** The category of a numbered name *)
(* ================================================================== *)

Lemma rsplit_dot_app (x y : string) :
  PurePath.rsplit_dot y = None ->
  PurePath.rsplit_dot (x ++ y) =
  match PurePath.rsplit_dot x with
  | Some (a, b) => Some (a, (b ++ y)%string)
  | None => None
  end.
Proof.
  intros Hy. induction x as [|c x IH]; simpl; [assumption|].
  rewrite IH. destruct (PurePath.rsplit_dot x) as [[a b]|]; [reflexivity|].
  destruct (Ascii.eqb c "."); reflexivity.
Qed.

(** What follows the last dot has no dot. *)
Lemma rsplit_dot_tail (s a b : string) :
  PurePath.rsplit_dot s = Some (a, b) -> PurePath.rsplit_dot b = None.
Proof.
  revert a b. induction s as [|c s IH]; simpl; intros a b H; [discriminate|].
  destruct (PurePath.rsplit_dot s) as [[a' b']|] eqn:E.
  - inversion H; subst. eapply IH; reflexivity.
  - destruct (Ascii.eqb c "."); inversion H; subst. exact E.
Qed.

Lemma rsplit_dot_last (x b : string) :
  PurePath.rsplit_dot b = None ->
  PurePath.rsplit_dot (x ++ String "." b) = Some (x, b).
Proof.
  intros Hb. induction x as [|c x IH]; simpl.
  - rewrite Hb. reflexivity.
  - rewrite IH. reflexivity.
Qed.

Lemma string_of_uint_no_dot (u : Decimal.uint) :
  PurePath.rsplit_dot (NilEmpty.string_of_uint u) = None.
Proof. induction u; simpl; try rewrite IHu; reflexivity. Qed.

Lemma counter_no_dot (k : nat) (t : string) :
  PurePath.rsplit_dot t = None ->
  PurePath.rsplit_dot ("_" ++ str_of_nat k ++ t) = None.
Proof.
  intros Ht. simpl. unfold str_of_nat.
  rewrite rsplit_dot_app, string_of_uint_no_dot by assumption. reflexivity.
Qed.

Lemma nonempty_app (a b : string) :
  PurePath.nonempty a = true -> PurePath.nonempty (a ++ b) = true.
Proof. destruct a; simpl; intros H; [discriminate | reflexivity]. Qed.

Lemma append_assoc (a b c : string) : (a ++ b ++ c = (a ++ b) ++ c)%string.
Proof. induction a; simpl; congruence. Qed.

(** No extension of the table begins with a dot and an underscore. *)
Lemma underscore_is_other (t : string) :
  lookup_category (PurePath.lower (String "." (String "_" t))) FILE_CATEGORIES = None.
Proof. reflexivity. Qed.

(** The numbered name falls into the category of the name: it keeps a
    suffix, and where there is none, the name it makes has none or one
    that no category knows. *)
Lemma numbered_category (nm : string) (k : nat) :
  let nm' := (PurePath.stem_of nm ++ "_" ++ str_of_nat k ++ PurePath.suffix_of nm)%string in
  lookup_category (PurePath.lower (PurePath.suffix_of nm')) FILE_CATEGORIES =
  lookup_category (PurePath.lower (PurePath.suffix_of nm)) FILE_CATEGORIES.
Proof.
  cbv zeta. destruct (PurePath.split_ext nm) as [[a b]|] eqn:S.
  - (* a suffix: it is the suffix of the numbered name *)
    assert (PurePath.stem_of nm = a) as ->
        by (unfold PurePath.stem_of; rewrite S; reflexivity).
    assert (PurePath.suffix_of nm = String "." b) as ->
        by (unfold PurePath.suffix_of; rewrite S; reflexivity).
    unfold PurePath.split_ext in S.
    destruct (PurePath.rsplit_dot nm) as [[a' b']|] eqn:E; [|discriminate].
    destruct (PurePath.nonempty a' && PurePath.nonempty b') eqn:G; [|discriminate].
    inversion S; subst a' b'.
    apply andb_prop in G. destruct G as [Ga Gb].
    pose proof (rsplit_dot_tail _ _ _ E) as Hb.
    replace (a ++ "_" ++ str_of_nat k ++ String "." b)%string
      with ((a ++ "_" ++ str_of_nat k) ++ String "." b)%string.
    + unfold PurePath.suffix_of, PurePath.split_ext.
      rewrite rsplit_dot_last by assumption.
      rewrite nonempty_app, Gb by assumption. reflexivity.
    + rewrite <- append_assoc. reflexivity.
  - (* no suffix: no dot, a leading dot or a trailing dot *)
    assert (PurePath.stem_of nm = nm) as ->
        by (unfold PurePath.stem_of; rewrite S; reflexivity).
    assert (PurePath.suffix_of nm = EmptyString) as ->
        by (unfold PurePath.suffix_of; rewrite S; reflexivity).
    unfold PurePath.suffix_of at 1. unfold PurePath.split_ext in *.
    rewrite rsplit_dot_app by (apply counter_no_dot; reflexivity).
    destruct (PurePath.rsplit_dot nm) as [[a b]|]; [|reflexivity].
    destruct (PurePath.nonempty a); cbn [andb] in *; [|reflexivity].
    destruct b; [|discriminate]. apply underscore_is_other.
Qed.

Lemma candidate_category (item target_dir : Path) (k : nat) :
  get_category (candidate item target_dir k) = get_category item.
Proof.
  unfold get_category, candidate, PurePath.suffix.
  rewrite name_child. destruct k as [|k]; [reflexivity|].
  unfold numbered, PurePath.stem, PurePath.suffix.
  rewrite numbered_category. reflexivity.
Qed.

(* ================================================================== *)
(** ** Well-formed file systems *)
(* ================================================================== *)

Lemma unique_paths_remove (p : Path) (s : fs) :
  unique_paths s -> unique_paths (remove p s).
Proof. intros H. rewrite remove_prune. apply unique_paths_prune; assumption. Qed.

Lemma unique_paths_replace (p : Path) (n : node) (s : fs) :
  unique_paths s -> unique_paths (add p n (remove p s)).
Proof.
  intros H. apply unique_paths_add.
  - apply unique_paths_remove; assumption.
  - apply lookup_remove_eq.
Qed.

Lemma parents_are_dirsb_ok (s : fs) :
  unique_paths s -> parents_are_dirsb s = true -> parents_are_dirs s.
Proof.
  intros _ H p n Hp Hne. unfold parents_are_dirsb in H.
  rewrite forallb_forall in H. specialize (H _ (lookup_In _ _ _ Hp)).
  simpl in H. destruct p as [|x p]; [congruence|].
  destruct (lookup s (PurePath.parent (x :: p))) as [[g|b]|]; try discriminate.
  eauto.
Qed.

Lemma parent_app_last (c r : Path) (x : string) :
  PurePath.parent (c ++ r ++ [x]) = c ++ r.
Proof. unfold PurePath.parent. rewrite app_assoc. apply removelast_last. Qed.

(** In a well-formed file system every path above an entry is a
    directory. *)
Lemma ancestors_are_dirs (s : fs) :
  parents_are_dirs s ->
  forall r c n, r <> [] -> lookup s (c ++ r) = Some n ->
    exists b, lookup s c = Some (Dir b).
Proof.
  intros Hwf. induction r as [|x r IH] using rev_ind; intros c n Hne Hl.
  - congruence.
  - destruct (Hwf _ _ Hl) as [b Hb].
    { destruct c; destruct r; discriminate. }
    rewrite parent_app_last in Hb.
    destruct r as [|y r].
    + rewrite app_nil_r in Hb. eauto.
    + apply (IH c (Dir b)); [discriminate | assumption].
Qed.

Lemma settles_refl (root : Path) (s : fs) : settles root s s.
Proof. split; eauto. Qed.

Lemma settles_trans (root : Path) (s s' s'' : fs) :
  settles root s s' -> settles root s' s'' -> settles root s s''.
Proof.
  intros [D1 F1] [D2 F2]. split.
  - eauto.
  - intros p f Hp. destruct (F2 _ _ Hp) as [?|[f' Hf']]; auto.
    eapply F1; eassumption.
Qed.

(** Once settled, a path stays settled. *)
Lemma settled_stable (root : Path) (s s' : fs) (p : Path) :
  settles root s s' -> settled root s p -> settled root s' p.
Proof.
  intros [_ F] H f Hp. destruct (F _ _ Hp) as [?|[f' Hf']]; auto.
  eapply H; eassumption.
Qed.

Lemma Forall_settled_stable (root : Path) (s s' : fs) (l : list Path) :
  settles root s s' ->
  Forall (settled root s) l -> Forall (settled root s') l.
Proof.
  intros Hs. apply Forall_impl. intros p. apply settled_stable; assumption.
Qed.

Lemma well_formed_add (s : fs) (p : Path) (n : node) (b : bool) :
  well_formed s ->
  lookup s p = None ->
  lookup s (PurePath.parent p) = Some (Dir b) ->
  well_formed (add p n s).
Proof.
  intros [Hu Hp] Hfree Hpar. split.
  - apply unique_paths_add; assumption.
  - intros q m Hq Hne. rewrite lookup_add in Hq. rewrite lookup_add.
    destruct (lookup s q) as [x|] eqn:E.
    + destruct (Hp _ _ E Hne) as [b' ->]. eauto.
    + destruct (PurePath.eqb p q) eqn:E'; [|discriminate].
      apply path_eqb_eq in E'; subst q. rewrite Hpar. eauto.
Qed.

(** What [mkdir(exist_ok=True)] has done when it returns. *)
Lemma mkdir_exist_ok_spec (p : Path) (w : world) (u : unit) (w' : world) :
  mkdir_exist_ok p w = (Val u, w') ->
  (files w' = files w /\ exists b, lookup (files w) p = Some (Dir b)) \/
  (files w' = add p (Dir true) (files w) /\
   lookup (files w) p = None /\
   exists b, lookup (files w) (PurePath.parent p) = Some (Dir b)).
Proof.
  unfold mkdir_exist_ok, try_except, os_mkdir, is_dir. mred.
  destruct p as [|x p].
  - simpl. destruct (lookup (files w) []) as [[g|b]|] eqn:E; simpl; intros H;
      inversion H; subst; eauto.
  - set (q := x :: p).
    destruct (lookup (files w) (PurePath.parent q)) as [[g|b]|] eqn:Ep; simpl.
    + destruct (lookup (files w) q) as [[g'|b']|] eqn:Eq; simpl; intros H;
        inversion H; subst; eauto.
    + destruct (lookup (files w) q) as [[g'|b']|] eqn:Eq; simpl.
      * intros H. rewrite Eq in H. inversion H.
      * intros H. rewrite Eq in H. inversion H; subst; eauto.
      * destruct b; simpl.
        -- intros H; inversion H; subst. simpl. right. eauto.
        -- intros H. rewrite Eq in H. inversion H.
    + intros H; inversion H.
Qed.

Lemma while_exists_keeps (fuel : nat) (target_dir item target_path : Path)
  (counter : nat) :
  keeps_files (while_exists fuel target_dir item target_path counter).
Proof.
  revert target_path counter.
  induction fuel as [|fuel IH]; intros target_path counter; simpl.
  - intros w; reflexivity.
  - keeps.
Qed.

Lemma shutil_move_unique (src dst : Path) (w : world) :
  unique_paths (files w) -> unique_paths (files (snd (shutil_move src dst w))).
Proof.
  intros Hu.
  assert (forall w0, unique_paths (files w0) ->
            unique_paths (files (snd (os_rename src dst w0)))) as Hrename.
  { intros w0 H0. unfold os_rename. mred.
    destruct (lookup (files w0) src); simpl; auto.
    destruct (lookup (files w0) (PurePath.parent dst)) as [[g|b]|]; simpl; auto.
    destruct (_ && _); simpl; auto.
    apply unique_paths_replace. apply unique_paths_remove. assumption. }
  assert (forall w0, unique_paths (files w0) ->
            unique_paths (files (snd (copy2 src dst w0)))) as Hcopy.
  { intros w0 H0. unfold copy2. mred.
    destruct (lookup (files w0) src) as [[g|b]|]; simpl; auto.
    destruct (readable g); simpl; auto.
    destruct (lookup (files w0) (PurePath.parent dst)) as [[g'|[|]]|]; simpl; auto.
    apply unique_paths_replace. assumption. }
  assert (forall w0, unique_paths (files w0) ->
            unique_paths (files (snd (unlink src w0)))) as Hunlink.
  { intros w0 H0. unfold unlink. mred.
    destruct (lookup (files w0) src) as [[g|b]|]; simpl; auto.
    destruct (dir_writable _ _); simpl; auto.
    apply unique_paths_remove. assumption. }
  unfold shutil_move, try_except.
  specialize (Hrename w Hu).
  destruct (os_rename src dst w) as [[u|e|] w1]; simpl in *; auto.
  unfold bind. specialize (Hcopy w1 Hrename).
  destruct (copy2 src dst w1) as [[u|e'|] w2]; simpl in *; auto.
Qed.

(** [move_into], without the bookkeeping of the counter. *)
Lemma move_into_spec (item target_dir : Path) (w : world) (f : file) :
  lookup (files w) item = Some (File f) ->
  exists k r w',
    move_into item target_dir w = (r, w') /\
    lookup (files w) (candidate item target_dir k) = None /\
    (unique_paths (files w) -> unique_paths (files w')) /\
    (forall q, q <> item -> q <> candidate item target_dir k ->
               lookup (files w') q = lookup (files w) q) /\
    match r with
    | Val _ =>
        lookup (files w') (candidate item target_dir k) = Some (File f) /\
        lookup (files w') item = None
    | Exc _ =>
        lookup (files w') item = Some (File f) /\
        (lookup (files w') (candidate item target_dir k) = None \/
         lookup (files w') (candidate item target_dir k) = Some (File f))
    | Fuel => False
    end.
Proof.
  intros Hitem.
  destruct (free_candidate_exists item target_dir (files w)) as (k & Hk & Hfree & Hbusy).
  destruct (shutil_move_spec item (candidate item target_dir k) w f Hitem Hfree)
    as (r & w' & Hmove & Hframe & Hres).
  assert (while_exists (S (List.length (files w))) target_dir item
            (PurePath.child target_dir (PurePath.name item)) 1 w
          = (Val (candidate item target_dir k), w)) as Hloop.
  { apply (while_exists_spec item target_dir w k Hfree (S (List.length (files w))) 0);
      try lia. intros i _ Hi. apply Hbusy; assumption. }
  assert (unique_paths (files w) -> unique_paths (files w')) as Hu.
  { intros H. pose proof (shutil_move_unique item (candidate item target_dir k) w H) as H'.
    rewrite Hmove in H'. exact H'. }
  exists k. unfold move_into. mred. rewrite Hloop, Hmove.
  destruct r as [u|e|]; [| |contradiction].
  - exists (Val (candidate item target_dir k)), w'. repeat split; auto; tauto.
  - exists (Exc e), w'. repeat split; auto; tauto.
Qed.

(* ================================================================== *)
(** ** One run of [organize_by_type_sync] settles the tree *)
(* ================================================================== *)

Lemma bind_inv {A B} (m : M A) (k : A -> M B) (w : world) (b : B) (w' : world) :
  (x <- m ;; k x) w = (Val b, w') ->
  exists a w1, m w = (Val a, w1) /\ k a w1 = (Val b, w').
Proof.
  unfold bind. destruct (m w) as [[a|e|] w1]; try discriminate. eauto.
Qed.

Lemma scandir_inv (d : Path) (w : world) (es : list (Path * bool)) (w' : world) :
  scandir d w = (Val es, w') -> w' = w /\ es = listdir (files w) d.
Proof.
  unfold scandir. mred.
  destruct (lookup (files w) d) as [[f|b]|]; intros H; inversion H; auto.
Qed.

Lemma listdir_In (s : fs) (d p : Path) (n : node) :
  lookup s p = Some n -> p <> [] -> PurePath.parent p = d ->
  In p (map fst (listdir s d)).
Proof.
  intros Hp Hne Hd. unfold listdir. rewrite map_map. simpl.
  apply in_map_iff. exists (p, n). split; [reflexivity|].
  apply children_spec. simpl. auto using lookup_In.
Qed.

Lemma subdir_In (s : fs) (d c : Path) (b : bool) :
  lookup s c = Some (Dir b) -> c <> [] -> PurePath.parent c = d ->
  In c (map fst (filter snd (listdir s d))).
Proof.
  intros Hc Hne Hd. apply in_map_iff. exists (c, true). split; [reflexivity|].
  apply filter_In. split; [|reflexivity].
  unfold listdir. apply in_map_iff. exists (c, Dir b). simpl. rewrite Hc.
  split; [reflexivity|]. apply children_spec. simpl. auto using lookup_In.
Qed.

Lemma path_eq_dec (p q : Path) : {p = q} + {p <> q}.
Proof. apply list_eq_dec. apply string_dec. Qed.

Section Settling.

Variable root : Path.

(** A file may move to a free place of its own; nothing else changes. *)
Lemma move_settles (s s2 : fs) (item t : Path) (f : file) (b : bool) :
  parents_are_dirs s ->
  lookup s item = Some (File f) ->
  lookup s t = None ->
  lookup s (PurePath.parent t) = Some (Dir b) ->
  placed root t ->
  (forall q, q <> item -> q <> t -> lookup s2 q = lookup s q) ->
  lookup s2 t = Some (File f) \/ lookup s2 t = None ->
  lookup s2 item = Some (File f) \/ lookup s2 item = None ->
  parents_are_dirs s2 /\ settles root s s2.
Proof.
  intros Hwf Hitem Hfree Hpar Hplaced Hframe Ht Hi.
  assert (forall q b', lookup s q = Some (Dir b') -> lookup s2 q = Some (Dir b'))
    as Hdirs.
  { intros q b' Hq. rewrite Hframe; auto; intros ->; congruence. }
  split; [|split].
  - intros q n Hq Hne.
    assert (exists b', lookup s (PurePath.parent q) = Some (Dir b')) as [b' Hb'].
    { destruct (path_eq_dec q t) as [->|Hqt]; [eauto|].
      destruct (path_eq_dec q item) as [->|Hqi]; [eapply Hwf; eauto|].
      rewrite Hframe in Hq by assumption. eapply Hwf; eauto. }
    eauto.
  - exact Hdirs.
  - intros q g Hq.
    destruct (path_eq_dec q t) as [->|Hqt]; [auto|].
    destruct (path_eq_dec q item) as [->|Hqi]; [eauto|].
    rewrite Hframe in Hq by assumption. eauto.
Qed.

(** The body of the loop, when it returns: the file it was handed is
    in its place or has moved there, unless an error was noted. *)
Lemma organize_body_settles (item : Path) (acc : organize_acc) (w : world)
  (acc' : organize_acc) (w' : world) :
  well_formed (files w) ->
  organize_by_type_body root false item acc w = (Val acc', w') ->
  well_formed (files w') /\
  settles root (files w) (files w') /\
  (snd acc' = [] -> snd acc = [] /\ settled root (files w') item).
Proof.
  intros Hwf. unfold organize_by_type_body.
  rewrite (bind_val _ _ _ _ _ (is_file_at item w)). unfold file_at.
  destruct (lookup (files w) item) as [[f|b]|] eqn:E; cbn [is_some].
  - destruct (PurePath.eqb (PurePath.parent item)
                (PurePath.child root (get_category item))) eqn:Ep.
    + intros H; inversion H; subst. split; [assumption|].
      split; [apply settles_refl|]. intros He; split; [assumption|].
      intros g _. apply path_eqb_eq in Ep. exact Ep.
    + cbn [negb]. intros H. apply bind_inv in H.
      destruct H as (u & wm & Hmk & H).
      set (target_dir := PurePath.child root (get_category item)) in *.
      assert (well_formed (files wm) /\ settles root (files w) (files wm) /\
              lookup (files wm) item = Some (File f) /\
              exists b, lookup (files wm) target_dir = Some (Dir b))
        as (Hwfm & Hsm & Hitem & bt & Htarget).
      { destruct (mkdir_exist_ok_spec _ _ _ _ Hmk)
          as [[-> [b Hb]]|(-> & Hnone & b & Hb)].
        - split; [assumption|]. split; [apply settles_refl|].
          split; [assumption|]. eauto.
        - split; [eapply well_formed_add; eauto|]. split; [|split].
          + split.
            * intros p b' Hp. rewrite lookup_add, Hp. reflexivity.
            * intros p g Hp. rewrite lookup_add in Hp. right.
              destruct (lookup (files w) p) as [x|]; [eauto|].
              destruct (PurePath.eqb target_dir p); discriminate.
          + rewrite lookup_add, E. reflexivity.
          + exists true. rewrite lookup_add, Hnone, path_eqb_refl. reflexivity. }
      destruct (move_into_spec item target_dir wm f Hitem)
        as (k & r & w2 & Hmove & Hfree & Hu & Hframe & Hr).
      set (t := candidate item target_dir k) in *.
      assert (PurePath.parent t = target_dir) as Hpt
          by (unfold t, candidate; apply parent_child).
      assert (placed root t) as Hplaced.
      { unfold placed. rewrite Hpt. unfold t. rewrite candidate_category.
        reflexivity. }
      assert (well_formed (files w2) /\ settles root (files wm) (files w2))
        as [Hwf2 Hs2].
      { destruct Hwfm as [Hum Hpm].
        rewrite <- Hpt in Htarget.
        destruct (move_settles (files wm) (files w2) item t f bt
                    Hpm Hitem Hfree Htarget Hplaced Hframe) as [H1 H2].
        - destruct r; intuition.
        - destruct r; intuition.
        - split; [split; auto | assumption]. }
      unfold try_except, bind in H. rewrite Hmove in H.
      destruct r as [tp|e|]; [| |contradiction].
      * inversion H; subst. split; [assumption|].
        split; [eapply settles_trans; eassumption|].
        simpl. intros He; split; [assumption|].
        intros g Hg. destruct Hr as [_ Hgone]. congruence.
      * inversion H; subst. split; [assumption|].
        split; [eapply settles_trans; eassumption|].
        simpl. intros He. apply app_eq_nil in He. destruct He; discriminate.
  - intros H; inversion H; subst. split; [assumption|].
    split; [apply settles_refl|]. intros He; split; [assumption|].
    intros g Hg. congruence.
  - intros H; inversion H; subst. split; [assumption|].
    split; [apply settles_refl|]. intros He; split; [assumption|].
    intros g Hg. congruence.
Qed.

Lemma tidies_seq (Q1 Q2 : Path -> Prop) (st : walk_state) (w : world)
  (st1 : walk_state) (w1 : world) (st' : walk_state) (w' : world) :
  tidies root Q1 st w st1 w1 ->
  tidies root Q2 st1 w1 st' w' ->
  tidies root (fun p => Q1 p \/ Q2 p) st w st' w'.
Proof.
  intros (W1 & S1 & E1 & P1) (W2 & S2 & E2 & P2). split; [assumption|].
  split; [eapply settles_trans; eassumption|]. split; [auto|].
  intros He Hst. destruct (P1 (E2 He) Hst) as [F1 V1].
  destruct (P2 He F1) as [F2 V2]. split; [assumption|].
  intros p [Hp|Hp]; auto. eapply settled_stable; eauto.
Qed.

Lemma tidies_weaken (Q Q' : Path -> Prop) (st : walk_state) (w : world)
  (st' : walk_state) (w' : world) :
  (forall p, Q' p -> Q p) ->
  tidies root Q st w st' w' -> tidies root Q' st w st' w'.
Proof.
  intros HQ (W & S & E & P).
  split; [assumption|]. split; [assumption|]. split; [assumption|].
  intros He Hst. destruct (P He Hst) as [F V]. split; auto.
Qed.

Lemma visit_tidies (p : Path) (st : walk_state) (w : world)
  (st' : walk_state) (w' : world) :
  well_formed (files w) ->
  visit (organize_by_type_body root false) p st w = (Val st', w') ->
  tidies root (eq p) st w st' w'.
Proof.
  intros Hwf. unfold visit.
  destruct (existsb (PurePath.eqb p) (fst st)) eqn:Ey.
  - intros H; inversion H; subst. split; [assumption|].
    split; [apply settles_refl|]. split; [auto|].
    intros _ Hst. split; [assumption|]. intros q <-.
    apply existsb_exists in Ey. destruct Ey as (q & Hq & Eq).
    apply path_eqb_eq in Eq; subst q.
    rewrite Forall_forall in Hst. auto.
  - intros H. apply bind_inv in H. destruct H as (acc' & w1 & Hb & H).
    inversion H; subst.
    destruct (organize_body_settles _ _ _ _ _ Hwf Hb) as (W & S & P).
    split; [assumption|]. split; [assumption|].
    unfold no_errors. simpl. split; [intros He; apply P; assumption|].
    intros He Hst. destruct (P He) as [_ Hp]. split.
    + constructor; [assumption|]. eapply Forall_settled_stable; eauto.
    + intros q <-. assumption.
Qed.

Lemma for_each_tidies {X} (step : X -> walk_state -> M walk_state)
  (Q : X -> Path -> Prop) :
  (forall x st w st' w',
      well_formed (files w) -> step x st w = (Val st', w') ->
      tidies root (Q x) st w st' w') ->
  forall xs st w st' w',
    well_formed (files w) -> for_each step xs st w = (Val st', w') ->
    tidies root (fun p => exists x, In x xs /\ Q x p) st w st' w'.
Proof.
  intros Hstep. induction xs as [|x xs IH]; intros st w st' w' Hwf H.
  - inversion H; subst. split; [assumption|].
    split; [apply settles_refl|]. split; [auto|].
    intros _ Hst. split; [assumption|]. intros p (x & [] & _).
  - simpl in H. apply bind_inv in H. destruct H as (st1 & w1 & H1 & H2).
    pose proof (Hstep _ _ _ _ _ Hwf H1) as T1.
    assert (well_formed (files w1)) as Hwf1 by apply T1.
    pose proof (IH _ _ _ _ Hwf1 H2) as T2.
    eapply tidies_weaken; [|eapply tidies_seq; eassumption].
    intros p (y & [<-|Hy] & Hp); simpl; eauto.
Qed.

(** The walk from [d], when it returns without a noted error, leaves
    no regular file below [d] out of its place. *)
Lemma rglob_from_tidies :
  forall k d st w st' w',
    well_formed (files w) ->
    rglob_from (organize_by_type_body root false) k d st w = (Val st', w') ->
    tidies root (below d) st w st' w'.
Proof.
  induction k as [|k IH]; intros d st w st' w' Hwf H; [discriminate|].
  simpl in H.
  apply bind_inv in H. destruct H as (es & w0 & Hscan & H).
  apply scandir_inv in Hscan. destruct Hscan as [-> ->].
  apply bind_inv in H. destruct H as (st1 & w1 & Hvisit & H).
  apply bind_inv in H. destruct H as (es' & w1' & Hscan & H).
  apply scandir_inv in Hscan. destruct Hscan as [-> ->].
  pose proof (for_each_tidies _ (fun x p => x = p)
                (fun x => visit_tidies x) _ _ _ _ _ Hwf Hvisit) as T1.
  assert (well_formed (files w1)) as Hwf1 by apply T1.
  pose proof (for_each_tidies _ (fun c p => below c p)
                (fun c => IH c) _ _ _ _ _ Hwf1 H) as T2.
  destruct T1 as (_ & S1 & E1 & P1). destruct T2 as (W2 & S2 & E2 & P2).
  split; [assumption|]. split; [eapply settles_trans; eassumption|].
  split; [auto|].
  intros He Hst. destruct (P1 (E2 He) Hst) as [F1 V1].
  destruct (P2 He F1) as [F2 V2]. split; [assumption|].
  intros p (r & Hr & ->) f Hf.
  destruct (path_eq_dec (PurePath.parent (d ++ r))
              (PurePath.child root (get_category (d ++ r)))) as [Hp|Hp];
    [exact Hp|].
  exfalso. apply Hp.
  destruct (proj2 S2 _ _ Hf) as [Hpl|[f1 Hf1]]; [contradiction|].
  destruct r as [|x [|y r]]; [congruence| |].
  - (* an entry of [d]: it was listed, unless it appeared later *)
    destruct (proj2 S1 _ _ Hf1) as [Hpl|[f0 Hf0]]; [contradiction|].
    assert (settled root (files w1) (d ++ [x])) as Hs.
    { apply V1. exists (d ++ [x]). split; [|reflexivity].
      eapply listdir_In; [eassumption| |].
      - destruct d; discriminate.
      - apply (parent_child d x). }
    apply (settled_stable root _ _ _ S2) in Hs.
    eapply Hs; eassumption.
  - (* deeper: the directory it is in was walked *)
    assert (d ++ x :: y :: r = (d ++ [x]) ++ y :: r) as Heq
        by (rewrite <- app_assoc; reflexivity).
    rewrite Heq in *.
    destruct (ancestors_are_dirs (files w1) (proj2 Hwf1) (y :: r) (d ++ [x])
                (File f1)) as [b Hb]; [discriminate | assumption |].
    eapply V2; [|eassumption].
    exists (d ++ [x]). split.
    + eapply subdir_In; [eassumption| |].
      * destruct d; discriminate.
      * apply (parent_child d x).
    + exists (y :: r). split; [discriminate | reflexivity].
Qed.

End Settling.

(* ================================================================== *)
(** ** The second run *)
(* ================================================================== *)

(** Loops whose bodies agree on the file system they run on, where one
    of the bodies keeps it as it is. *)
Lemma for_each_agree {A X} (f g : X -> A -> M A) (s : fs) (P : X -> Prop) :
  (forall x a, keeps_files (g x a)) ->
  (forall x a w, P x -> files w = s -> f x a w = g x a w) ->
  forall xs a w,
    Forall P xs -> files w = s -> for_each f xs a w = for_each g xs a w.
Proof.
  intros Hg Hfg. induction xs as [|x xs IH]; intros a w HP Hw; [reflexivity|].
  inversion HP; subst. simpl. unfold bind. rewrite Hfg by auto.
  pose proof (Hg x a w) as Hk.
  destruct (g x a w) as [[a'|e|] w1]; simpl in Hk; auto.
Qed.

Lemma visit_keeps {A} (body : Path -> A -> M A) (p : Path) (st : list Path * A) :
  (forall a, keeps_files (body p a)) -> keeps_files (visit body p st).
Proof. intros H. unfold visit. keeps. Qed.

Lemma rglob_from_agree {A} (body body' : Path -> A -> M A) (s : fs) (root : Path) :
  (forall p a, keeps_files (body' p a)) ->
  (forall p a w, below root p -> files w = s -> body p a w = body' p a w) ->
  forall k d st w,
    within root d -> files w = s ->
    rglob_from body k d st w = rglob_from body' k d st w.
Proof.
  intros Hk Hb. induction k as [|k IH]; intros d st w Hd Hw; [reflexivity|].
  assert (forall w0, files w0 = s ->
            Forall (below root) (map fst (listdir (files w0) d))) as Hitems.
  { intros w0 _. apply Forall_forall. intros p Hp.
    apply listdir_child in Hp. destruct Hp as [Hne Hpar].
    eapply within_below_trans; [eassumption|]. apply below_child; assumption. }
  assert (forall w0, files w0 = s ->
            Forall (within root) (map fst (filter snd (listdir (files w0) d))))
    as Hdirs.
  { intros w0 _. apply Forall_forall. intros p Hp.
    apply subdir_child in Hp. destruct Hp as (Hne & Hpar & _).
    apply below_within.
    eapply within_below_trans; [eassumption|]. apply below_child; assumption. }
  simpl. unfold bind.
  destruct (scandir d w) as [[es|e|] w0] eqn:Es; auto.
  apply scandir_inv in Es. destruct Es as [-> ->].
  rewrite (for_each_agree (visit body) (visit body') s (below root)); auto.
  - pose proof (for_each_frame (visit body')
                  (fun p st0 => visit_keeps body' p st0 (Hk p))
                  (map fst (listdir (files w) d)) st w) as Hf.
    destruct (for_each (visit body') _ st w) as [[st1|e|] w1]; auto.
    simpl in Hf. rewrite Hw in Hf.
    destruct (scandir d w1) as [[es'|e|] w1'] eqn:Es'; auto.
    apply scandir_inv in Es'. destruct Es' as [-> ->].
    apply (for_each_agree _ _ s (within root)); auto.
    intros c st0. intros w0. apply rglob_from_frame. intros p a w2. apply Hk.
  - intros p st0. apply visit_keeps. apply Hk.
  - intros p st0 w0 Hp Hw0. unfold visit.
    destruct (existsb _ _); [reflexivity|].
    unfold bind. rewrite Hb by assumption. reflexivity.
Qed.

Lemma for_rglob_agree {A} (body body' : Path -> A -> M A) (root : Path)
  (acc : A) (w : world) :
  (forall p a, keeps_files (body' p a)) ->
  (forall p a w', below root p -> files w' = files w ->
                  body p a w' = body' p a w') ->
  for_rglob body root acc w = for_rglob body' root acc w.
Proof.
  intros Hk Hb. unfold for_rglob, is_dir. mred.
  destruct (lookup (files w) root) as [[f|b]|]; try reflexivity.
  rewrite (rglob_from_agree body body' (files w) root Hk Hb);
    auto using within_refl.
Qed.

(** On an organized tree the organizer does what its dry run does. *)
Lemma organize_body_organized (root item : Path) (acc : organize_acc) (w : world) :
  organized (files w) root -> below root item ->
  organize_by_type_body root false item acc w =
  organize_by_type_body root true item acc w.
Proof.
  intros Ho Hb. unfold organize_by_type_body.
  rewrite !(bind_val _ _ _ _ _ (is_file_at item w)). unfold file_at.
  destruct (lookup (files w) item) as [[f|b]|] eqn:E; try reflexivity.
  cbn [is_some]. pose proof (Ho item Hb f E) as Hp.
  unfold placed in Hp. apply path_eqb_eq in Hp. rewrite Hp. reflexivity.
Qed.

(** ... and the dry run plans no move. *)
Lemma planned_moves_organized (root : Path) (s : fs) (items : list Path) :
  organized s root -> Forall (below root) items ->
  planned_moves (type_target root) s items = [].
Proof.
  intros Ho. unfold planned_moves. generalize (@nil (string * list string)).
  induction items as [|item items IH]; intros d Hb; [reflexivity|].
  inversion Hb; subst. simpl.
  assert (misplaced (type_target root) s item = false) as ->.
  { unfold misplaced, type_target, file_at. simpl.
    destruct (lookup s item) as [[f|b]|] eqn:E; try reflexivity.
    pose proof (Ho item H1 f E) as Hp. unfold placed in Hp.
    apply path_eqb_eq in Hp. rewrite Hp. reflexivity. }
  apply IH; assumption.
Qed.

Lemma for_rglob_tidies (root : Path) (acc : organize_acc) (w : world)
  (acc' : organize_acc) (w' : world) :
  well_formed (files w) ->
  for_rglob (organize_by_type_body root false) root acc w = (Val acc', w') ->
  snd acc' = [] ->
  well_formed (files w') /\
  organized (files w') root /\
  (forall n, lookup (files w) root = Some n ->
             exists n', lookup (files w') root = Some n').
Proof.
  intros Hwf H He. unfold for_rglob in H.
  apply bind_inv in H. destruct H as (d & w0 & Hd & H).
  unfold is_dir in Hd. mred. inversion Hd; subst w0. clear Hd.
  destruct (lookup (files w) root) as [[f|b]|] eqn:E; subst d.
  - inversion H; subst. split; [assumption|]. split; [|eauto].
    intros p (r & Hr & ->) g Hg.
    destruct (ancestors_are_dirs _ (proj2 Hwf) r root _ Hr Hg). congruence.
  - destruct (rglob_from _ _ root ([], acc) w) as [[st|e|] w1] eqn:Ew;
      inversion H; subst.
    destruct (rglob_from_tidies root _ _ _ _ _ _ Hwf Ew) as (W & S & _ & P).
    split; [assumption|]. split.
    + destruct (P He (Forall_nil _)) as [_ V]. exact V.
    + intros n _. exists (Dir b). apply (proj1 S). assumption.
  - inversion H; subst. split; [assumption|]. split; [|discriminate].
    intros p (r & Hr & ->) g Hg.
    destruct (ancestors_are_dirs _ (proj2 Hwf) r root _ Hr Hg). congruence.
Qed.

(** C6.  After a run of [organize_by_type_sync] with [dry_run = False]
    that returned and noted no error, every regular file below the
    root lies directly in the folder of its category, and a second run
    returns at once with nothing moved: its report names no file and no
    folder, and the machine is in the state the first run left.  The
    file system the first run starts on has no double entries and
    every entry of it lies in a directory. *)
Theorem organize_by_type_is_idempotent {L : Library}
  (downloads_path : option Path) (w : world)
  (rep1 : organize_report) (w1 : world) :
  let root := get_downloads_path downloads_path in
  unique_paths (files w) ->
  parents_are_dirs (files w) ->
  organize_by_type_sync downloads_path false w = (Val (Ok rep1), w1) ->
  errors rep1 = [] ->
  organized (files w1) root /\
  organize_by_type_sync downloads_path false w1 =
  (Val (Ok (mkOrganize [] 0 0 [] false)), w1).
Proof.
  intros root Hu Hp Hrun Herr.
  unfold organize_by_type_sync in Hrun. fold root in Hrun.
  apply bind_inv in Hrun. destruct Hrun as (e & w0 & Hex & Hrun).
  rewrite path_exists_spec in Hex. inversion Hex; subst w0. clear Hex.
  destruct (lookup (files w) root) as [n|] eqn:Er; subst e;
    cbn [negb] in Hrun; [|inversion Hrun].
  apply bind_inv in Hrun. destruct Hrun as (acc & w2 & Hwalk & Hret).
  inversion Hret; subst. simpl in Herr.
  destruct (for_rglob_tidies root _ _ _ _ (conj Hu Hp) Hwalk Herr)
    as ([Hu1 Hp1] & Ho & Hroot).
  split; [exact Ho|].
  destruct (Hroot n Er) as [n' Hn'].
  unfold organize_by_type_sync. fold root.
  rewrite (bind_val _ _ _ _ _ (path_exists_present _ _ _ Hn')). cbn [negb].
  unfold bind.
  rewrite (for_rglob_agree _ (organize_by_type_body root true)).
  - rewrite for_rglob_items;
      [|apply keeps_tidy; intros; apply keeps_organize_by_type_body | assumption].
    assert (planned_moves (type_target root) (files w1)
              (rglob_items (files w1) root) = []) as Hnone.
    { apply planned_moves_organized; [assumption|].
      apply Forall_forall. intros p Hin. eapply rglob_items_below; eassumption. }
    unfold planned_moves in Hnone.
    rewrite (dry_loop (type_target root) (files w1));
      [| intros item acc0 w' <-; apply organize_by_type_dry | reflexivity].
    cbn [fst snd]. rewrite Hnone. reflexivity.
  - intros; apply keeps_organize_by_type_body.
  - intros p a w' Hb Hw'. apply organize_body_organized; [|assumption].
    rewrite Hw'. assumption.
Qed.

Lemma organize_by_type_is_idempotent_witness :
  let w := boot tree_sub in
  let dp := Some ["dl"%string] in
  let run := @organize_by_type_sync sample_library dp false w in
  let rep1 := mkOrganize [("Images", ["a.png"]); ("Documents", ["b.txt"])]%string
                2 2 [] false in
  unique_paths (files w) /\
  parents_are_dirs (files w) /\
  run = (Val (Ok rep1), snd run) /\
  errors rep1 = [] /\
  organized (files (snd run)) ["dl"%string] /\
  @organize_by_type_sync sample_library dp false (snd run) =
  (Val (Ok (mkOrganize [] 0 0 [] false)), snd run).
Proof.
  intros w dp run rep1.
  assert (unique_paths (files w)) as Hu by (apply unique_pathsb_ok; reflexivity).
  assert (parents_are_dirs (files w)) as Hp
      by (apply parents_are_dirsb_ok; [assumption | reflexivity]).
  assert (run = (Val (Ok rep1), snd run)) as Hrun.
  { rewrite (surjective_pairing run) at 1.
    apply (f_equal2 pair); [vm_compute; reflexivity | reflexivity]. }
  split; [exact Hu|]. split; [exact Hp|]. split; [exact Hrun|].
  split; [reflexivity|].
  exact (@organize_by_type_is_idempotent sample_library dp w rep1 (snd run)
           Hu Hp Hrun eq_refl).
Defined.

(* ================================================================== *)
(** ** The table of categories *)
(* ================================================================== *)

Lemma distinctb_ok (l : list string) : distinctb l = true -> NoDup l.
Proof.
  induction l as [|x l IH]; simpl; intros H; constructor.
  - apply andb_prop in H. destruct H as [H _]. intros Hin.
    apply negb_true_iff in H.
    assert (existsb (String.eqb x) l = true) as H'; [|congruence].
    apply existsb_exists. exists x. split; [assumption|]. apply String.eqb_refl.
  - apply IH. apply andb_prop in H. tauto.
Qed.

(** In a table that lists no extension twice, the first entry that
    lists an extension is the only one. *)
Lemma lookup_category_listed (ext : string) (table : list (string * list string)) :
  NoDup (flat_map snd table) ->
  forall c exts, In (c, exts) table -> In ext exts ->
    lookup_category ext table = Some c.
Proof.
  induction table as [|[c0 e0] table IH]; intros Hnd c exts Hin Hext; [contradiction|].
  simpl in *. apply NoDup_app_remove_l in Hnd as Hrest.
  destruct (existsb (String.eqb ext) e0) eqn:E.
  - destruct Hin as [Heq|Hin]; [congruence|].
    exfalso. apply existsb_eqb_In in E.
    assert (In ext (flat_map snd table)) as Hin'
        by (apply in_flat_map; exists (c, exts); auto).
    clear - Hnd E Hin'. induction e0 as [|x e0 IHe]; [contradiction|].
    simpl in Hnd. inversion Hnd; subst. destruct E as [->|E]; auto.
    apply H1. apply in_or_app. auto.
  - destruct Hin as [Heq|Hin].
    + inversion Heq; subst. apply existsb_eqb_In in Hext. congruence.
    + eapply IH; eassumption.
Qed.

Lemma lookup_category_found (ext : string) (table : list (string * list string))
  (c : string) :
  lookup_category ext table = Some c ->
  exists exts, In (c, exts) table /\ In ext exts.
Proof.
  induction table as [|[c0 e0] table IH]; simpl; [discriminate|].
  destruct (existsb (String.eqb ext) e0) eqn:E.
  - intros H; inversion H; subst. apply existsb_eqb_In in E. eauto.
  - intros H. destruct (IH H) as (exts & H1 & H2). eauto.
Qed.

Lemma lookup_category_unlisted (ext : string) (table : list (string * list string)) :
  lookup_category ext table = None ->
  forall c exts, In (c, exts) table -> ~ In ext exts.
Proof.
  induction table as [|[c0 e0] table IH]; simpl; [contradiction|].
  destruct (existsb (String.eqb ext) e0) eqn:E; [discriminate|].
  intros H c exts [Heq|Hin] Hext.
  - inversion Heq; subst. apply existsb_eqb_In in Hext. congruence.
  - eapply IH; eassumption.
Qed.



Lemma suffix_of_extension (a e : string) :
  PurePath.nonempty a = true -> PurePath.nonempty e = true ->
  PurePath.rsplit_dot e = None ->
  PurePath.suffix_of (a ++ String "." e) = String "." e.
Proof.
  intros Ha He Hd. unfold PurePath.suffix_of, PurePath.split_ext.
  rewrite rsplit_dot_last by assumption. rewrite Ha, He. reflexivity.
Qed.

(** The category depends on the last extension alone, whatever its
    letter case: neither the directory nor the rest of the name, dots
    included, plays a part. *)
Theorem category_depends_on_the_last_extension
  (d d' : Path) (a a' e e' : string) :
  PurePath.nonempty a = true -> PurePath.nonempty a' = true ->
  PurePath.nonempty e = true -> PurePath.nonempty e' = true ->
  PurePath.rsplit_dot e = None -> PurePath.rsplit_dot e' = None ->
  PurePath.lower e = PurePath.lower e' ->
  get_category (PurePath.child d (a ++ String "." e)) =
  get_category (PurePath.child d' (a' ++ String "." e')).
Proof.
  intros Ha Ha' He He' Hd Hd' Hlow.
  unfold get_category, PurePath.suffix. rewrite !name_child.
  rewrite !suffix_of_extension by assumption.
  simpl. rewrite Hlow. reflexivity.
Qed.

Lemma category_depends_on_the_last_extension_witness :
  get_category ["dl"; "holiday.JPG"]%string =
  get_category ["dl"; "old"; "scan.tar.jpg"]%string.
Proof.
  apply (category_depends_on_the_last_extension ["dl"%string] ["dl"; "old"]%string
           "holiday" "scan.tar" "JPG" "jpg"); reflexivity.
Defined.

(** A name without an extension goes to ["Other"]: a name without a
    dot, a name whose only dot is the first character, and a name that
    ends in its last dot. *)
Theorem names_without_extension_are_other (d : Path) (nm : string) :
  PurePath.rsplit_dot nm = None \/
  (exists e, nm = String "." e /\ PurePath.rsplit_dot e = None) \/
  (exists a, nm = (a ++ ".")%string) ->
  get_category (PurePath.child d nm) = "Other"%string.
Proof.
  intros H.
  assert (PurePath.suffix_of nm = EmptyString) as Hs.
  { unfold PurePath.suffix_of, PurePath.split_ext.
    destruct H as [H|[(e & -> & He)|(a & ->)]].
    - rewrite H. reflexivity.
    - simpl. rewrite He. reflexivity.
    - rewrite (rsplit_dot_last a EmptyString eq_refl).
      rewrite andb_false_r. reflexivity. }
  unfold get_category, PurePath.suffix. rewrite name_child, Hs. reflexivity.
Qed.

Lemma names_without_extension_are_other_witness :
  get_category ["dl"; "README"]%string = "Other"%string /\
  get_category ["dl"; ".bashrc"]%string = "Other"%string /\
  get_category ["dl"; "draft."]%string = "Other"%string.
Proof.
  split; [|split].
  - apply (names_without_extension_are_other ["dl"%string] "README").
    left. reflexivity.
  - apply (names_without_extension_are_other ["dl"%string] ".bashrc").
    right. left. exists "bashrc"%string. split; reflexivity.
  - apply (names_without_extension_are_other ["dl"%string] "draft.").
    right. right. exists "draft"%string. reflexivity.
Defined.

(** The name a move falls back on when the item's own name is taken,
    [stem_N suffix], belongs to the category of the item: the item
    arrives in the folder it was sent to. *)
Theorem numbered_name_keeps_the_category (item target_dir : Path) (counter : nat) :
  get_category (PurePath.child target_dir (numbered item counter)) =
  get_category item.
Proof.
  unfold get_category, PurePath.suffix. rewrite name_child.
  unfold numbered, PurePath.stem, PurePath.suffix.
  rewrite numbered_category. reflexivity.
Qed.

(* ================================================================== *)
(** ** Hashing in chunks *)
(* ================================================================== *)

Lemma update_chunks_all (n : nat) (fuel : nat) :
  forall rest hashed,
    List.length rest < fuel ->
    update_chunks fuel (S n) rest hashed = Some (hashed ++ rest).
Proof.
  induction fuel as [|fuel IH]; intros rest hashed Hlen; [lia|].
  destruct rest as [|b rest].
  - simpl. rewrite app_nil_r. reflexivity.
  - cbn [update_chunks firstn]. rewrite IH.
    + rewrite <- app_assoc.
      change (b :: firstn n rest) with (firstn (S n) (b :: rest)).
      rewrite firstn_skipn. reflexivity.
    + rewrite length_skipn. simpl in *. lia.
Qed.

(** Reading the file 4096 bytes at a time feeds the hasher every byte
    of the file, once and in order, and then stops: the digest is the
    one of the whole content, for a file of any length, the empty file
    included. *)
Theorem hashing_in_chunks_covers_the_file {L : Library}
  (file_path : Path) (w : world) :
  get_file_hash_chunked file_path w = get_file_hash file_path w.
Proof.
  unfold get_file_hash_chunked, get_file_hash, bind.
  destruct (read_bytes file_path w) as [[data|e|] w']; try reflexivity.
  assert (exists n, CHUNK_SIZE = S n) as [n ->]
      by (exists 4095; vm_compute; reflexivity).
  rewrite update_chunks_all by lia. reflexivity.
Qed.

(* ================================================================== *)
(** ** get_stats_sync *)
(* ================================================================== *)

Lemma keeps_stats_body (item : Path) (acc : stats_acc) :
  keeps_files (stats_body item acc).
Proof. unfold stats_body. keeps. Qed.

Lemma stats_body_spec (item : Path) (acc : stats_acc) (w : world) :
  stats_body item acc w =
  (Val (match file_at (files w) item with
        | Some f =>
            mkStatsAcc (acc_total_files acc + 1)
              (acc_total_size acc + size_of f)%Z
              (dict_count (get_category item) (size_of f) (acc_by_category acc))
              (acc_all_files acc ++ [(size_of f, item)])
        | None => acc
        end), w).
Proof.
  unfold stats_body. rewrite (bind_val _ _ _ _ _ (is_file_at item w)).
  unfold file_at. destruct (lookup (files w) item) as [[f|b]|] eqn:E; try reflexivity.
  cbn [is_some]. rewrite (bind_val _ _ _ _ _ (stat_file _ _ _ E)). reflexivity.
Qed.

Lemma stats_acc_eq (a a' : nat) (b b' : Z) (c c' : dict category_info)
  (d d' : list (Z * Path)) :
  a = a' -> b = b' -> c = c' -> d = d' ->
  mkStatsAcc a b c d = mkStatsAcc a' b' c' d'.
Proof. intros; subst; reflexivity. Qed.

Lemma stats_loop (items : list Path) :
  forall acc w,
    let s := files w in
    let regs := regular_files s items in
    for_each stats_body items acc w =
    (Val (mkStatsAcc (acc_total_files acc + List.length regs)
            (acc_total_size acc + sum_Z (map (size_at s) regs))%Z
            (fold_left (count_step s) regs (acc_by_category acc))
            (acc_all_files acc ++ map (sized s) regs)), w).
Proof.
  induction items as [|item items IH]; intros acc w; cbv zeta.
  - simpl. rewrite Nat.add_0_r, Z.add_0_r, app_nil_r. destruct acc; reflexivity.
  - cbn [for_each]. rewrite (bind_val _ _ _ _ _ (stats_body_spec item acc w)).
    rewrite IH. cbv zeta. unfold regular_files. cbn [filter].
    destruct (file_at (files w) item) as [f|] eqn:E; cbn [is_some]; [|reflexivity].
    assert (size_at (files w) item = size_of f) as Hsz
        by (unfold size_at; rewrite E; reflexivity).
    cbn [acc_total_files acc_total_size acc_by_category acc_all_files].
    apply (f_equal (fun r => (Val r, w))). apply stats_acc_eq.
    + cbn [List.length]. lia.
    + unfold sum_Z. cbn [map fold_right]. rewrite Hsz. lia.
    + cbn [fold_left]. unfold count_step at 3. rewrite Hsz. reflexivity.
    + rewrite <- app_assoc. cbn [map app]. unfold sized at 2. rewrite Hsz.
      reflexivity.
Qed.

Lemma largest_below (root : Path) (l : list (Z * Path)) (w : world) :
  Forall (fun e => within root (snd e)) l ->
  largest root l w = (Val (map (fun e => (rel root (snd e), MB (fst e))) l), w).
Proof.
  induction l as [|[z p] l IH]; intros H; [reflexivity|].
  inversion H; subst. simpl in *. unfold bind, relative_to.
  rewrite relative_to_below by assumption. simpl. rewrite IH by assumption.
  reflexivity.
Qed.

Lemma firstn_In {X} (n : nat) (l : list X) (x : X) : In x (firstn n l) -> In x l.
Proof. intros H. rewrite <- (firstn_skipn n l). apply in_or_app. auto. Qed.

Lemma regular_files_In (s : fs) (items : list Path) (p : Path) :
  In p (regular_files s items) <->
  In p items /\ exists f, lookup s p = Some (File f).
Proof.
  unfold regular_files. rewrite filter_In. unfold file_at.
  destruct (lookup s p) as [[f|b]|]; simpl; split; intros [H1 H2]; split; eauto;
    try discriminate; destruct H2 as [g Hg]; discriminate.
Qed.

Section StatsRun.

Context {L : Library}.

(** [get_stats_sync], from the call to the answer. *)
Lemma get_stats_run (downloads_path : option Path) (w : world) (n : node) :
  let root := get_downloads_path downloads_path in
  let s := files w in
  let regs := regular_files s (rglob_items s root) in
  unique_paths s ->
  lookup s root = Some n ->
  get_stats_sync downloads_path w =
  (Val (Ok (mkStats (List.length regs)
              (MB (sum_Z (map (size_at s) regs)))
              (map (fun ci => (fst ci, (info_count (snd ci), MB (info_size (snd ci)))))
                 (fold_left (count_step s) regs []))
              (map (fun e => (rel root (snd e), MB (fst e)))
                 (firstn 10 (sort_desc (map (sized s) regs)))))), w).
Proof.
  intros root s regs Hu Hroot. unfold get_stats_sync. fold root.
  rewrite (bind_val _ _ _ _ _ (path_exists_present _ _ _ Hroot)). cbn [negb].
  unfold bind at 1. rewrite for_rglob_items;
    [|apply keeps_tidy; intros; apply keeps_stats_body | assumption].
  rewrite stats_loop. cbv zeta. fold s. fold regs.
  cbn [acc_total_files acc_total_size acc_by_category acc_all_files].
  simpl app. unfold bind. rewrite largest_below.
  - reflexivity.
  - apply Forall_forall. intros e He. apply firstn_In in He.
    apply (Permutation_in _ (sort_desc_perm _)) in He.
    apply in_map_iff in He. destruct He as (p & <- & Hp).
    apply regular_files_In in Hp. destruct Hp as [Hp _].
    simpl. apply below_within. eapply rglob_items_below; eassumption.
Qed.

End StatsRun.

(** *** The counters by category *)

Lemma dict_find_count (k k' : string) (sz : Z) (d : dict category_info) :
  dict_find k (dict_count k' sz d) =
  if String.eqb k' k then info_add (dict_find k d) 1 sz else dict_find k d.
Proof.
  induction d as [|[k0 i] d IH]; simpl.
  - destruct (String.eqb k' k); reflexivity.
  - destruct (String.eqb k0 k') eqn:E0; simpl.
    + apply String.eqb_eq in E0; subst k0.
      destruct (String.eqb k' k); reflexivity.
    + destruct (String.eqb k0 k) eqn:E1.
      * apply String.eqb_eq in E1; subst k0. rewrite String.eqb_sym, E0.
        reflexivity.
      * exact IH.
Qed.

Lemma dict_count_keys (k : string) (sz : Z) (d : dict category_info) :
  map fst (dict_count k sz d) =
  if existsb (String.eqb k) (map fst d) then map fst d else map fst d ++ [k].
Proof.
  induction d as [|[k0 i] d IH]; simpl; [reflexivity|].
  rewrite (String.eqb_sym k k0).
  destruct (String.eqb k0 k); simpl; [reflexivity|].
  rewrite IH. destruct (existsb _ _); reflexivity.
Qed.

Lemma dict_count_NoDup (k : string) (sz : Z) (d : dict category_info) :
  NoDup (map fst d) -> NoDup (map fst (dict_count k sz d)).
Proof.
  intros H. rewrite dict_count_keys.
  destruct (existsb (String.eqb k) (map fst d)) eqn:E; [assumption|].
  apply NoDup_app_intro; auto.
  - constructor; [simpl; tauto | constructor].
  - intros x Hx [<-|[]].
    assert (existsb (String.eqb k) (map fst d) = true); [|congruence].
    apply existsb_eqb_In. assumption.
Qed.

Lemma dict_find_In {V} (k : string) (v : V) (d : dict V) :
  NoDup (map fst d) -> In (k, v) d -> dict_find k d = Some v.
Proof.
  induction d as [|[k0 v0] d IH]; simpl; intros Hnd Hin; [contradiction|].
  inversion Hnd; subst. destruct Hin as [E|Hin].
  - inversion E; subst. rewrite String.eqb_refl. reflexivity.
  - destruct (String.eqb k0 k) eqn:E.
    + apply String.eqb_eq in E; subst. exfalso. apply H1.
      apply (in_map fst) in Hin. exact Hin.
    + apply IH; assumption.
Qed.

Lemma dict_find_Some {V} (k : string) (v : V) (d : dict V) :
  dict_find k d = Some v -> In (k, v) d.
Proof.
  induction d as [|[k0 v0] d IH]; simpl; [discriminate|].
  destruct (String.eqb k0 k) eqn:E.
  - apply String.eqb_eq in E. intros H; inversion H; subst. auto.
  - auto.
Qed.

(** The loop keeps, per category, the number and the bytes of the
    files of that category. *)
Lemma category_counts (s : fs) (regs : list Path) :
  forall d,
    NoDup (map fst d) ->
    NoDup (map fst (fold_left (count_step s) regs d)) /\
    forall k,
      dict_find k (fold_left (count_step s) regs d) =
      info_add (dict_find k d)
        (List.length (filter (in_category k) regs))
        (sum_Z (map (size_at s) (filter (in_category k) regs))).
Proof.
  induction regs as [|p regs IH]; intros d Hnd.
  - simpl. split; [assumption|]. intros k. destruct (dict_find k d); reflexivity.
  - cbn [fold_left].
    destruct (IH (count_step s d p)) as [H1 H2];
      [apply dict_count_NoDup; assumption|].
    split; [assumption|]. intros k. rewrite H2. unfold count_step.
    rewrite dict_find_count. cbn [filter].
    change (in_category k p) with (String.eqb (get_category p) k).
    destruct (String.eqb (get_category p) k); [|reflexivity].
    cbn [List.length map]. unfold sum_Z. cbn [fold_right].
    destruct (filter (in_category k) regs) as [|q l];
      destruct (dict_find k d) as [i|]; simpl; f_equal; f_equal; lia.
Qed.

Lemma category_sums (s : fs) (regs : list Path) :
  forall d,
    let d' := fold_left (count_step s) regs d in
    list_sum (map (fun ci => info_count (snd ci)) d') =
    list_sum (map (fun ci => info_count (snd ci)) d) + List.length regs /\
    sum_Z (map (fun ci => info_size (snd ci)) d') =
    (sum_Z (map (fun ci => info_size (snd ci)) d) + sum_Z (map (size_at s) regs))%Z.
Proof.
  assert (forall k sz d,
            list_sum (map (fun ci => info_count (snd ci)) (dict_count k sz d)) =
            list_sum (map (fun ci => info_count (snd ci)) d) + 1 /\
            sum_Z (map (fun ci => info_size (snd ci)) (dict_count k sz d)) =
            (sum_Z (map (fun ci => info_size (snd ci)) d) + sz)%Z) as Hstep.
  { intros k sz. induction d as [|[k0 i] d [IH1 IH2]]; simpl.
    - split; lia.
    - destruct (String.eqb k0 k); simpl.
      + split; lia.
      + unfold sum_Z in *. simpl. rewrite IH1, IH2. split; lia. }
  induction regs as [|p regs IH]; intros d; cbv zeta.
  - simpl. split; lia.
  - cbn [fold_left]. destruct (IH (count_step s d p)) as [H1 H2].
    rewrite H1, H2. unfold count_step.
    destruct (Hstep (get_category p) (size_at s p) d) as [-> ->].
    simpl. unfold sum_Z. simpl. split; lia.
Qed.

(** *** The largest files *)

Lemma insert_desc_sorted {X} (x : Z * X) (l : list (Z * X)) :
  StronglySorted by_size_desc l -> StronglySorted by_size_desc (insert_desc x l).
Proof.
  induction l as [|y l IH]; intros H; simpl.
  - constructor; constructor.
  - inversion H as [|? ? Hl Hy]; subst.
    destruct (fst y <=? fst x)%Z eqn:E.
    + apply Z.leb_le in E. constructor; [assumption|].
      constructor; [exact E|].
      eapply Forall_impl; [|exact Hy]. unfold by_size_desc. intros; lia.
    + apply Z.leb_gt in E. constructor; [auto|].
      apply (Permutation_Forall (Permutation_sym (insert_desc_perm x l))).
      constructor; [unfold by_size_desc; lia | assumption].
Qed.

Lemma sort_desc_sorted {X} (l : list (Z * X)) :
  StronglySorted by_size_desc (sort_desc l).
Proof.
  induction l as [|x l IH]; simpl; [constructor|].
  apply insert_desc_sorted. assumption.
Qed.

Lemma StronglySorted_app {X} (R : X -> X -> Prop) (l1 l2 : list X) :
  StronglySorted R (l1 ++ l2) ->
  StronglySorted R l1 /\ forall x y, In x l1 -> In y l2 -> R x y.
Proof.
  induction l1 as [|a l1 IH]; simpl; intros H.
  - split; [constructor | contradiction].
  - inversion H as [|? ? Hl Ha]; subst. destruct (IH Hl) as [H1 H2].
    apply Forall_app in Ha. destruct Ha as [Ha1 Ha2]. split.
    + constructor; assumption.
    + intros x y [<-|Hx] Hy; [|auto]. rewrite Forall_forall in Ha2. auto.
Qed.

Lemma StronglySorted_map {X Y} (R : X -> X -> Prop) (R' : Y -> Y -> Prop)
  (g : X -> Y) (l : list X) :
  (forall x y, R x y -> R' (g x) (g y)) ->
  StronglySorted R l -> StronglySorted R' (map g l).
Proof.
  intros Hg. induction 1 as [|a l Hl IH Ha]; simpl; constructor; auto.
  apply Forall_map. eapply Forall_impl; [|exact Ha]. auto.
Qed.

Section StatsProperties.

Context {L : Library}.

(** [get_stats_sync] changes nothing and counts each regular file below
    the root once: [total_files] is their number and [total_size_mb]
    the sum of their sizes, at any depth. *)
Theorem stats_count_every_regular_file
  (downloads_path : option Path) (w : world) (b : bool) :
  let root := get_downloads_path downloads_path in
  let s := files w in
  let regs := regular_files s (rglob_items s root) in
  unique_paths s ->
  lookup s root = Some (Dir b) ->
  exists rep,
    get_stats_sync downloads_path w = (Val (Ok rep), w) /\
    stats_total_files rep = List.length regs /\
    stats_total_size_mb rep = MB (sum_Z (map (size_at s) regs)) /\
    NoDup regs /\
    (forall p, In p regs -> below root p /\ exists f, lookup s p = Some (File f)) /\
    (forall relp f,
        descends s root relp -> lookup s (root ++ relp) = Some (File f) ->
        In (root ++ relp) regs).
Proof.
  intros root s regs Hu Hroot. eexists. split.
  - apply (get_stats_run downloads_path w (Dir b)); assumption.
  - cbn [stats_total_files stats_total_size_mb].
    split; [reflexivity|]. split; [reflexivity|]. split; [|split].
    + apply NoDup_filter. apply rglob_items_NoDup. assumption.
    + intros p Hp. apply regular_files_In in Hp. destruct Hp as [Hp Hf].
      split; [|assumption]. eapply rglob_items_below; eassumption.
    + intros relp f Hd Hf. apply regular_files_In. split; [|eauto].
      eapply rglob_items_complete; eassumption.
Qed.


(** [largest_files] holds the ten largest regular files, or all of
    them when there are fewer, largest first, each under its path
    relative to the root and with its size; no file that is left out is
    larger than a file that is listed. *)
Theorem stats_list_the_largest_files
  (downloads_path : option Path) (w : world) (n : node) :
  let root := get_downloads_path downloads_path in
  let s := files w in
  let regs := regular_files s (rglob_items s root) in
  unique_paths s ->
  lookup s root = Some n ->
  exists rep,
    get_stats_sync downloads_path w = (Val (Ok rep), w) /\
    List.length (largest_files rep) = Nat.min 10 (List.length regs) /\
    StronglySorted (fun x y => (mb_bytes (snd y) <= mb_bytes (snd x))%Z)
      (largest_files rep) /\
    (forall e, In e (largest_files rep) ->
               exists p, In p regs /\ fst e = rel root p /\ snd e = MB (size_at s p)) /\
    (forall p, In p regs ->
               In (rel root p, MB (size_at s p)) (largest_files rep) \/
               forall e, In e (largest_files rep) ->
                         (size_at s p <= mb_bytes (snd e))%Z).
Proof.
  intros root s regs Hu Hroot. eexists. split.
  - apply (get_stats_run downloads_path w n); assumption.
  - cbn [largest_files]. fold root s regs.
    set (sorted := sort_desc (map (sized s) regs)).
    set (g := fun e : Z * Path => (rel root (snd e), MB (fst e))).
    assert (StronglySorted by_size_desc sorted) as Hs by apply sort_desc_sorted.
    assert (Permutation sorted (map (sized s) regs)) as Hp by apply sort_desc_perm.
    rewrite <- (firstn_skipn 10 sorted) in Hs.
    apply StronglySorted_app in Hs. destruct Hs as [Hs1 Hs2].
    split; [|split; [|split]].
    + rewrite length_map, length_firstn.
      rewrite (Permutation_length Hp), length_map. reflexivity.
    + eapply StronglySorted_map; [|exact Hs1]. intros x y Hxy. exact Hxy.
    + intros e He. apply in_map_iff in He. destruct He as (x & <- & Hx).
      apply firstn_In in Hx. apply (Permutation_in _ Hp) in Hx.
      apply in_map_iff in Hx. destruct Hx as (p & <- & Hin).
      exists p. auto.
    + intros p Hin.
      assert (In (sized s p) sorted) as Hmem.
      { apply (Permutation_in _ (Permutation_sym Hp)). apply in_map. assumption. }
      rewrite <- (firstn_skipn 10 sorted) in Hmem.
      apply in_app_or in Hmem. destruct Hmem as [Hmem|Hmem].
      * left. apply (in_map g) in Hmem. exact Hmem.
      * right. intros e He. apply in_map_iff in He.
        destruct He as (x & <- & Hx). simpl.
        apply (Hs2 x (sized s p) Hx Hmem).
Qed.

End StatsProperties.

Lemma stats_count_every_regular_file_witness :
  let w := boot tree_sub in
  unique_paths (files w) /\
  lookup (files w) (@get_downloads_path sample_library (Some ["dl"%string]))
  = Some (Dir true) /\
  exists rep,
    @get_stats_sync sample_library (Some ["dl"%string]) w = (Val (Ok rep), w) /\
    stats_total_files rep = 2 /\
    stats_total_size_mb rep = MB 11 /\
    In ["dl"; "old"; "b.txt"]%string
      (regular_files (files w) (rglob_items (files w) ["dl"%string])).
Proof.
  intros w.
  assert (unique_paths (files w)) as Hu by (apply unique_pathsb_ok; reflexivity).
  split; [exact Hu|]. split; [reflexivity|].
  destruct (@stats_count_every_regular_file sample_library (Some ["dl"%string]) w
              true Hu eq_refl) as (rep & Hrun & Hn & Hsz & _ & _ & Hall).
  exists rep. split; [exact Hrun|]. rewrite Hn, Hsz.
  split; [reflexivity|]. split; [reflexivity|].
  apply (Hall ["old"; "b.txt"]%string (plain_file "text" (day 738001))).
  - simpl. split; [eexists; reflexivity | eexists; reflexivity].
  - reflexivity.
Defined.


Lemma stats_list_the_largest_files_witness :
  let w := boot tree_sub in
  unique_paths (files w) /\
  lookup (files w) (@get_downloads_path sample_library (Some ["dl"%string]))
  = Some (Dir true) /\
  exists rep,
    @get_stats_sync sample_library (Some ["dl"%string]) w = (Val (Ok rep), w) /\
    List.length (largest_files rep) = 2.
Proof.
  intros w.
  assert (unique_paths (files w)) as Hu by (apply unique_pathsb_ok; reflexivity).
  split; [exact Hu|]. split; [reflexivity|].
  destruct (@stats_list_the_largest_files sample_library (Some ["dl"%string]) w
              (Dir true) Hu eq_refl) as (rep & Hrun & Hlen & _).
  exists rep. split; [exact Hrun|]. rewrite Hlen. reflexivity.
Defined.

(* ================================================================== *)
(** ** What the deleting calls leave alone *)
(* ================================================================== *)

Lemma old_entries_ages (s : fs) (clk : nat -> Z) (root : Path) (c : Z)
  (e : old_file) :
  forall items n,
    In e (old_entries s clk root c items n) ->
    exists k f, n <= k /\ (mtime f < c)%Z /\
                age_days e = Calendar.days_between (clk k) (mtime f).
Proof.
  induction items as [|p items IH]; simpl; intros n H; [tauto|].
  destruct (file_at s p) as [f|].
  - destruct (mtime f <? c)%Z eqn:Eold.
    + destruct H as [<-|H].
      * exists n, f. apply Z.ltb_lt in Eold. auto.
      * destruct (IH _ H) as (k & g & ? & ? & ?). exists k, g.
        repeat split; auto. lia.
    + auto.
  - auto.
Qed.

Section Deleting.

Context {L : Library}.

(** [clean_old_files_sync] changes the file system by removals only,
    and every entry it removes is a regular file below the root that is
    older than the cutoff and that the report lists: directories stay,
    empty or not, files that are not older than the cutoff stay, and
    nothing is created or rewritten. *)
Theorem clean_removes_only_listed_old_files
  (downloads_path : option Path) (days_old : Z) (delete : bool) (w : world)
  (n : node) :
  let root := get_downloads_path downloads_path in
  let s := files w in
  let c := (clock w (ticks w) - days_old * Calendar.US_PER_DAY)%Z in
  unique_paths s ->
  lookup s root = Some n ->
  (Z.abs days_old <= Calendar.MAX_DELTA_DAYS)%Z ->
  (0 <= c <= Calendar.DATETIME_MAX)%Z ->
  exists rep w',
    clean_old_files_sync downloads_path days_old delete w = (Val (Ok rep), w') /\
    (forall q,
        lookup (files w') q = lookup s q \/
        (lookup (files w') q = None /\
         delete = true /\
         below root q /\
         In (rel root q) (map old_path (old_files rep)) /\
         exists f, lookup s q = Some (File f) /\ (mtime f < c)%Z)) /\
    (forall q b, lookup s q = Some (Dir b) -> lookup (files w') q = Some (Dir b)) /\
    (forall q f, lookup s q = Some (File f) -> (c <= mtime f)%Z ->
                 lookup (files w') q = Some (File f)).
Proof.
  intros root s c Hu Hroot Hdays Hc.
  destruct (cutoff_value days_old (clock w (ticks w)) Hdays Hc) as [Hd Hs].
  rewrite (clean_old_files_run downloads_path days_old delete w _ _ n
             Hu Hroot Hd Hs).
  fold root s c. cbv zeta. eexists; eexists. split; [reflexivity|].
  cbn [files old_files].
  set (items := rglob_items s root).
  set (D := unlinked delete s (old_items s c items)).
  assert (forall q,
            lookup (prune D s) q = lookup s q \/
            (lookup (prune D s) q = None /\ delete = true /\ below root q /\
             In (rel root q)
               (map old_path (old_entries s (clock w) root c items (S (ticks w)))) /\
             exists f, lookup s q = Some (File f) /\ (mtime f < c)%Z)) as Hframe.
  { intros q. rewrite lookup_prune.
    destruct (existsb (PurePath.eqb q) D) eqn:E; [right|left; reflexivity].
    apply mem_In in E. apply unlinked_In in E. destruct E as (Hdel & Hin & _).
    apply filter_In in Hin. destruct Hin as [Hitem Hold].
    destruct (file_at s q) as [f|] eqn:Ef; [|discriminate].
    apply Z.ltb_lt in Hold.
    split; [reflexivity|]. split; [assumption|].
    split; [eapply rglob_items_below; eassumption|].
    split; [eapply old_entries_listed; eassumption|].
    exists f. split; [apply file_at_lookup; assumption | assumption]. }
  split; [exact Hframe|]. split.
  - intros q b Hq. destruct (Hframe q) as [->|(_ & _ & _ & _ & f & Hf & _)];
      congruence.
  - intros q f Hq Hnew. destruct (Hframe q) as [->|(_ & _ & _ & _ & g & Hg & Hlt)];
      [assumption|].
    rewrite Hq in Hg. inversion Hg; subst. lia.
Qed.

(** With a clock that does not run backwards, every file
    [clean_old_files_sync] lists is reported with an age of at least
    [days_old] days: the age is taken from a later reading of the clock
    than the cutoff. *)
Theorem listed_ages_reach_the_threshold
  (downloads_path : option Path) (days_old : Z) (delete : bool) (w : world)
  (n : node) :
  let root := get_downloads_path downloads_path in
  let c := (clock w (ticks w) - days_old * Calendar.US_PER_DAY)%Z in
  unique_paths (files w) ->
  lookup (files w) root = Some n ->
  (Z.abs days_old <= Calendar.MAX_DELTA_DAYS)%Z ->
  (0 <= c <= Calendar.DATETIME_MAX)%Z ->
  (forall i j, i <= j -> (clock w i <= clock w j)%Z) ->
  exists rep w',
    clean_old_files_sync downloads_path days_old delete w = (Val (Ok rep), w') /\
    days_threshold rep = days_old /\
    forall e, In e (old_files rep) -> (days_threshold rep <= age_days e)%Z.
Proof.
  intros root c Hu Hroot Hdays Hc Hmono.
  destruct (cutoff_value days_old (clock w (ticks w)) Hdays Hc) as [Hd Hs].
  rewrite (clean_old_files_run downloads_path days_old delete w _ _ n
             Hu Hroot Hd Hs).
  fold root c. cbv zeta. eexists; eexists. split; [reflexivity|].
  cbn [old_files days_threshold]. split; [reflexivity|].
  intros e He. apply old_entries_ages in He.
  destruct He as (k & f & Hk & Hold & ->).
  unfold Calendar.days_between.
  apply Z.div_le_lower_bound; [reflexivity|].
  assert (clock w (ticks w) <= clock w k)%Z by (apply Hmono; lia).
  unfold c in Hold. lia.
Qed.

End Deleting.

Lemma clean_removes_only_listed_old_files_witness :
  let w := boot tree_edge in
  unique_paths (files w) /\
  lookup (files w) (@get_downloads_path sample_library (Some ["dl"%string]))
  = Some (Dir true) /\
  (Z.abs 90 <= Calendar.MAX_DELTA_DAYS)%Z /\
  (0 <= clock w (ticks w) - 90 * Calendar.US_PER_DAY <= Calendar.DATETIME_MAX)%Z /\
  exists rep w',
    @clean_old_files_sync sample_library (Some ["dl"%string]) 90 true w
    = (Val (Ok rep), w') /\
    lookup (files w') ["dl"; "edge.txt"]%string
    = Some (plain "at the cutoff" ninety_days_ago) /\
    lookup (files w') ["dl"%string] = Some (Dir true).
Proof.
  intros w.
  assert (unique_paths (files w)) as Hu by (apply unique_pathsb_ok; reflexivity).
  assert (Z.abs 90 <= Calendar.MAX_DELTA_DAYS)%Z as Hdays
      by (vm_compute; discriminate).
  assert (0 <= clock w (ticks w) - 90 * Calendar.US_PER_DAY
          <= Calendar.DATETIME_MAX)%Z as Hrange
      by (vm_compute; split; discriminate).
  do 4 (split; [first [assumption | reflexivity]|]).
  destruct (@clean_removes_only_listed_old_files sample_library
              (Some ["dl"%string]) 90%Z true w (Dir true) Hu eq_refl Hdays Hrange)
    as (rep & w' & Hrun & _ & Hdirs & Hnew).
  exists rep, w'. split; [exact Hrun|]. split.
  - apply Hnew; [reflexivity|]. vm_compute. discriminate.
  - apply Hdirs. reflexivity.
Defined.

Lemma listed_ages_reach_the_threshold_witness :
  let w := boot tree_edge in
  unique_paths (files w) /\
  lookup (files w) (@get_downloads_path sample_library (Some ["dl"%string]))
  = Some (Dir true) /\
  (Z.abs 90 <= Calendar.MAX_DELTA_DAYS)%Z /\
  (0 <= clock w (ticks w) - 90 * Calendar.US_PER_DAY <= Calendar.DATETIME_MAX)%Z /\
  (forall i j, i <= j -> (clock w i <= clock w j)%Z) /\
  exists rep w',
    @clean_old_files_sync sample_library (Some ["dl"%string]) 90 false w
    = (Val (Ok rep), w') /\
    forall e, In e (old_files rep) -> (90 <= age_days e)%Z.
Proof.
  intros w.
  assert (unique_paths (files w)) as Hu by (apply unique_pathsb_ok; reflexivity).
  assert (Z.abs 90 <= Calendar.MAX_DELTA_DAYS)%Z as Hdays
      by (vm_compute; discriminate).
  assert (0 <= clock w (ticks w) - 90 * Calendar.US_PER_DAY
          <= Calendar.DATETIME_MAX)%Z as Hrange
      by (vm_compute; split; discriminate).
  assert (forall i j, i <= j -> (clock w i <= clock w j)%Z) as Hmono
      by (intros i j Hij; simpl; unfold sample_clock; lia).
  do 5 (split; [first [assumption | reflexivity]|]).
  destruct (@listed_ages_reach_the_threshold sample_library
              (Some ["dl"%string]) 90%Z false w (Dir true) Hu eq_refl Hdays Hrange
              Hmono)
    as (rep & w' & Hrun & Hthr & Hages).
  exists rep, w'. split; [exact Hrun|].
  intros e He. rewrite <- Hthr. apply Hages. exact He.
Defined.

Section KeepingOneCopy.

Context {L : Library}.

Variable s : fs.

Lemma expected_duplicates_inv (root : Path) (groups : dict (list Path))
  (e : duplicate) :
  In e (expected_duplicates s root groups) ->
  exists h ms d,
    In (h, ms) groups /\ In d (group_duplicate_paths s ms) /\
    e = mkDuplicate (rel root d) (size_at s d) (rel root (group_keep s ms)).
Proof.
  unfold expected_duplicates. intros H. apply in_flat_map in H.
  destruct H as ([h ms] & Hg & He). unfold group_duplicates in He.
  apply in_map_iff in He. destruct He as (d & <- & Hd).
  exists h, ms, d. auto.
Qed.

Lemma group_duplicate_paths_members (ms : list Path) (d : Path) :
  In d (group_duplicate_paths s ms) -> In d ms /\ 2 <= List.length ms.
Proof.
  unfold group_duplicate_paths.
  destruct (1 <? List.length ms) eqn:E; [|simpl; tauto].
  apply Nat.ltb_lt in E. intros H. split; [|lia].
  apply (Permutation_in d (by_mtime_desc_perm s ms)).
  destruct (by_mtime_desc s ms); simpl in *; auto.
Qed.

(** The file a group keeps is a member of the group and is not among
    the duplicates of any group. *)
Lemma keep_is_no_duplicate (items : list Path) (h : string) (ms : list Path) :
  NoDup items ->
  In (h, ms) (hash_groups s items) ->
  2 <= List.length ms ->
  In (group_keep s ms) ms /\
  ~ In (group_keep s ms) (duplicate_paths s (hash_groups s items)).
Proof.
  intros Hnd Hg Hlen.
  pose proof (hash_groups_group s h ms items Hg) as Hms.
  assert (NoDup ms) as Hndm by (subst ms; apply NoDup_filter; assumption).
  destruct (election s ms Hndm Hlen)
    as (before & keep & after & Hsplit & _ & _ & Hkeep & Hdups).
  rewrite Hkeep.
  assert (In keep ms) as Hin by (rewrite Hsplit; apply in_elt).
  split; [exact Hin|]. intros Hdup.
  apply duplicate_paths_group in Hdup. destruct Hdup as (h' & ms' & Hg' & Hd').
  pose proof (hash_groups_group s h' ms' items Hg') as Hms'.
  apply group_duplicate_paths_members in Hd' as Hmem. destruct Hmem as [Hmem _].
  assert (h' = h) as ->.
  { rewrite Hms in Hin. rewrite Hms' in Hmem.
    apply with_digest_In in Hin. apply with_digest_In in Hmem.
    destruct Hin as [_ E1]. destruct Hmem as [_ E2]. congruence. }
  assert (ms' = ms) as -> by congruence.
  apply Hdups in Hd'. rewrite Hsplit in Hndm.
  apply NoDup_remove_2 in Hndm. contradiction.
Qed.

End KeepingOneCopy.

(** [find_duplicates_sync] changes the file system by removals only,
    and only of files it reports as duplicates.  A file that cannot be
    read is never reported.  The original each report names is another
    file, readable, with the digest of the duplicate, and it is on disk
    afterwards as it was: of the files that share a digest one always
    stays. *)
Theorem duplicates_removal_keeps_the_original {L : Library}
  (downloads_path : option Path) (delete_duplicates : bool) (w : world) (n : node) :
  let root := get_downloads_path downloads_path in
  let s := files w in
  unique_paths s ->
  lookup s root = Some n ->
  exists rep w',
    find_duplicates_sync downloads_path delete_duplicates w = (Val (Ok rep), w') /\
    (forall q,
        lookup (files w') q = lookup s q \/
        (lookup (files w') q = None /\
         delete_duplicates = true /\
         In (rel root q) (map dup_file (duplicates rep)) /\
         exists f, lookup s q = Some (File f))) /\
    (forall e, In e (duplicates rep) ->
       exists f g,
         lookup s (root ++ dup_file e) = Some (File f) /\
         lookup s (root ++ dup_original e) = Some (File g) /\
         lookup (files w') (root ++ dup_original e) = Some (File g) /\
         dup_original e <> dup_file e /\
         readable f = true /\ readable g = true /\
         md5_hexdigest (content g) = md5_hexdigest (content f)).
Proof.
  intros root s Hu Hroot.
  rewrite (find_duplicates_run downloads_path delete_duplicates w n Hu Hroot).
  fold root s. cbv zeta.
  set (items := rglob_items s root). set (groups := hash_groups s items).
  eexists; eexists. split; [reflexivity|]. cbn [duplicates files set_files].
  assert (NoDup items) as Hitems by (apply rglob_items_NoDup; assumption).
  assert (forall p h, In p items -> digest_at s p = Some h ->
            within root p /\
            exists f, lookup s p = Some (File f) /\ readable f = true /\
                      md5_hexdigest (content f) = h) as Hfile.
  { intros p h Hp Hd. split.
    - apply below_within. eapply rglob_items_below; eassumption.
    - unfold digest_at in Hd. destruct (file_at s p) as [f|] eqn:Ef; [|discriminate].
      destruct (readable f) eqn:Er; [|discriminate]. inversion Hd; subst.
      exists f. split; [apply file_at_lookup; assumption | auto]. }
  split.
  - intros q. unfold set_files. cbn [files]. rewrite lookup_prune.
    destruct (existsb _ _) eqn:E; [right|left; reflexivity].
    apply mem_In in E. apply unlinked_In in E. destruct E as (Hdel & Hin & _).
    split; [reflexivity|]. split; [assumption|].
    apply duplicate_paths_group in Hin as Hgrp.
    destruct Hgrp as (h & ms & Hg & Hd). split.
    + apply in_map_iff.
      exists (mkDuplicate (rel root q) (size_at s q) (rel root (group_keep s ms))).
      split; [reflexivity|].
      apply (group_duplicates_reported s root groups h ms); [assumption|].
      unfold group_duplicates.
      apply (in_map (fun d => mkDuplicate (rel root d) (size_at s d)
                                (rel root (group_keep s ms)))).
      exact Hd.
    + apply group_duplicate_paths_members in Hd. destruct Hd as [Hmem _].
      rewrite (hash_groups_group s h ms items Hg) in Hmem.
      apply with_digest_In in Hmem. destruct Hmem as [Hq Hdig].
      destruct (Hfile q h Hq Hdig) as (_ & f & Hf & _ & _). eauto.
  - intros e He. apply expected_duplicates_inv in He.
    destruct He as (h & ms & d & Hg & Hd & ->). cbn [dup_file dup_original].
    apply group_duplicate_paths_members in Hd as Hmem.
    destruct Hmem as [Hmem Hlen].
    destruct (keep_is_no_duplicate s items h ms Hitems Hg Hlen) as [Hkin Hknot].
    pose proof (hash_groups_group s h ms items Hg) as Hms.
    set (keep := group_keep s ms) in *. clearbody keep.
    rewrite Hms in Hmem, Hkin.
    apply with_digest_In in Hmem. apply with_digest_In in Hkin.
    destruct Hmem as [Hd1 Hd2]. destruct Hkin as [Hk1 Hk2].
    destruct (Hfile d h Hd1 Hd2) as (Wd & f & Hf & Rf & Ef).
    destruct (Hfile _ h Hk1 Hk2) as (Wk & g & Hgk & Rg & Eg).
    rewrite (rel_rejoin root d Wd), (rel_rejoin root _ Wk).
    exists f, g. split; [exact Hf|]. split; [exact Hgk|].
    split; [|split; [|split; [exact Rf | split; [exact Rg|]]]].
    + unfold set_files. cbn [files]. rewrite lookup_prune_out; [exact Hgk|].
      intros Hin. apply unlinked_In in Hin. destruct Hin as (_ & Hin & _).
      contradiction.
    + intros E. apply Hknot.
      assert (keep = d) as ->.
      { rewrite <- (rel_rejoin root _ Wk), <- (rel_rejoin root d Wd), E.
        reflexivity. }
      unfold duplicate_paths. apply in_flat_map. exists (h, ms). auto.
    + congruence.
Qed.

Lemma duplicates_removal_keeps_the_original_witness :
  let w := boot tree_locked in
  unique_paths (files w) /\
  lookup (files w) (@get_downloads_path sample_library (Some ["dl"%string]))
  = Some (Dir true) /\
  exists rep w',
    @find_duplicates_sync sample_library (Some ["dl"%string]) true w
    = (Val (Ok rep), w') /\
    duplicates rep = [mkDuplicate ["locked"; "b.txt"]%string 4 ["a.txt"%string]] /\
    lookup (files w') ["dl"; "a.txt"]%string = Some (plain "same" (day 738001)).
Proof.
  intros w.
  assert (unique_paths (files w)) as Hu by (apply unique_pathsb_ok; reflexivity).
  split; [exact Hu|]. split; [reflexivity|].
  destruct (@duplicates_removal_keeps_the_original sample_library
              (Some ["dl"%string]) true w (Dir true) Hu eq_refl)
    as (rep & w' & Hrun & _ & Horig).
  assert (fst (@find_duplicates_sync sample_library (Some ["dl"%string]) true w)
          = Val (Ok (mkDuplicates
                       [mkDuplicate ["locked"; "b.txt"]%string 4 ["a.txt"%string]]
                       1 (MB 4) true))) as Hrep
      by (vm_compute; reflexivity).
  rewrite Hrun in Hrep. simpl in Hrep. inversion Hrep; subst rep.
  exists (mkDuplicates [mkDuplicate ["locked"; "b.txt"]%string 4 ["a.txt"%string]]
            1 (MB 4) true), w'.
  split; [exact Hrun|]. split; [reflexivity|].
  destruct (Horig (mkDuplicate ["locked"; "b.txt"]%string 4 ["a.txt"%string]))
    as (f & g & _ & Hbefore & Hafter & _); [left; reflexivity|].
  simpl in Hbefore, Hafter. rewrite Hafter, <- Hbefore. reflexivity.
Defined.

(* ================================================================== *)
(** ** Relations a walk maintains *)
(* ================================================================== *)

Lemma keeps_is_dir (p : Path) : keeps_files (is_dir p).
Proof. unfold is_dir. keeps. Qed.

Lemma keeps_scandir (d : Path) : keeps_files (scandir d).
Proof. unfold scandir. keeps. Qed.

Section Related.

Variable R : fs -> fs -> Prop.
Hypothesis R_refl : forall s, R s s.
Hypothesis R_trans : forall s s' s'', R s s' -> R s' s'' -> R s s''.

Lemma related_keeps {A} (m : M A) : keeps_files m -> related R m.
Proof. intros H w. rewrite H. apply R_refl. Qed.

Lemma related_bind {A B} (m : M A) (k : A -> M B) :
  related R m -> (forall a, related R (k a)) -> related R (bind m k).
Proof.
  intros Hm Hk w. unfold bind. specialize (Hm w).
  destruct (m w) as [[a|e|] w']; simpl in *; auto.
  eapply R_trans; [exact Hm | apply Hk].
Qed.

Lemma related_try {A} (m : M A) (h : exn -> M A) :
  related R m -> (forall e, related R (h e)) -> related R (try_except m h).
Proof.
  intros Hm Hh w. unfold try_except. specialize (Hm w).
  destruct (m w) as [[a|e|] w']; simpl in *; auto.
  eapply R_trans; [exact Hm | apply Hh].
Qed.

Lemma related_for_each {A X} (body : X -> A -> M A) :
  (forall x a, related R (body x a)) ->
  forall xs a, related R (for_each body xs a).
Proof.
  intros Hb. induction xs as [|x xs IH]; intros a; simpl.
  - apply related_keeps, keeps_ret.
  - apply related_bind; auto.
Qed.

Lemma related_rglob_from {A} (body : Path -> A -> M A) :
  (forall p a, related R (body p a)) ->
  forall k d st, related R (rglob_from body k d st).
Proof.
  intros Hb. induction k as [|k IH]; intros d st; simpl.
  - intros w. apply R_refl.
  - apply related_bind; [apply related_keeps, keeps_scandir|]. intros es.
    apply related_bind.
    + apply related_for_each. intros p st0. unfold visit.
      destruct (existsb _ _); [apply related_keeps, keeps_ret|].
      apply related_bind; [apply Hb|]. intros a. apply related_keeps, keeps_ret.
    + intros st1. apply related_bind; [apply related_keeps, keeps_scandir|].
      intros es'. apply related_for_each. intros c st2. apply IH.
Qed.

Lemma related_for_rglob {A} (body : Path -> A -> M A) (root : Path) (acc : A) :
  (forall p a, related R (body p a)) -> related R (for_rglob body root acc).
Proof.
  intros Hb. unfold for_rglob.
  apply related_bind; [apply related_keeps, keeps_is_dir|]. intros d.
  destruct d; [|apply related_keeps, keeps_ret].
  apply related_bind; [apply related_keeps, keeps_get_files|]. intros s.
  apply related_bind; [apply related_rglob_from; assumption|]. intros st.
  apply related_keeps, keeps_ret.
Qed.

End Related.

(* ================================================================== *)
(** ** Making directories *)
(* ================================================================== *)

Lemma adds_dirs_refl (s : fs) : adds_dirs s s.
Proof. split; [|split]; auto. Qed.

Lemma adds_dirs_trans (s s' s'' : fs) :
  adds_dirs s s' -> adds_dirs s' s'' -> adds_dirs s s''.
Proof.
  intros (A1 & B1 & C1) (A2 & B2 & C2). split; [|split]; auto.
Qed.

Lemma adds_dirs_add (s : fs) (p : Path) (b b' : bool) :
  lookup s p = None ->
  lookup s (PurePath.parent p) = Some (Dir b) ->
  adds_dirs s (add p (Dir b') s).
Proof.
  intros Hfree Hpar. split; [|split].
  - intros q n Hq. rewrite lookup_add, Hq. reflexivity.
  - intros q f Hq. rewrite lookup_add in Hq.
    destruct (lookup s q) as [x|]; [assumption|].
    destruct (PurePath.eqb p q); discriminate.
  - intros Hwf. eapply well_formed_add; eassumption.
Qed.

(** [os.mkdir] makes one directory in a directory that is there, or
    nothing. *)
Lemma os_mkdir_cases (p : Path) (w : world) :
  (files (snd (os_mkdir p w)) = files w /\
   forall u, fst (os_mkdir p w) <> Val u) \/
  (fst (os_mkdir p w) = Val tt /\
   files (snd (os_mkdir p w)) = add p (Dir true) (files w) /\
   lookup (files w) p = None /\
   exists b, lookup (files w) (PurePath.parent p) = Some (Dir b)).
Proof.
  unfold os_mkdir. mred. destruct p as [|x p].
  - left. split; [reflexivity | discriminate].
  - set (q := x :: p).
    destruct (lookup (files w) (PurePath.parent q)) as [[g|b]|] eqn:Ep; simpl;
      try (left; split; [reflexivity | discriminate]).
    destruct (lookup (files w) q) as [n|] eqn:Eq; simpl;
      try (left; split; [reflexivity | discriminate]).
    destruct b; simpl.
    + right. repeat split; eauto.
    + left. split; [reflexivity | discriminate].
Qed.

Lemma os_mkdir_adds_dirs (p : Path) : related adds_dirs (os_mkdir p).
Proof.
  intros w. destruct (os_mkdir_cases p w) as [[-> _]|(_ & -> & Hfree & b & Hb)].
  - apply adds_dirs_refl.
  - eapply adds_dirs_add; eassumption.
Qed.

Lemma mkdir_exist_ok_adds_dirs (p : Path) : related adds_dirs (mkdir_exist_ok p).
Proof.
  unfold mkdir_exist_ok.
  apply (related_try adds_dirs adds_dirs_trans); [apply os_mkdir_adds_dirs|].
  intros e. apply (related_keeps adds_dirs adds_dirs_refl).
  pose proof (keeps_is_dir p). destruct e; keeps.
Qed.

Lemma mkdir_parents_adds_dirs (n : nat) :
  forall p, related adds_dirs (mkdir_parents n p).
Proof.
  induction n as [|n IH]; intros p; simpl.
  - apply (related_try adds_dirs adds_dirs_trans); [apply os_mkdir_adds_dirs|].
    intros e. apply (related_keeps adds_dirs adds_dirs_refl).
    pose proof (keeps_is_dir p). destruct e; keeps.
  - apply (related_try adds_dirs adds_dirs_trans); [apply os_mkdir_adds_dirs|].
    intros e.
    assert (related adds_dirs
              (d <- is_dir p ;; if d then ret tt else raise e)) as Hother.
    { apply (related_keeps adds_dirs adds_dirs_refl).
      pose proof (keeps_is_dir p). keeps. }
    destruct e; try exact Hother.
    apply (related_bind adds_dirs adds_dirs_trans); [apply IH|].
    intros _. apply mkdir_exist_ok_adds_dirs.
Qed.

(** When [mkdir(parents=True, exist_ok=True)] returns, the directory
    is there. *)
Lemma mkdir_parents_made (n : nat) :
  forall p w u w',
    mkdir_parents n p w = (Val u, w') ->
    exists b, lookup (files w') p = Some (Dir b).
Proof.
  assert (forall p w u w',
            os_mkdir p w = (Val u, w') ->
            exists b, lookup (files w') p = Some (Dir b)) as Hmk.
  { intros p w u w' H.
    destruct (os_mkdir_cases p w) as [[_ Hno]|(_ & Hf & Hfree & _)].
    - exfalso. apply (Hno u). rewrite H. reflexivity.
    - rewrite H in Hf. simpl in Hf. rewrite Hf, lookup_add, Hfree, path_eqb_refl.
      eauto. }
  assert (forall p e w u w',
            (d <- is_dir p ;; if d then ret tt else raise e) w = (Val u, w') ->
            exists b, lookup (files w') p = Some (Dir b)) as Hdir.
  { intros p e w u w'. unfold is_dir. mred.
    destruct (lookup (files w) p) as [[g|b]|] eqn:E; simpl; intros H;
      inversion H; subst; eauto. }
  induction n as [|n IH]; intros p w u w'; simpl; unfold try_except.
  - destruct (os_mkdir p w) as [[u0|e|] w0] eqn:E; intros H.
    + inversion H; subst. eapply Hmk; eassumption.
    + destruct e; try (eapply Hdir; eassumption). inversion H.
    + inversion H.
  - destruct (os_mkdir p w) as [[u0|e|] w0] eqn:E; intros H.
    + inversion H; subst. eapply Hmk; eassumption.
    + destruct e; try (eapply Hdir; eassumption).
      apply bind_inv in H. destruct H as (u1 & w1 & _ & H).
      destruct (mkdir_exist_ok_spec _ _ _ _ H) as [[-> [b Hb]]|(-> & Hfree & _)].
      * eauto.
      * rewrite lookup_add, Hfree, path_eqb_refl. eauto.
    + inversion H.
Qed.

(* ================================================================== *)
(** ** The organizers lose no file *)
(* ================================================================== *)

Section Conservation.

Variable home : Path -> file -> Path.

(** The home of a file does not change when the file takes the name
    it is given there. *)
Hypothesis home_candidate :
  forall p f k, home (candidate p (home p f) k) f = home p f.

Lemma candidate_at_home (p : Path) (f : file) (k : nat) :
  at_home home (candidate p (home p f) k) f.
Proof.
  unfold at_home. rewrite home_candidate. unfold candidate. apply parent_child.
Qed.

Lemma conserves_refl (s : fs) : conserves home s s.
Proof. split; [|split; [|split]]; auto. Qed.

Lemma conserves_trans (s s' s'' : fs) :
  conserves home s s' -> conserves home s' s'' -> conserves home s s''.
Proof.
  intros (D1 & H1 & F1 & B1) (D2 & H2 & F2 & B2). split; [|split; [|split]].
  - auto.
  - auto.
  - intros p f Hp. destruct (F1 p f Hp) as [Hp'|[k Hk]].
    + apply F2. assumption.
    + right. exists k. apply H2; [assumption|]. apply candidate_at_home.
  - intros q f Hq. destruct (B2 q f Hq) as [Hq'|(p & k & Hp & Hnot & ->)].
    + apply B1. assumption.
    + right. exists p, k. split; [|auto].
      destruct (B1 p f Hp) as [Hp'|(p0 & k0 & _ & _ & ->)]; [assumption|].
      exfalso. apply Hnot. apply candidate_at_home.
Qed.

Lemma conserves_adds_dirs (s s' : fs) : adds_dirs s s' -> conserves home s s'.
Proof.
  intros (A & B & _). split; [|split; [|split]]; auto.
Qed.

(** A file that is not at home moves, or is copied, to a free name in
    its home, or stays. *)
Lemma move_conserves (s s2 : fs) (item : Path) (f : file) (k : nat) :
  let t := candidate item (home item f) k in
  lookup s item = Some (File f) ->
  ~ at_home home item f ->
  lookup s t = None ->
  (forall q, q <> item -> q <> t -> lookup s2 q = lookup s q) ->
  (lookup s2 t = Some (File f) /\ lookup s2 item = None) \/
  (lookup s2 item = Some (File f) /\
   (lookup s2 t = None \/ lookup s2 t = Some (File f))) ->
  conserves home s s2.
Proof.
  intros t Hitem Hnot Hfree Hframe Hres.
  assert (forall g, lookup s2 t = Some (File g) -> g = f) as Ht
      by (intros g Hg; destruct Hres as [[H _]|[_ [H|H]]]; congruence).
  assert (forall g, lookup s2 item = Some (File g) -> g = f) as Hi
      by (intros g Hg; destruct Hres as [[_ H]|[H _]]; congruence).
  split; [|split; [|split]].
  - intros q b Hq. rewrite Hframe; [assumption| |]; intros ->; congruence.
  - intros q g Hq Hhome. rewrite Hframe; [assumption| |]; intros ->.
    + rewrite Hitem in Hq. inversion Hq; subst. contradiction.
    + congruence.
  - intros p g Hp. destruct (path_eq_dec p item) as [->|Hpi].
    + rewrite Hitem in Hp. inversion Hp; subst g.
      destruct Hres as [[H _]|[H _]]; [right; exists k; exact H | left; exact H].
    + left. rewrite Hframe; [assumption|assumption|]. intros ->. congruence.
  - intros q g Hq. destruct (path_eq_dec q t) as [->|Hqt].
    + right. exists item, k. rewrite (Ht g Hq). auto.
    + destruct (path_eq_dec q item) as [->|Hqi].
      * left. rewrite (Hi g Hq). assumption.
      * left. rewrite <- Hframe; assumption.
Qed.

(** The statements of an organizer after the directory is made. *)
Lemma try_move_conserves (item : Path) (f : file) (acc : organize_acc)
  (key : string) (w : world) :
  lookup (files w) item = Some (File f) ->
  ~ at_home home item f ->
  conserves home (files w)
    (files (snd (try_except
                   (move_into item (home item f) ;;;
                    ret (dict_append key (PurePath.name item) (fst acc), snd acc))
                   (fun e => ret (fst acc, snd acc ++ [(PurePath.name item, e)]))
                   w))).
Proof.
  intros Hitem Hnot.
  destruct (move_into_spec item (home item f) w f Hitem)
    as (k & r & w2 & Hmove & Hfree & _ & Hframe & Hr).
  unfold try_except, bind. rewrite Hmove.
  destruct r as [t|e|]; [| |contradiction]; simpl;
    apply (move_conserves _ _ item f k Hitem Hnot Hfree Hframe); tauto.
Qed.

End Conservation.

Lemma type_home_candidate (root : Path) :
  forall p f k,
    type_home root (candidate p (type_home root p f) k) f = type_home root p f.
Proof. intros p f k. unfold type_home. rewrite candidate_category. reflexivity. Qed.

Lemma date_home_candidate (root : Path) :
  forall p f k,
    date_home root (candidate p (date_home root p f) k) f = date_home root p f.
Proof. reflexivity. Qed.

Lemma organize_by_type_body_conserves (root : Path) (dry_run : bool)
  (item : Path) (acc : organize_acc) :
  related (conserves (type_home root)) (organize_by_type_body root dry_run item acc).
Proof.
  intros w. unfold organize_by_type_body.
  rewrite (bind_val _ _ _ _ _ (is_file_at item w)). unfold file_at.
  destruct (lookup (files w) item) as [[f|b]|] eqn:E; cbn [is_some];
    try apply conserves_refl.
  destruct (PurePath.eqb _ _) eqn:Ep; [apply conserves_refl|].
  destruct dry_run; cbn [negb]; [apply conserves_refl|].
  unfold bind at 1.
  pose proof (mkdir_exist_ok_adds_dirs (PurePath.child root (get_category item)) w)
    as Hmk.
  destruct (mkdir_exist_ok _ w) as [[u|e|] wm]; simpl in Hmk;
    try (apply conserves_adds_dirs; assumption).
  eapply (conserves_trans _ (type_home_candidate root));
    [apply conserves_adds_dirs; exact Hmk|].
  apply (try_move_conserves (type_home root) item f acc (get_category item) wm).
  - apply Hmk. assumption.
  - unfold at_home, type_home. apply path_eqb_neq. assumption.
Qed.

Lemma organize_by_date_body_conserves (root : Path) (dry_run : bool)
  (item : Path) (acc : organize_acc) :
  related (conserves (date_home root)) (organize_by_date_body root dry_run item acc).
Proof.
  intros w. unfold organize_by_date_body.
  rewrite (bind_val _ _ _ _ _ (is_file_at item w)). unfold file_at.
  destruct (lookup (files w) item) as [[f|b]|] eqn:E; cbn [is_some];
    try apply conserves_refl.
  rewrite (bind_val _ _ _ _ _ (stat_file _ _ _ E)). cbn [st_mtime].
  assert (forall key,
    conserves (date_home root) (files w)
      (files (snd
        ((if PurePath.eqb (PurePath.parent item) (date_home root item f)
          then ret acc
          else if negb dry_run
               then mkdir_parents_exist_ok (date_home root item f) ;;;
                    try_except
                      (move_into item (date_home root item f) ;;;
                       ret (dict_append key (PurePath.name item) (fst acc), snd acc))
                      (fun e => ret (fst acc, snd acc ++ [(PurePath.name item, e)]))
               else ret (dict_append key (PurePath.name item) (fst acc), snd acc))
           w)))) as Hgen.
  { intros key.
    destruct (PurePath.eqb _ _) eqn:Ep; [apply conserves_refl|].
    destruct dry_run; cbn [negb]; [apply conserves_refl|].
    unfold bind at 1. unfold mkdir_parents_exist_ok.
    pose proof (mkdir_parents_adds_dirs (List.length (date_home root item f))
                  (date_home root item f) w) as Hmk.
    destruct (mkdir_parents _ _ w) as [[u|e|] wm]; simpl in Hmk;
      try (apply conserves_adds_dirs; assumption).
    eapply (conserves_trans _ (date_home_candidate root));
      [apply conserves_adds_dirs; exact Hmk|].
    apply (try_move_conserves (date_home root) item f acc key wm).
    - apply Hmk. assumption.
    - unfold at_home. apply path_eqb_neq. assumption. }
  unfold date_home in Hgen.
  destruct (Calendar.strftime_Y_mB (mtime f)) as [year month]. apply Hgen.
Qed.

(** [organize_by_type_sync] loses no file, whatever the tree and
    however the call ends, with or without [dry_run]: directories stay;
    a file in the folder of its category stays where it is; any other
    file is afterwards where it was or, the same bytes, time and
    permissions, in the folder of its category under its name or a
    numbered name; nothing else is created. *)
Theorem organize_by_type_loses_no_file {L : Library}
  (downloads_path : option Path) (dry_run : bool) (w : world) :
  conserves (type_home (get_downloads_path downloads_path)) (files w)
    (files (snd (organize_by_type_sync downloads_path dry_run w))).
Proof.
  set (root := get_downloads_path downloads_path).
  pose proof (conserves_refl (type_home root)) as Hrefl.
  pose proof (conserves_trans _ (type_home_candidate root)) as Htrans.
  revert w. change (related (conserves (type_home root))
                      (organize_by_type_sync downloads_path dry_run)).
  unfold organize_by_type_sync. fold root.
  apply (related_bind _ Htrans); [apply (related_keeps _ Hrefl), keeps_path_exists|].
  intros e. destruct (negb e); [apply (related_keeps _ Hrefl), keeps_ret|].
  apply (related_bind _ Htrans).
  - apply (related_for_rglob _ Hrefl Htrans). intros p a.
    apply organize_by_type_body_conserves.
  - intros acc. apply (related_keeps _ Hrefl), keeps_ret.
Qed.

(** [organize_by_date_sync] loses no file either: a file is afterwards
    where it was or in the folder of the month of its modification
    time, which the move does not change. *)
Theorem organize_by_date_loses_no_file {L : Library}
  (downloads_path : option Path) (dry_run : bool) (w : world) :
  conserves (date_home (get_downloads_path downloads_path)) (files w)
    (files (snd (organize_by_date_sync downloads_path dry_run w))).
Proof.
  set (root := get_downloads_path downloads_path).
  pose proof (conserves_refl (date_home root)) as Hrefl.
  pose proof (conserves_trans _ (date_home_candidate root)) as Htrans.
  revert w. change (related (conserves (date_home root))
                      (organize_by_date_sync downloads_path dry_run)).
  unfold organize_by_date_sync. fold root.
  apply (related_bind _ Htrans); [apply (related_keeps _ Hrefl), keeps_path_exists|].
  intros e. destruct (negb e); [apply (related_keeps _ Hrefl), keeps_ret|].
  apply (related_bind _ Htrans).
  - apply (related_for_rglob _ Hrefl Htrans). intros p a.
    apply organize_by_date_body_conserves.
  - intros acc. apply (related_keeps _ Hrefl), keeps_ret.
Qed.

(* ================================================================== *)
(** ** A run of an organizer brings every file home *)
(* ================================================================== *)

(** A move to a free name in a directory that is there leaves every
    entry in a directory. *)
Lemma move_keeps_parents (s s2 : fs) (item t : Path) (f : file) (b : bool) :
  parents_are_dirs s ->
  lookup s item = Some (File f) ->
  lookup s t = None ->
  lookup s (PurePath.parent t) = Some (Dir b) ->
  (forall q, q <> item -> q <> t -> lookup s2 q = lookup s q) ->
  parents_are_dirs s2.
Proof.
  intros Hwf Hitem Hfree Hpar Hframe q n Hq Hne.
  assert (exists b', lookup s (PurePath.parent q) = Some (Dir b')) as [b' Hb'].
  { destruct (path_eq_dec q t) as [->|Hqt]; [eauto|].
    destruct (path_eq_dec q item) as [->|Hqi]; [eapply Hwf; eauto|].
    rewrite Hframe in Hq by assumption. eapply Hwf; eauto. }
  exists b'. rewrite Hframe; [assumption| |]; intros E; rewrite E in Hb'; congruence.
Qed.

Section Homecoming.

Variable home : Path -> file -> Path.

Hypothesis home_candidate :
  forall p f k, home (candidate p (home p f) k) f = home p f.

Lemma settles_in_refl (s : fs) : settles_in home s s.
Proof. split; auto. Qed.

Lemma settles_in_trans (s s' s'' : fs) :
  settles_in home s s' -> settles_in home s' s'' -> settles_in home s s''.
Proof.
  intros [D1 F1] [D2 F2]. split; [auto|].
  intros p f Hp. destruct (F2 _ _ Hp) as [?|Hp']; auto.
Qed.

Lemma settled_in_stable (s s' : fs) (p : Path) :
  settles_in home s s' -> settled_in home s p -> settled_in home s' p.
Proof.
  intros [_ F] H f Hp. destruct (F _ _ Hp) as [?|Hp']; auto.
Qed.

(** What is conserved has settled. *)
Lemma conserves_settles (s s' : fs) : conserves home s s' -> settles_in home s s'.
Proof.
  intros (D & _ & _ & B). split; [exact D|].
  intros p f Hp. destruct (B p f Hp) as [?|(p0 & k & _ & _ & ->)]; auto.
  left. apply candidate_at_home. assumption.
Qed.

Lemma tidies_in_seq (Q1 Q2 : Path -> Prop) (st : walk_state) (w : world)
  (st1 : walk_state) (w1 : world) (st' : walk_state) (w' : world) :
  tidies_in home Q1 st w st1 w1 ->
  tidies_in home Q2 st1 w1 st' w' ->
  tidies_in home (fun p => Q1 p \/ Q2 p) st w st' w'.
Proof.
  intros (W1 & S1 & E1 & P1) (W2 & S2 & E2 & P2). split; [assumption|].
  split; [eapply settles_in_trans; eassumption|]. split; [auto|].
  intros He Hst. destruct (P1 (E2 He) Hst) as [F1 V1].
  destruct (P2 He F1) as [F2 V2]. split; [assumption|].
  intros p [Hp|Hp]; auto. eapply settled_in_stable; eauto.
Qed.

Lemma tidies_in_weaken (Q Q' : Path -> Prop) (st : walk_state) (w : world)
  (st' : walk_state) (w' : world) :
  (forall p, Q' p -> Q p) ->
  tidies_in home Q st w st' w' -> tidies_in home Q' st w st' w'.
Proof.
  intros HQ (W & S & E & P).
  split; [assumption|]. split; [assumption|]. split; [assumption|].
  intros He Hst. destruct (P He Hst) as [F V]. split; auto.
Qed.

Variable body : Path -> organize_acc -> M organize_acc.

(** The body of the loop, when it returns: the file it was handed is
    at home or has moved there, unless an error was noted. *)
Hypothesis body_settles :
  forall item acc w acc' w',
    well_formed (files w) ->
    body item acc w = (Val acc', w') ->
    well_formed (files w') /\
    settles_in home (files w) (files w') /\
    (snd acc' = [] -> snd acc = [] /\ settled_in home (files w') item).

Lemma visit_tidies_in (p : Path) (st : walk_state) (w : world)
  (st' : walk_state) (w' : world) :
  well_formed (files w) ->
  visit body p st w = (Val st', w') ->
  tidies_in home (eq p) st w st' w'.
Proof.
  intros Hwf. unfold visit.
  destruct (existsb (PurePath.eqb p) (fst st)) eqn:Ey.
  - intros H; inversion H; subst. split; [assumption|].
    split; [apply settles_in_refl|]. split; [auto|].
    intros _ Hst. split; [assumption|]. intros q <-.
    apply existsb_exists in Ey. destruct Ey as (q & Hq & Eq).
    apply path_eqb_eq in Eq; subst q.
    rewrite Forall_forall in Hst. auto.
  - intros H. apply bind_inv in H. destruct H as (acc' & w1 & Hb & H).
    inversion H; subst.
    destruct (body_settles _ _ _ _ _ Hwf Hb) as (W & S & P).
    split; [assumption|]. split; [assumption|].
    unfold no_errors. simpl. split; [intros He; apply P; assumption|].
    intros He Hst. destruct (P He) as [_ Hp]. split.
    + constructor; [assumption|].
      eapply Forall_impl; [|exact Hst]. intros q. apply settled_in_stable.
      assumption.
    + intros q <-. assumption.
Qed.

Lemma for_each_tidies_in {X} (step : X -> walk_state -> M walk_state)
  (Q : X -> Path -> Prop) :
  (forall x st w st' w',
      well_formed (files w) -> step x st w = (Val st', w') ->
      tidies_in home (Q x) st w st' w') ->
  forall xs st w st' w',
    well_formed (files w) -> for_each step xs st w = (Val st', w') ->
    tidies_in home (fun p => exists x, In x xs /\ Q x p) st w st' w'.
Proof.
  intros Hstep. induction xs as [|x xs IH]; intros st w st' w' Hwf H.
  - inversion H; subst. split; [assumption|].
    split; [apply settles_in_refl|]. split; [auto|].
    intros _ Hst. split; [assumption|]. intros p (x & [] & _).
  - simpl in H. apply bind_inv in H. destruct H as (st1 & w1 & H1 & H2).
    pose proof (Hstep _ _ _ _ _ Hwf H1) as T1.
    assert (well_formed (files w1)) as Hwf1 by apply T1.
    pose proof (IH _ _ _ _ Hwf1 H2) as T2.
    eapply tidies_in_weaken; [|eapply tidies_in_seq; eassumption].
    intros p (y & [<-|Hy] & Hp); simpl; eauto.
Qed.

(** The walk from [d], when it returns without a noted error, leaves
    no regular file below [d] away from home. *)
Lemma rglob_from_tidies_in :
  forall k d st w st' w',
    well_formed (files w) ->
    rglob_from body k d st w = (Val st', w') ->
    tidies_in home (below d) st w st' w'.
Proof.
  induction k as [|k IH]; intros d st w st' w' Hwf H; [discriminate|].
  simpl in H.
  apply bind_inv in H. destruct H as (es & w0 & Hscan & H).
  apply scandir_inv in Hscan. destruct Hscan as [-> ->].
  apply bind_inv in H. destruct H as (st1 & w1 & Hvisit & H).
  apply bind_inv in H. destruct H as (es' & w1' & Hscan & H).
  apply scandir_inv in Hscan. destruct Hscan as [-> ->].
  pose proof (for_each_tidies_in _ (fun x p => x = p)
                (fun x => visit_tidies_in x) _ _ _ _ _ Hwf Hvisit) as T1.
  assert (well_formed (files w1)) as Hwf1 by apply T1.
  pose proof (for_each_tidies_in _ (fun c p => below c p)
                (fun c => IH c) _ _ _ _ _ Hwf1 H) as T2.
  destruct T1 as (_ & S1 & E1 & P1). destruct T2 as (W2 & S2 & E2 & P2).
  split; [assumption|]. split; [eapply settles_in_trans; eassumption|].
  split; [auto|].
  intros He Hst. destruct (P1 (E2 He) Hst) as [F1 V1].
  destruct (P2 He F1) as [F2 V2]. split; [assumption|].
  intros p (r & Hr & ->) f Hf.
  destruct (path_eq_dec (PurePath.parent (d ++ r)) (home (d ++ r) f)) as [Hp|Hp];
    [exact Hp|].
  exfalso. apply Hp.
  destruct (proj2 S2 _ _ Hf) as [Hpl|Hf1]; [contradiction|].
  destruct r as [|x [|y r]]; [congruence| |].
  - (* an entry of [d]: it was listed, unless it appeared later *)
    destruct (proj2 S1 _ _ Hf1) as [Hpl|Hf0]; [contradiction|].
    assert (settled_in home (files w1) (d ++ [x])) as Hs.
    { apply V1. exists (d ++ [x]). split; [|reflexivity].
      eapply listdir_In; [eassumption| |].
      - destruct d; discriminate.
      - apply (parent_child d x). }
    apply Hs. assumption.
  - (* deeper: the directory it is in was walked *)
    assert (d ++ x :: y :: r = (d ++ [x]) ++ y :: r) as Heq
        by (rewrite <- app_assoc; reflexivity).
    rewrite Heq in *.
    destruct (ancestors_are_dirs (files w1) (proj2 Hwf1) (y :: r) (d ++ [x])
                (File f)) as [b Hb]; [discriminate | assumption |].
    eapply V2; [|eassumption].
    exists (d ++ [x]). split.
    + eapply subdir_In; [eassumption| |].
      * destruct d; discriminate.
      * apply (parent_child d x).
    + exists (y :: r). split; [discriminate | reflexivity].
Qed.

Lemma for_rglob_tidies_in (root : Path) (acc : organize_acc) (w : world)
  (acc' : organize_acc) (w' : world) :
  well_formed (files w) ->
  for_rglob body root acc w = (Val acc', w') ->
  snd acc' = [] ->
  well_formed (files w') /\
  arranged home (files w') root /\
  (forall n, lookup (files w) root = Some n ->
             exists n', lookup (files w') root = Some n').
Proof.
  intros Hwf H He. unfold for_rglob in H.
  apply bind_inv in H. destruct H as (d & w0 & Hd & H).
  unfold is_dir in Hd. mred. inversion Hd; subst w0. clear Hd.
  destruct (lookup (files w) root) as [[f|b]|] eqn:E; subst d.
  - inversion H; subst. split; [assumption|]. split; [|eauto].
    intros p (r & Hr & ->) g Hg.
    destruct (ancestors_are_dirs _ (proj2 Hwf) r root _ Hr Hg). congruence.
  - destruct (rglob_from _ _ root ([], acc) w) as [[st|e|] w1] eqn:Ew;
      inversion H; subst.
    destruct (rglob_from_tidies_in _ _ _ _ _ _ Hwf Ew) as (W & S & _ & P).
    split; [assumption|]. split.
    + destruct (P He (Forall_nil _)) as [_ V]. exact V.
    + intros n _. exists (Dir b). apply (proj1 S). assumption.
  - inversion H; subst. split; [assumption|]. split; [|discriminate].
    intros p (r & Hr & ->) g Hg.
    destruct (ancestors_are_dirs _ (proj2 Hwf) r root _ Hr Hg). congruence.
Qed.

End Homecoming.

(* ================================================================== *)
(** ** organize_by_date_sync, twice *)
(* ================================================================== *)

Lemma organize_by_date_body_settles (root : Path) :
  forall item acc w acc' w',
    well_formed (files w) ->
    organize_by_date_body root false item acc w = (Val acc', w') ->
    well_formed (files w') /\
    settles_in (date_home root) (files w) (files w') /\
    (snd acc' = [] -> snd acc = [] /\ settled_in (date_home root) (files w') item).
Proof.
  intros item acc w acc' w' Hwf Hrun.
  pose proof (organize_by_date_body_conserves root false item acc w) as Hcons.
  rewrite Hrun in Hcons. simpl in Hcons.
  split; [|split; [apply (conserves_settles _ (date_home_candidate root));
                   exact Hcons|]].
  - (* still well formed *)
    revert Hrun. unfold organize_by_date_body.
    rewrite (bind_val _ _ _ _ _ (is_file_at item w)). unfold file_at.
    destruct (lookup (files w) item) as [[f|b]|] eqn:E; cbn [is_some];
      try (intros H; inversion H; subst; assumption).
    rewrite (bind_val _ _ _ _ _ (stat_file _ _ _ E)). cbn [st_mtime].
    pose proof (eq_refl (date_home root item f)) as Hhome.
    unfold date_home at 1 in Hhome.
    destruct (Calendar.strftime_Y_mB (mtime f)) as [year month].
    rewrite Hhome. clear Hhome.
    destruct (PurePath.eqb _ _); [intros H; inversion H; subst; assumption|].
    cbn [negb]. intros H. apply bind_inv in H. destruct H as (u & wm & Hmk & H).
    unfold mkdir_parents_exist_ok in Hmk.
    pose proof (mkdir_parents_adds_dirs (List.length (date_home root item f))
                  (date_home root item f) w) as Hadd.
    rewrite Hmk in Hadd. simpl in Hadd. destruct Hadd as (Hkeep & _ & Hwfm).
    destruct (mkdir_parents_made _ _ _ _ _ Hmk) as [bt Htarget].
    specialize (Hwfm Hwf). specialize (Hkeep _ _ E).
    destruct (move_into_spec item (date_home root item f) wm f Hkeep)
      as (k & r & w2 & Hmove & Hfree & Hu & Hframe & Hr).
    assert (well_formed (files w2)) as Hwf2.
    { split; [apply Hu, Hwfm|].
      eapply (move_keeps_parents (files wm) (files w2) item
                (candidate item (date_home root item f) k) f bt);
        try eassumption; [apply Hwfm|].
      unfold candidate. rewrite parent_child. assumption. }
    unfold try_except, bind in H. rewrite Hmove in H.
    destruct r as [tp|e|]; [| |contradiction]; inversion H; subst; assumption.
  - (* the item, when no error was noted *)
    revert Hrun. unfold organize_by_date_body.
    rewrite (bind_val _ _ _ _ _ (is_file_at item w)). unfold file_at.
    destruct (lookup (files w) item) as [[f|b]|] eqn:E; cbn [is_some];
      try (intros H; inversion H; subst; intros He; split; [assumption|];
           intros g Hg; congruence).
    rewrite (bind_val _ _ _ _ _ (stat_file _ _ _ E)). cbn [st_mtime].
    pose proof (eq_refl (date_home root item f)) as Hhome.
    unfold date_home at 1 in Hhome.
    destruct (Calendar.strftime_Y_mB (mtime f)) as [year month].
    rewrite Hhome. clear Hhome.
    destruct (PurePath.eqb _ _) eqn:Ep.
    + intros H; inversion H; subst. intros He; split; [assumption|].
      intros g Hg. rewrite E in Hg. inversion Hg; subst g.
      apply path_eqb_eq in Ep. exact Ep.
    + cbn [negb]. intros H. apply bind_inv in H.
      destruct H as (u & wm & Hmk & H).
      unfold mkdir_parents_exist_ok in Hmk.
      pose proof (mkdir_parents_adds_dirs (List.length (date_home root item f))
                  (date_home root item f) w) as Hadd.
      rewrite Hmk in Hadd. simpl in Hadd. destruct Hadd as (Hkeep & _ & _).
      specialize (Hkeep _ _ E).
      destruct (move_into_spec item (date_home root item f) wm f Hkeep)
        as (k & r & w2 & Hmove & Hfree & Hu & Hframe & Hr).
      unfold try_except, bind in H. rewrite Hmove in H.
      destruct r as [tp|e|]; [| |contradiction]; inversion H; subst; simpl.
      * intros He; split; [assumption|]. intros g Hg.
        destruct Hr as [_ Hgone]. congruence.
      * intros He. apply app_eq_nil in He. destruct He; discriminate.
Qed.

Lemma date_target_home (s : fs) (root item : Path) (f : file) :
  lookup s item = Some (File f) ->
  snd (date_target s root item) = date_home root item f.
Proof.
  intros H. unfold date_target, date_home, mtime_at, file_at. rewrite H.
  destruct (Calendar.strftime_Y_mB (mtime f)); reflexivity.
Qed.

(** On an arranged tree the organizer does what its dry run does. *)
Lemma organize_date_body_arranged (root item : Path) (acc : organize_acc)
  (w : world) :
  arranged (date_home root) (files w) root -> below root item ->
  organize_by_date_body root false item acc w =
  organize_by_date_body root true item acc w.
Proof.
  intros Ho Hb. unfold organize_by_date_body.
  rewrite !(bind_val _ _ _ _ _ (is_file_at item w)). unfold file_at.
  destruct (lookup (files w) item) as [[f|b]|] eqn:E; try reflexivity.
  cbn [is_some]. rewrite !(bind_val _ _ _ _ _ (stat_file _ _ _ E)).
  cbn [st_mtime]. pose proof (Ho item Hb f E) as Hp.
  unfold at_home, date_home in Hp.
  destruct (Calendar.strftime_Y_mB (mtime f)) as [year month].
  apply path_eqb_eq in Hp. rewrite Hp. reflexivity.
Qed.

Lemma planned_moves_arranged (root : Path) (s : fs) (items : list Path) :
  arranged (date_home root) s root -> Forall (below root) items ->
  planned_moves (date_target s root) s items = [].
Proof.
  intros Ho. unfold planned_moves. generalize (@nil (string * list string)).
  induction items as [|item items IH]; intros d Hb; [reflexivity|].
  inversion Hb; subst. simpl.
  assert (misplaced (date_target s root) s item = false) as ->.
  { unfold misplaced, file_at.
    destruct (lookup s item) as [[f|b]|] eqn:E; try reflexivity.
    rewrite (date_target_home s root item f E).
    pose proof (Ho item H1 f E) as Hp. unfold at_home in Hp.
    apply path_eqb_eq in Hp. rewrite Hp. reflexivity. }
  apply IH; assumption.
Qed.

(** [organize_by_date_sync] is idempotent.  After a run with
    [dry_run = False] that returned and noted no error, every regular
    file below the root lies in the folder of the year and month of its
    modification time, and a second run moves nothing: its report is
    empty and the machine is in the state the first run left. *)
Theorem organize_by_date_is_idempotent {L : Library}
  (downloads_path : option Path) (w : world)
  (rep1 : organize_report) (w1 : world) :
  let root := get_downloads_path downloads_path in
  unique_paths (files w) ->
  parents_are_dirs (files w) ->
  organize_by_date_sync downloads_path false w = (Val (Ok rep1), w1) ->
  errors rep1 = [] ->
  arranged (date_home root) (files w1) root /\
  organize_by_date_sync downloads_path false w1 =
  (Val (Ok (mkOrganize [] 0 0 [] false)), w1).
Proof.
  intros root Hu Hp Hrun Herr.
  unfold organize_by_date_sync in Hrun. fold root in Hrun.
  apply bind_inv in Hrun. destruct Hrun as (e & w0 & Hex & Hrun).
  rewrite path_exists_spec in Hex. inversion Hex; subst w0. clear Hex.
  destruct (lookup (files w) root) as [n|] eqn:Er; subst e;
    cbn [negb] in Hrun; [|inversion Hrun].
  apply bind_inv in Hrun. destruct Hrun as (acc & w2 & Hwalk & Hret).
  inversion Hret; subst. simpl in Herr.
  destruct (for_rglob_tidies_in (date_home root)
              (organize_by_date_body root false)
              (organize_by_date_body_settles root)
              root _ _ _ _ (conj Hu Hp) Hwalk Herr)
    as ([Hu1 Hp1] & Ho & Hroot).
  split; [exact Ho|].
  destruct (Hroot n Er) as [n' Hn'].
  unfold organize_by_date_sync. fold root.
  rewrite (bind_val _ _ _ _ _ (path_exists_present _ _ _ Hn')). cbn [negb].
  unfold bind.
  rewrite (for_rglob_agree _ (organize_by_date_body root true)).
  - rewrite for_rglob_items;
      [|apply keeps_tidy; intros; apply keeps_organize_by_date_body | assumption].
    assert (planned_moves (date_target (files w1) root) (files w1)
              (rglob_items (files w1) root) = []) as Hnone.
    { apply planned_moves_arranged; [assumption|].
      apply Forall_forall. intros p Hin. eapply rglob_items_below; eassumption. }
    unfold planned_moves in Hnone.
    rewrite (dry_loop (date_target (files w1) root) (files w1));
      [| intros item acc0 w' <-; apply organize_by_date_dry | reflexivity].
    cbn [fst snd]. rewrite Hnone. reflexivity.
  - intros; apply keeps_organize_by_date_body.
  - intros p a w' Hb Hw'. apply organize_date_body_arranged; [|assumption].
    rewrite Hw'. assumption.
Qed.

Lemma organize_by_date_is_idempotent_witness :
  let w := boot tree_sub in
  let dp := Some ["dl"%string] in
  let run := @organize_by_date_sync sample_library dp false w in
  let rep1 := mkOrganize [("2021/07-July", ["a.png"; "b.txt"])]%string
                2 1 [] false in
  unique_paths (files w) /\
  parents_are_dirs (files w) /\
  run = (Val (Ok rep1), snd run) /\
  errors rep1 = [] /\
  arranged (date_home ["dl"%string]) (files (snd run)) ["dl"%string] /\
  @organize_by_date_sync sample_library dp false (snd run) =
  (Val (Ok (mkOrganize [] 0 0 [] false)), snd run).
Proof.
  intros w dp run rep1.
  assert (unique_paths (files w)) as Hu by (apply unique_pathsb_ok; reflexivity).
  assert (parents_are_dirs (files w)) as Hp
      by (apply parents_are_dirsb_ok; [assumption | reflexivity]).
  assert (run = (Val (Ok rep1), snd run)) as Hrun.
  { rewrite (surjective_pairing run) at 1.
    apply (f_equal2 pair); [vm_compute; reflexivity | reflexivity]. }
  split; [exact Hu|]. split; [exact Hp|]. split; [exact Hrun|].
  split; [reflexivity|].
  exact (@organize_by_date_is_idempotent sample_library dp w rep1 (snd run)
           Hu Hp Hrun eq_refl).
Defined.

(* ================================================================== *)
(** ** extract_archives_sync *)
(* ================================================================== *)

Lemma touches_only_refl (P : Path -> Prop) (s : fs) : touches_only P s s.
Proof. intros q _. reflexivity. Qed.

Lemma touches_only_trans (P : Path -> Prop) (s s' s'' : fs) :
  touches_only P s s' -> touches_only P s' s'' -> touches_only P s s''.
Proof. intros H1 H2 q Hq. rewrite H2, H1 by assumption. reflexivity. Qed.

Lemma never_removes_refl (s : fs) : never_removes s s.
Proof. intros q [f|b] H; eauto. Qed.

Lemma never_removes_trans (s s' s'' : fs) :
  never_removes s s' -> never_removes s' s'' -> never_removes s s''.
Proof.
  intros H1 H2 q [f|b] H.
  - destruct (H1 q _ H) as [f' Hf']. apply (H2 q _ Hf').
  - apply (H2 q (Dir b)). apply (H1 q (Dir b)). assumption.
Qed.

(** What one system call touches. *)
Lemma os_mkdir_touches (p : Path) (w : world) :
  touches_only (eq p) (files w) (files (snd (os_mkdir p w))) /\
  never_removes (files w) (files (snd (os_mkdir p w))).
Proof.
  destruct (os_mkdir_cases p w) as [[-> _]|(_ & -> & Hfree & _)].
  - split; [apply touches_only_refl | apply never_removes_refl].
  - split.
    + intros q Hq. rewrite lookup_add.
      destruct (lookup (files w) q); [reflexivity|].
      assert (PurePath.eqb p q = false) as -> by (apply path_eqb_neq; exact Hq).
      reflexivity.
    + intros q n Hq. rewrite lookup_add, Hq. destruct n; eauto.
Qed.

Lemma write_bytes_touches (p : Path) (data : list byte) (w : world) :
  touches_only (eq p) (files w) (files (snd (write_bytes p data w))) /\
  never_removes (files w) (files (snd (write_bytes p data w))).
Proof.
  unfold write_bytes, now. mred.
  destruct (lookup (files w) p) as [[f|b]|] eqn:E; simpl;
    try (split; [apply touches_only_refl | apply never_removes_refl]).
  - destruct (writable f); simpl;
      [|split; [apply touches_only_refl | apply never_removes_refl]].
    split.
    + intros q Hq. rewrite lookup_update.
      assert (PurePath.eqb p q = false) as -> by (apply path_eqb_neq; exact Hq).
      destruct (lookup (files w) q); reflexivity.
    + intros q n Hq. rewrite lookup_update, Hq.
      destruct (PurePath.eqb p q) eqn:Epq.
      * apply path_eqb_eq in Epq; subst q. rewrite E in Hq. inversion Hq; subst.
        eauto.
      * destruct n; eauto.
  - destruct (lookup (files w) (PurePath.parent p)) as [[g|[|]]|]; simpl;
      try (split; [apply touches_only_refl | apply never_removes_refl]).
    split.
    + intros q Hq. rewrite lookup_add.
      destruct (lookup (files w) q); [reflexivity|].
      assert (PurePath.eqb p q = false) as -> by (apply path_eqb_neq; exact Hq).
      reflexivity.
    + intros q n Hq. rewrite lookup_add, Hq. destruct n; eauto.
Qed.

Lemma unlink_touches (p : Path) (w : world) :
  touches_only (eq p) (files w) (files (snd (unlink p w))).
Proof.
  unfold unlink. mred.
  destruct (lookup (files w) p) as [[f|b]|]; simpl; try apply touches_only_refl.
  destruct (dir_writable _ _); simpl; [|apply touches_only_refl].
  intros q Hq. apply lookup_remove_neq. congruence.
Qed.

Lemma makedirs_never_removes (n : nat) :
  forall p, related never_removes (makedirs n p).
Proof.
  assert (forall p, related never_removes (os_mkdir p)) as Hmk
      by (intros p w; apply os_mkdir_touches).
  induction n as [|n IH]; intros p; simpl; [apply Hmk|].
  apply (related_bind _ never_removes_trans).
  - apply (related_keeps _ never_removes_refl), keeps_path_exists.
  - intros e. apply (related_bind _ never_removes_trans); [|intros _; apply Hmk].
    destruct e; [apply (related_keeps _ never_removes_refl), keeps_ret|].
    apply (related_try _ never_removes_trans); [apply IH|].
    intros x. apply (related_keeps _ never_removes_refl). destruct x; keeps.
Qed.

(** [os.makedirs] below a directory whose parent is there makes
    directories inside that directory only. *)
Lemma makedirs_inside (d : Path) (n : nat) :
  forall r w,
    lookup (files w) (PurePath.parent d) <> None ->
    Forall proper_component r ->
    touches_only (inside d) (files w) (files (snd (makedirs n (d ++ r) w))).
Proof.
  assert (forall r w, Forall proper_component r ->
            touches_only (inside d) (files w)
              (files (snd (os_mkdir (d ++ r) w)))) as Hmk.
  { intros r w Hr q Hq. apply (proj1 (os_mkdir_touches (d ++ r) w)).
    intros <-. apply Hq. exists r. auto. }
  induction n as [|n IH]; intros r w Hpar Hr; simpl; [apply Hmk; assumption|].
  unfold bind at 1. unfold bind at 1. rewrite path_exists_spec.
  destruct (lookup (files w) (PurePath.parent (d ++ r))) as [x|] eqn:E.
  - apply Hmk. assumption.
  - destruct r as [|c r'] using rev_ind.
    + rewrite app_nil_r in E. congruence.
    + clear IHr'.
      assert (PurePath.parent (d ++ r' ++ [c]) = d ++ r') as Hp
          by apply parent_app_last.
      rewrite Hp in *.
      assert (Forall proper_component r') as Hr'
          by (apply Forall_app in Hr; tauto).
      pose proof (IH r' w Hpar Hr') as Hrec. unfold try_except.
      destruct (makedirs n (d ++ r') w) as [[u|e|] w1]; simpl in *.
      * eapply touches_only_trans; [exact Hrec|]. apply Hmk. assumption.
      * destruct e; simpl; try exact Hrec.
        eapply touches_only_trans; [exact Hrec|]. apply Hmk. assumption.
      * exact Hrec.
Qed.

Lemma sanitize_proper (arcname : Path) : Forall proper_component (sanitize arcname).
Proof.
  apply Forall_forall. intros c Hc. unfold sanitize in Hc.
  apply filter_In in Hc. destruct Hc as [_ Hc].
  apply negb_true_iff in Hc. apply orb_false_elim in Hc. destruct Hc as [Hc H3].
  apply orb_false_elim in Hc. destruct Hc as [H1 H2].
  apply String.eqb_neq in H1, H2, H3. repeat split; assumption.
Qed.

Lemma parent_not_within (d : Path) : d <> [] -> ~ within d (PurePath.parent d).
Proof.
  intros Hne [r Hr]. apply (f_equal (@List.length _)) in Hr.
  rewrite length_app, (length_parent d Hne) in Hr. lia.
Qed.

Lemma inside_within (d q : Path) : inside d q -> within d q.
Proof. intros (r & -> & _). exists r. reflexivity. Qed.

Section Extraction.

Context {L : Library}.

Lemma extract_member_inside (d : Path) (m : zip_entry) (w : world) :
  lookup (files w) (PurePath.parent d) <> None ->
  touches_only (inside d) (files w) (files (snd (extract_member d m tt w))).
Proof.
  intros Hpar. unfold extract_member.
  pose proof (sanitize_proper (fst m)) as Hr.
  set (r := sanitize (fst m)) in *.
  assert (forall w0, touches_only (inside d) (files w0)
                       (files (snd (write_bytes (d ++ r) (snd m) w0)))) as Hwrite.
  { intros w0 q Hq. apply (proj1 (write_bytes_touches (d ++ r) (snd m) w0)).
    intros <-. apply Hq. exists r. auto. }
  unfold bind at 1. unfold bind at 1. rewrite path_exists_spec.
  destruct (lookup (files w) (PurePath.parent (d ++ r))) as [x|] eqn:E.
  - apply Hwrite.
  - destruct r as [|c r'] using rev_ind.
    + rewrite app_nil_r in E. congruence.
    + clear IHr'.
      assert (PurePath.parent (d ++ r' ++ [c]) = d ++ r') as Hp
          by apply parent_app_last.
      rewrite Hp in *.
      assert (Forall proper_component r') as Hr'
          by (apply Forall_app in Hr; tauto).
      pose proof (makedirs_inside d (List.length (d ++ r')) r' w Hpar Hr') as Hmk.
      destruct (makedirs _ (d ++ r') w) as [[u|e|] w1]; simpl in *;
        try exact Hmk.
      eapply touches_only_trans; [exact Hmk | apply Hwrite].
Qed.

Lemma extract_members_inside (d : Path) (members : list zip_entry) :
  d <> [] ->
  forall w,
    lookup (files w) (PurePath.parent d) <> None ->
    touches_only (inside d) (files w)
      (files (snd (for_each (extract_member d) members tt w))).
Proof.
  intros Hne. induction members as [|m members IH]; intros w Hpar; simpl.
  - apply touches_only_refl.
  - unfold bind. pose proof (extract_member_inside d m w Hpar) as H1.
    destruct (extract_member d m tt w) as [[[]|e|] w1]; simpl in *; try exact H1.
    eapply touches_only_trans; [exact H1|]. apply IH.
    rewrite H1; [assumption|].
    intros Hin. apply inside_within in Hin. revert Hin.
    apply parent_not_within. assumption.
Qed.

Lemma extractall_inside (item d : Path) (w : world) :
  d <> [] ->
  lookup (files w) (PurePath.parent d) <> None ->
  touches_only (inside d) (files w) (files (snd (extractall item d w))).
Proof.
  intros Hne Hpar. unfold extractall, bind.
  pose proof (keeps_read_bytes item w) as Hk.
  destruct (read_bytes item w) as [[data|e|] w1]; simpl in *;
    try (rewrite Hk; apply touches_only_refl).
  rewrite <- Hk in *.
  destruct (zip_decode data) as [members|]; [|apply touches_only_refl].
  apply extract_members_inside; assumption.
Qed.

Lemma extract_member_never_removes (d : Path) (m : zip_entry) :
  related never_removes (extract_member d m tt).
Proof.
  unfold extract_member.
  apply (related_bind _ never_removes_trans).
  - apply (related_keeps _ never_removes_refl), keeps_path_exists.
  - intros e. apply (related_bind _ never_removes_trans).
    + destruct e; [apply (related_keeps _ never_removes_refl), keeps_ret|].
      apply makedirs_never_removes.
    + intros _ w. apply write_bytes_touches.
Qed.

Lemma extractall_never_removes (item d : Path) :
  related never_removes (extractall item d).
Proof.
  unfold extractall.
  apply (related_bind _ never_removes_trans).
  - apply (related_keeps _ never_removes_refl), keeps_read_bytes.
  - intros data. destruct (zip_decode data) as [members|].
    + apply (related_for_each _ never_removes_refl never_removes_trans).
      intros m []. apply extract_member_never_removes.
    + apply (related_keeps _ never_removes_refl), keeps_raise.
Qed.

Lemma extract_body_never_removes (root item : Path) (acc : extract_acc) :
  related never_removes (extract_body root false item acc).
Proof.
  unfold extract_body.
  apply (related_bind _ never_removes_trans).
  - apply (related_keeps _ never_removes_refl), keeps_is_file.
  - intros f. destruct (f && _); [|apply (related_keeps _ never_removes_refl), keeps_ret].
    apply (related_try _ never_removes_trans).
    + apply (related_bind _ never_removes_trans);
        [apply extractall_never_removes|].
      intros _. apply (related_keeps _ never_removes_refl). keeps.
    + intros e. apply (related_keeps _ never_removes_refl), keeps_ret.
Qed.

(** An archive that cannot be read, or whose bytes are no ZIP
    container, is noted under [errors] by its name; nothing is
    extracted, nothing is created, and the file is not deleted, also
    when [delete_after] is set.  The loop goes on. *)
Theorem bad_archive_is_reported_and_kept
  (root : Path) (delete_after : bool) (item : Path) (acc : extract_acc)
  (w : world) (f : file) :
  lookup (files w) item = Some (File f) ->
  PurePath.lower (PurePath.suffix item) = ".zip"%string ->
  readable f = false \/ zip_decode (content f) = None ->
  exists e,
    extract_body root delete_after item acc w =
    (Val (fst acc, snd acc ++ [(PurePath.name item, e)]), w) /\
    (e = PermissionError \/ e = BadZipFile).
Proof.
  intros Hitem Hzip Hbad. unfold extract_body.
  rewrite (bind_val _ _ _ _ _ (is_file_at item w)). unfold file_at.
  rewrite Hitem, Hzip. cbn [is_some andb String.eqb].
  change (String.eqb ".zip" ".zip") with true. cbv iota.
  unfold try_except, bind at 1. unfold extractall, bind at 1.
  unfold read_bytes. mred. rewrite Hitem.
  destruct (readable f) eqn:Er; simpl.
  - destruct Hbad as [Hbad|Hbad]; [discriminate|]. rewrite Hbad. simpl.
    exists BadZipFile. auto.
  - exists PermissionError. auto.
Qed.



End Extraction.

Lemma bad_archive_is_reported_and_kept_witness :
  let w := boot tree_archive in
  let item := ["dl"; "docs.zip"]%string in
  lookup (files w) item = Some (plain "payload" (day 738000)) /\
  PurePath.lower (PurePath.suffix item) = ".zip"%string /\
  (readable (plain_file "payload" (day 738000)) = false \/
   @zip_decode sample_library (content (plain_file "payload" (day 738000))) = None) /\
  exists e,
    @extract_body sample_library ["dl"%string] true item ([], []) w =
    (Val ([], [("docs.zip"%string, e)]), w).
Proof.
  intros w item.
  split; [reflexivity|]. split; [reflexivity|]. split; [right; reflexivity|].
  destruct (@bad_archive_is_reported_and_kept sample_library ["dl"%string] true
              item ([], []) w (plain_file "payload" (day 738000))
              eq_refl eq_refl (or_intror eq_refl)) as (e & Hrun & _).
  exists e. exact Hrun.
Defined.


(* ================================================================== *)
(** ** When organize_by_type_sync returns *)
(* ================================================================== *)

Lemma category_in_table (p : Path) : In (get_category p) (map fst FILE_CATEGORIES).
Proof.
  unfold get_category.
  destruct (lookup_category _ FILE_CATEGORIES) as [c|] eqn:E.
  - apply lookup_category_found in E. destruct E as (exts & H & _).
    apply (in_map fst) in H. exact H.
  - simpl. tauto.
Qed.

Lemma length_child (d : Path) (c : string) :
  List.length (PurePath.child d c) = S (List.length d).
Proof. unfold PurePath.child. rewrite length_app. simpl. lia. Qed.

(** [mkdir(exist_ok=True)] in a directory that takes new entries
    returns unless a regular file has the name. *)
Lemma mkdir_exist_ok_returns (p : Path) (w : world) :
  p <> [] ->
  lookup (files w) (PurePath.parent p) = Some (Dir true) ->
  (forall g, lookup (files w) p <> Some (File g)) ->
  exists wm,
    mkdir_exist_ok p w = (Val tt, wm) /\
    (files wm = files w \/
     (lookup (files w) p = None /\ files wm = add p (Dir true) (files w))).
Proof.
  intros Hne Hpar Hfile.
  unfold mkdir_exist_ok, try_except, os_mkdir, is_dir. mred.
  destruct p as [|x p]; [congruence|]. set (q := x :: p) in *.
  rewrite Hpar. destruct (lookup (files w) q) as [[g|b]|] eqn:Eq; simpl.
  - exfalso. apply (Hfile g). reflexivity.
  - rewrite Eq. simpl. eexists. split; [reflexivity | left; reflexivity].
  - eexists. split; [reflexivity|]. right. split; reflexivity.
Qed.

Section Returning.

Variable root : Path.
Variable B : nat.
Hypothesis B_root : S (List.length root) <= B.

Lemma ready_add_dir (s : fs) (c : string) :
  ready root B s ->
  ready root B (add (PurePath.child root c) (Dir true) s).
Proof.
  intros (Hroot & Hfree & Hdeep). split; [|split].
  - rewrite lookup_add, Hroot. reflexivity.
  - intros c' g Hc'. rewrite lookup_add.
    destruct (lookup s (PurePath.child root c')) as [x|] eqn:E.
    + rewrite <- E. apply Hfree. assumption.
    + destruct (PurePath.eqb _ _); discriminate.
  - intros q b. rewrite lookup_add.
    destruct (lookup s q) as [x|] eqn:E.
    + intros H. inversion H; subst. eapply Hdeep; eassumption.
    + destruct (PurePath.eqb _ q) eqn:Eq; [|discriminate].
      apply path_eqb_eq in Eq; subst q. intros _. rewrite length_child. exact B_root.
Qed.

Lemma ready_move (s s2 : fs) (item : Path) (f : file) (c : string) (k : nat) :
  let t := candidate item (PurePath.child root c) k in
  ready root B s ->
  lookup s item = Some (File f) ->
  lookup s t = None ->
  (forall q, q <> item -> q <> t -> lookup s2 q = lookup s q) ->
  (lookup s2 t = Some (File f) \/ lookup s2 t = None) ->
  (lookup s2 item = Some (File f) \/ lookup s2 item = None) ->
  ready root B s2.
Proof.
  intros t (Hroot & Hfree & Hdeep) Hitem Hnone Hframe Ht Hi.
  assert (forall q b, lookup s2 q = Some (Dir b) -> lookup s q = Some (Dir b)) as Hdirs.
  { intros q b Hq. rewrite <- Hframe; [assumption| |]; intros ->.
    - destruct Hi as [Hi|Hi]; congruence.
    - destruct Ht as [Ht|Ht]; congruence. }
  split; [|split].
  - rewrite Hframe; [assumption| |]; intros E; rewrite <- E in *; congruence.
  - intros c' g Hc' Hg.
    assert (PurePath.child root c' <> t) as Hnt.
    { intros E. apply (f_equal (@List.length _)) in E. unfold t, candidate in E.
      rewrite !length_child in E. lia. }
    destruct (path_eq_dec (PurePath.child root c') item) as [E|Hni].
    + apply (Hfree c' f Hc'). rewrite E. assumption.
    + rewrite Hframe in Hg by assumption. apply (Hfree c' g Hc'). assumption.
  - intros q b Hq. apply (Hdeep q b). apply Hdirs. assumption.
Qed.

(** With the root ready, the body of the loop returns. *)
Lemma organize_body_returns (dry_run : bool) (item : Path) (acc : organize_acc)
  (w : world) :
  ready root B (files w) ->
  exists acc' w',
    organize_by_type_body root dry_run item acc w = (Val acc', w') /\
    ready root B (files w').
Proof.
  intros Hready. unfold organize_by_type_body.
  rewrite (bind_val _ _ _ _ _ (is_file_at item w)). unfold file_at.
  destruct (lookup (files w) item) as [[f|b]|] eqn:E; cbn [is_some];
    try (eexists; eexists; split; [reflexivity | assumption]).
  destruct (PurePath.eqb _ _); [eexists; eexists; split; [reflexivity | assumption]|].
  destruct dry_run; cbn [negb];
    [eexists; eexists; split; [reflexivity | assumption]|].
  set (c := get_category item).
  assert (exists wm,
            mkdir_exist_ok (PurePath.child root c) w = (Val tt, wm) /\
            ready root B (files wm) /\
            lookup (files wm) item = Some (File f)) as (wm & Hmk & Hrm & Hitem).
  { destruct Hready as (Hroot & Hfree & Hdeep).
    destruct (mkdir_exist_ok_returns (PurePath.child root c) w)
      as (wm & Hmk & [Hsame|[Hnone Hadd]]).
    - unfold PurePath.child. destruct root; discriminate.
    - rewrite parent_child. assumption.
    - intros g. apply Hfree. apply category_in_table.
    - exists wm. rewrite Hsame. repeat split; assumption.
    - exists wm. rewrite Hadd. split; [assumption|]. split.
      + apply ready_add_dir. repeat split; assumption.
      + rewrite lookup_add, E. reflexivity. }
  rewrite (bind_val _ _ _ _ _ Hmk).
  destruct (move_into_spec item (PurePath.child root c) wm f Hitem)
    as (k & r & w2 & Hmove & Hfree & _ & Hframe & Hr).
  assert (ready root B (files w2)) as Hr2.
  { apply (ready_move (files wm) (files w2) item f c k Hrm Hitem Hfree Hframe);
      destruct r; intuition. }
  unfold try_except, bind. rewrite Hmove.
  destruct r as [t|e|]; [| |contradiction];
    (eexists; eexists; split; [reflexivity | exact Hr2]).
Qed.

Lemma visit_returns (dry_run : bool) (p : Path) (st : walk_state) (w : world) :
  ready root B (files w) ->
  exists st' w',
    visit (organize_by_type_body root dry_run) p st w = (Val st', w') /\
    ready root B (files w').
Proof.
  intros Hready. unfold visit.
  destruct (existsb _ _); [eexists; eexists; split; [reflexivity | assumption]|].
  destruct (organize_body_returns dry_run p (snd st) w Hready)
    as (acc' & w' & Hb & Hr).
  rewrite (bind_val _ _ _ _ _ Hb). eexists; eexists; split; [reflexivity | assumption].
Qed.

Lemma visits_return (dry_run : bool) (ps : list Path) :
  forall st w,
    ready root B (files w) ->
    exists st' w',
      for_each (visit (organize_by_type_body root dry_run)) ps st w = (Val st', w') /\
      ready root B (files w').
Proof.
  induction ps as [|p ps IH]; intros st w Hready; simpl.
  - eexists; eexists; split; [reflexivity | assumption].
  - destruct (visit_returns dry_run p st w Hready) as (st1 & w1 & H1 & Hr1).
    rewrite (bind_val _ _ _ _ _ H1). apply IH. assumption.
Qed.

Lemma dir_persists {A} (m : M A) (w : world) (d : Path) (b : bool) :
  related (conserves (type_home root)) m ->
  lookup (files w) d = Some (Dir b) ->
  lookup (files (snd (m w))) d = Some (Dir b).
Proof. intros Hm Hd. apply (proj1 (Hm w)). assumption. Qed.

Lemma body_conserves_all (dry_run : bool) :
  forall p a, related (conserves (type_home root))
                (organize_by_type_body root dry_run p a).
Proof. intros p a. apply organize_by_type_body_conserves. Qed.

(** With the root ready and depth to spare, the walk returns. *)
Lemma rglob_from_returns (dry_run : bool) :
  forall k d st w b,
    ready root B (files w) ->
    lookup (files w) d = Some (Dir b) ->
    B < List.length d + k ->
    exists st' w',
      rglob_from (organize_by_type_body root dry_run) k d st w = (Val st', w') /\
      ready root B (files w').
Proof.
  pose proof (conserves_refl (type_home root)) as Hrefl.
  pose proof (conserves_trans _ (type_home_candidate root)) as Htrans.
  induction k as [|k IH]; intros d st w b Hready Hd Hk.
  - exfalso. destruct Hready as (_ & _ & Hdeep). specialize (Hdeep d b Hd). lia.
  - simpl. rewrite (bind_val _ _ _ _ _ (scandir_dir d w b Hd)).
    destruct (visits_return dry_run (map fst (listdir (files w) d)) st w Hready)
      as (st1 & w1 & H1 & Hr1).
    rewrite (bind_val _ _ _ _ _ H1).
    assert (lookup (files w1) d = Some (Dir b)) as Hd1.
    { pose proof (dir_persists
                    (for_each (visit (organize_by_type_body root dry_run))
                       (map fst (listdir (files w) d)) st) w d b) as Hp.
      rewrite H1 in Hp. apply Hp; [|assumption].
      apply (related_for_each _ Hrefl Htrans). intros p st0. unfold visit.
      destruct (existsb _ _); [apply (related_keeps _ Hrefl), keeps_ret|].
      apply (related_bind _ Htrans); [apply body_conserves_all|].
      intros a. apply (related_keeps _ Hrefl), keeps_ret. }
    rewrite (bind_val _ _ _ _ _ (scandir_dir d w1 b Hd1)).
    assert (forall c, In c (map fst (filter snd (listdir (files w1) d))) ->
              (exists b', lookup (files w1) c = Some (Dir b')) /\
              List.length c = S (List.length d)) as Hsub.
    { intros c Hc. apply subdir_child in Hc. destruct Hc as (Hne & Hpar & Hdir).
      split; [assumption|]. rewrite (length_parent c Hne), Hpar. reflexivity. }
    revert Hr1 Hsub. generalize (map fst (filter snd (listdir (files w1) d))).
    generalize st1 w1. clear - IH Hk Hrefl Htrans B_root.
    intros st1 w1 cs. revert st1 w1.
    induction cs as [|c cs IHcs]; intros st1 w1 Hr1 Hsub; simpl.
    + eexists; eexists; split; [reflexivity | assumption].
    + destruct (Hsub c (or_introl eq_refl)) as [[b' Hc] Hlen].
      destruct (IH c st1 w1 b' Hr1 Hc) as (st2 & w2 & H2 & Hr2); [lia|].
      rewrite (bind_val _ _ _ _ _ H2). apply IHcs; [assumption|].
      intros c' Hc'. destruct (Hsub c' (or_intror Hc')) as [[b'' Hc''] Hlen'].
      split; [|assumption]. exists b''.
      pose proof (dir_persists
                    (rglob_from (organize_by_type_body root dry_run) k c st1)
                    w1 c' b'') as Hp.
      rewrite H2 in Hp. apply Hp; [|assumption].
      apply (related_rglob_from _ Hrefl Htrans). apply body_conserves_all.
Qed.

End Returning.


